(** * The bks Vite plugin (src/src/index.ts): a shallow embedding

    The plugin rewrites HTML entrypoints for development, keeps them in
    sync through the dev server's file watcher, provisions two auxiliary
    files and installs two connect middlewares.

    Strings are [string] (one [ascii] per code unit), the file system and
    the console are an explicit world threaded through a state-and-exception
    monad, and the host platform (node:path, node:fs, JSON, the global
    scope) is modelled next to the plugin's own functions. *)

From Stdlib Require Import ZArith NArith Ascii String List Bool Lia.
From stdpp Require Import base option list strings gmap pretty.

Local Open Scope string_scope.
Local Set Warnings "-register-all".

(** ** Characters and strings *)

(** The double quote, the single quote, the newline and the escape
    character, by code: a string literal here holds no double quote. *)
Definition dq_char : ascii := "034"%char.
Definition sq_char : ascii := "039"%char.
Definition dq : string := String dq_char "".
Definition nl : string := String "010"%char "".
Definition esc : string := String "027"%char "".

Definition starts_with (p s : string) : bool := String.prefix p s.

Fixpoint strip_prefix (p s : string) : option string :=
  match p, s with
  | "", _ => Some s
  | String a p', String b s' => if Ascii.eqb a b then strip_prefix p' s' else None
  | String _ _, "" => None
  end.

(** The decimal digits. *)
Definition is_digit (c : ascii) : bool :=
  let n := N_of_ascii c in N.leb 48 n && N.leb n 57.

Fixpoint concat_strings (l : list string) : string :=
  match l with
  | [] => ""
  | s :: r => s +:+ concat_strings r
  end.

Fixpoint join_strings (sep : string) (l : list string) : string :=
  match l with
  | [] => ""
  | [s] => s
  | s :: r => s +:+ sep +:+ join_strings sep r
  end.

(** ** JavaScript values read from JSON *)

Inductive json : Type :=
  | JNull
  | JBool (b : bool)
  | JNum (n : Z)
  | JStr (s : string)
  | JArr (items : list json)
  | JObj (fields : list (string * json)).

(** ToBoolean. *)
Definition truthy (v : json) : bool :=
  match v with
  | JNull => false
  | JBool b => b
  | JNum n => negb (Z.eqb n 0)
  | JStr s => negb (String.eqb s "")
  | JArr _ | JObj _ => true
  end.

(** [a || b]. *)
Definition js_or (a b : json) : json := if truthy a then a else b.

(** ToString, as a template literal applies it.  Numbers are the
    integers, printed with all their digits, as JavaScript prints an
    integer below ten to the power 21; an array joins its items with
    commas, [null] items printing as nothing; an object prints as an
    ordinary object does, one without a toString key of its own. *)
Fixpoint to_js_string (v : json) : string :=
  match v with
  | JNull => "null"
  | JBool true => "true"
  | JBool false => "false"
  | JNum n => pretty n
  | JStr s => s
  | JArr items =>
      join_strings ","
        (map (fun x => match x with JNull => "" | _ => to_js_string x end) items)
  | JObj _ => "[object Object]"
  end.

(** The last binding of a key wins, as in an object built by JSON.parse. *)
Fixpoint lookup_field (k : string) (fields : list (string * json)) : option json :=
  match fields with
  | [] => None
  | (k', v) :: r =>
      match lookup_field k r with
      | Some v' => Some v'
      | None => if String.eqb k k' then Some v else None
      end
  end.

(** ** Exceptions, the world and the monad *)

(** The errors of node:fs carry a code and the path of the call; the
    error of a copy carries the source as its path, and the destination. *)
Inductive exn : Type :=
  | ReferenceError (name : string)
  | TypeError
  | SyntaxError
  | FsError (code : string) (path : string)
  | CopyError (code : string) (path : string) (dest : string).

Inductive node : Type :=
  | File (content : string)
  | Dir.

Inductive logline : Type :=
  | Log (msg : string)
  | Warn (msg : string)
  | WarnError (msg : string) (error : exn).

(** The file system maps a normalised absolute path to what is there; the
    console keeps its lines, oldest first. *)
Record World : Type := mkWorld {
  files : gmap string node;
  console : list logline
}.

Inductive completion (A : Type) : Type :=
  | Normal (a : A)
  | Throw (e : exn).
Arguments Normal {A} a.
Arguments Throw {A} e.

Definition M (A : Type) : Type := World -> completion A * World.

Definition ret {A} (a : A) : M A := fun w => (Normal a, w).
Definition throw {A} (e : exn) : M A := fun w => (Throw e, w).
Definition bind {A B} (m : M A) (k : A -> M B) : M B :=
  fun w =>
    match m w with
    | (Normal a, w') => k a w'
    | (Throw e, w') => (Throw e, w')
    end.
(** try { body } catch (e) { handler e } *)
Definition try_catch {A} (body : M A) (handler : exn -> M A) : M A :=
  fun w =>
    match body w with
    | (Normal a, w') => (Normal a, w')
    | (Throw e, w') => handler e w'
    end.

Notation "x <- m ;; k" := (bind m (fun x => k))
  (at level 100, m at next level, k at level 200, right associativity, only parsing).
Notation "m ;;; k" := (bind m (fun _ => k))
  (at level 100, k at level 200, right associativity, only parsing).

Fixpoint for_each {A} (f : A -> M unit) (l : list A) : M unit :=
  match l with
  | [] => ret tt
  | x :: r => f x ;;; for_each f r
  end.

Definition console_log (msg : string) : M unit :=
  fun w => (Normal tt, mkWorld (files w) (console w ++ [Log msg])).
Definition console_warn (msg : string) : M unit :=
  fun w => (Normal tt, mkWorld (files w) (console w ++ [Warn msg])).
Definition console_warn_error (msg : string) (e : exn) : M unit :=
  fun w => (Normal tt, mkWorld (files w) (console w ++ [WarnError msg e])).

(** ** node:path, POSIX flavour *)

Fixpoint split_on (sep : ascii) (s : string) : list string :=
  match s with
  | "" => [""]
  | String c r =>
      if Ascii.eqb c sep then "" :: split_on sep r
      else match split_on sep r with
           | [] => [String c ""]
           | h :: t => String c h :: t
           end
  end.

(** One step of normalisation over the stack of segments kept so far
    (innermost first): empty and dot segments vanish, a double dot pops. *)
Definition normalize_step (stack : list string) (seg : string) : list string :=
  if String.eqb seg "" || String.eqb seg "." then stack
  else if String.eqb seg ".." then tail stack
  else seg :: stack.

Definition normalize_segments (segs : list string) : list string :=
  rev (fold_left normalize_step segs []).

Definition segments (p : string) : list string :=
  normalize_segments (split_on "/" p).

Definition join_absolute (segs : list string) : string :=
  match segs with
  | [] => "/"
  | _ => concat_strings (map (fun seg => "/" +:+ seg) segs)
  end.

Definition is_absolute (p : string) : bool := starts_with "/" p.

(** path.resolve walks its arguments from the right, then the working
    directory, until the path built so far is absolute. *)
Fixpoint resolve_from (ps : list string) (acc : string) : string :=
  match ps with
  | [] => acc
  | p :: ps' =>
      if String.eqb p "" then resolve_from ps' acc
      else
        let acc' := p +:+ "/" +:+ acc in
        if is_absolute p then acc' else resolve_from ps' acc'
  end.

Definition path_resolve (cwd : string) (args : list string) : string :=
  join_absolute (segments (resolve_from (rev args ++ [cwd]) "")).

(** path.dirname reads the characters after the first one from the
    right: trailing slashes ([drop_slashes]), then the base name and the
    slash before it ([after_basename]); what is left, still reversed, is
    the rest of the directory name. *)
Fixpoint drop_slashes (r : list ascii) : list ascii :=
  match r with
  | c :: r' => if Ascii.eqb c "/" then drop_slashes r' else r
  | [] => []
  end.

Fixpoint after_basename (r : list ascii) : option (list ascii) :=
  match r with
  | c :: r' => if Ascii.eqb c "/" then Some r' else after_basename r'
  | [] => None
  end.

Definition path_dirname (p : string) : string :=
  match p with
  | "" => "."
  | String c0 rest =>
      let has_root := Ascii.eqb c0 "/" in
      match after_basename (drop_slashes (rev (list_ascii_of_string rest))) with
      | None => if has_root then "/" else "."
      | Some before =>
          if has_root && Nat.eqb (length before) 0 then "//"
          else String c0 (string_of_list_ascii (rev before))
      end
  end.

(** ** node:fs over the world *)

(** The root is a directory whatever the map says. *)
Definition lookup_node (fs : gmap string node) (p : string) : option node :=
  if String.eqb p "/" then Some Dir else fs !! p.

Definition existsSync (p : string) : M bool :=
  fun w => (Normal (bool_decide (is_Some (lookup_node (files w) p))), w).

Definition readFileSync (p : string) : M string :=
  fun w =>
    match lookup_node (files w) p with
    | Some (File c) => (Normal c, w)
    | Some Dir => (Throw (FsError "EISDIR" p), w)
    | None => (Throw (FsError "ENOENT" p), w)
    end.

Fixpoint prefixes_from (base : string) (segs : list string) : list string :=
  match segs with
  | [] => []
  | s :: r => let p := base +:+ "/" +:+ s in p :: prefixes_from p r
  end.

(** Every directory on the way to [p], outermost first, [p] included. *)
Definition ancestors (p : string) : list string := prefixes_from "" (segments p).

Definition is_file (fs : gmap string node) (p : string) : bool :=
  match lookup_node fs p with
  | Some (File _) => true
  | _ => false
  end.

(** fs.mkdirSync(p, { recursive: true }). *)
Definition mkdirSync_recursive (p : string) : M unit :=
  fun w =>
    match find (is_file (files w)) (ancestors p) with
    | Some a =>
        (Throw (FsError (if String.eqb a p then "EEXIST" else "ENOTDIR") p), w)
    | None =>
        (Normal tt,
         mkWorld (foldr (fun a fs => <[a := Dir]> fs) (files w) (ancestors p))
                 (console w))
    end.

(** Writing needs the parent directory and refuses a directory as target. *)
Definition write_node (p : string) (c : string) : M unit :=
  fun w =>
    match lookup_node (files w) p with
    | Some Dir => (Throw (FsError "EISDIR" p), w)
    | _ =>
        match lookup_node (files w) (path_dirname p) with
        | Some Dir => (Normal tt, mkWorld (<[p := File c]> (files w)) (console w))
        | Some (File _) => (Throw (FsError "ENOTDIR" p), w)
        | None => (Throw (FsError "ENOENT" p), w)
        end
    end.

Definition writeFileSync (p : string) (c : string) : M unit := write_node p c.

(** fs.copyFileSync: one call reads and writes, and what goes wrong in
    either is reported as the copy's error. *)
Definition copyFileSync (src dst : string) : M unit :=
  try_catch (c <- readFileSync src ;; write_node dst c)
    (fun e =>
       match e with
       | FsError code _ => throw (CopyError code src dst)
       | _ => throw e
       end).

(** ** The host and the plugin's configuration *)

(** What the plugin reads from the platform it runs on.  [global_window]
    is [None] when the global scope declares no [window]; otherwise it
    holds what [window?.location?.href] evaluates to, [None] standing for
    [undefined]. *)
Record Host : Type := mkHost {
  cwd : string;
  module_dir : string;
  global_window : option (option string);
  JSON_parse : string -> option json;
  JSON_stringify : json -> string;
  encodeURIComponent : string -> string
}.

Record Entrypoint : Type := mkEntrypoint {
  input : string;
  output : string
}.

Record Options : Type := mkOptions {
  entrypoints : list Entrypoint
}.

Definition default_options : Options :=
  mkOptions [mkEntrypoint "index.html" "dist/index.html"].

(** [server_port] is [config.server.port], a number or undefined. *)
Record ResolvedConfig : Type := mkConfig {
  root : string;
  server_port : option N
}.

(** ** The two regular expressions *)

(** The first pattern, case-insensitive: an opening angle bracket and
    the word head, then everything up to the first closing angle bracket;
    the whole match is capture group 1. *)
Definition ci_eqb (c lower upper : ascii) : bool :=
  Ascii.eqb c lower || Ascii.eqb c upper.

Definition is_head_word (c0 c1 c2 c3 c4 : ascii) : bool :=
  Ascii.eqb c0 "<" && ci_eqb c1 "h" "H" && ci_eqb c2 "e" "E"
  && ci_eqb c3 "a" "A" && ci_eqb c4 "d" "D".

Fixpoint until_gt (s : string) : option (string * string) :=
  match s with
  | "" => None
  | String c r =>
      if Ascii.eqb c ">" then Some (">", r)
      else match until_gt r with
           | Some (a, rest) => Some (String c a, rest)
           | None => None
           end
  end.

(** A match at the very start of [s]: the tag and what follows it. *)
Definition match_head_at (s : string) : option (string * string) :=
  match s with
  | String c0 (String c1 (String c2 (String c3 (String c4 r)))) =>
      if is_head_word c0 c1 c2 c3 c4 then
        match until_gt r with
        | Some (a, rest) =>
            Some (String c0 (String c1 (String c2 (String c3 (String c4 a)))), rest)
        | None => None
        end
      else None
  | _ => None
  end.

(** The leftmost match: what precedes it, the tag, what follows. *)
Fixpoint find_head (s : string) : option (string * string * string) :=
  match match_head_at s with
  | Some (tag, post) => Some ("", tag, post)
  | None =>
      match s with
      | "" => None
      | String c r =>
          match find_head r with
          | Some (pre, tag, post) => Some (String c pre, tag, post)
          | None => None
          end
      end
  end.

(** GetSubstitution for a pattern with one capture group and no named
    group: the dollar forms of a replacement string. *)
Fixpoint get_substitution (matched before after cap1 : string) (t : string) : string :=
  match t with
  | "" => ""
  | String c r =>
      if Ascii.eqb c "$" then
        match r with
        | "" => "$"
        | String d r' =>
            if Ascii.eqb d "$" then "$" +:+ get_substitution matched before after cap1 r'
            else if Ascii.eqb d "&" then matched +:+ get_substitution matched before after cap1 r'
            else if Ascii.eqb d "`" then before +:+ get_substitution matched before after cap1 r'
            else if Ascii.eqb d sq_char then after +:+ get_substitution matched before after cap1 r'
            else if Ascii.eqb d "1" then cap1 +:+ get_substitution matched before after cap1 r'
            else if Ascii.eqb d "0" then
              match r' with
              | String e r'' =>
                  if Ascii.eqb e "1"
                  then cap1 +:+ get_substitution matched before after cap1 r''
                  else "$" +:+ get_substitution matched before after cap1 r
              | "" => "$" +:+ get_substitution matched before after cap1 r
              end
            else "$" +:+ get_substitution matched before after cap1 r
        end
      else String c (get_substitution matched before after cap1 r)
  end.

(** [html.replace] with the first pattern and a replacement string: the
    first match only. *)
Definition replace_head (html template : string) : string :=
  match find_head html with
  | Some (pre, tag, post) =>
      pre +:+ get_substitution tag pre post tag template +:+ post
  | None => html
  end.

(** The second pattern: src or href, an equals sign, a quote of either
    kind, a slash, one or more characters that are no quotes, a quote of
    either kind; global. *)
Definition is_quote (c : ascii) : bool := Ascii.eqb c dq_char || Ascii.eqb c sq_char.

Definition match_attr (s : string) : option (string * string) :=
  match strip_prefix "src" s with
  | Some r => Some ("src", r)
  | None =>
      match strip_prefix "href" s with
      | Some r => Some ("href", r)
      | None => None
      end
  end.

(** The longest run of characters that are no quotes, and the rest. *)
Fixpoint span_unquoted (s : string) : string * string :=
  match s with
  | "" => ("", "")
  | String c r =>
      if is_quote c then ("", s)
      else let (x, rest) := span_unquoted r in (String c x, rest)
  end.

(** A match at the very start of [s]: the attribute name, the path after
    the leading slash, and what follows the closing quote. *)
Definition match_url_at (s : string) : option (string * string * string) :=
  match match_attr s with
  | Some (attr, String e (String q (String sl r))) =>
      if Ascii.eqb e "=" && is_quote q && Ascii.eqb sl "/" then
        match span_unquoted r with
        | (String c x, String _ rest) => Some (attr, String c x, rest)
        | _ => None
        end
      else None
  | _ => None
  end.

Definition url_replacement (port : N) (attr urlPath : string) : string :=
  attr +:+ "=" +:+ dq +:+ "http://localhost:" +:+ pretty port +:+ "/" +:+ urlPath +:+ dq.

(** The global replace: scan from the left; at a match emit the
    replacement and skip the rest of the matched text, elsewhere copy one
    character.  [skip] counts the characters of a match still to pass. *)
Fixpoint rewrite_from (port : N) (skip : nat) (s : string) : string :=
  match s with
  | "" => ""
  | String c r =>
      match skip with
      | S k => rewrite_from port k r
      | O =>
          match match_url_at s with
          | Some (attr, urlPath, _) =>
              url_replacement port attr urlPath
              +:+ rewrite_from port (String.length attr + String.length urlPath + 3) r
          | None => String c (rewrite_from port 0 r)
          end
      end
  end.

Definition rewriteUrls (port : N) (s : string) : string := rewrite_from port 0 s.

(** ** The plugin *)

Inductive address : Type :=
  | AddrNull
  | AddrPipe (name : string)
  | AddrInfo (port : N).

(** [server.config] and whether [server.httpServer] is there. *)
Record ViteDevServer : Type := mkServer {
  srv_config : ResolvedConfig;
  httpServer : bool
}.

Record Request : Type := mkRequest {
  url : string;
  origin : option string
}.

Record Response : Type := mkResponse {
  status : N;
  headers : list (string * string);
  body : string
}.

(** A middleware either calls [next()] or ends the response. *)
Inductive Outcome : Type :=
  | Next
  | Ended (r : Response).

Inductive Middleware : Type :=
  | InfoEndpoint
  | OriginGuard.

(** A change listener of [watchFiles]: the values its closure captured. *)
Record Handler : Type := mkHandler {
  h_entry : Entrypoint;
  h_absPath : string;
  h_devPort : N
}.

(** The closure variable [portFromServer] and what the plugin has
    registered with the server. *)
Record PluginState : Type := mkState {
  portFromServer : option N;
  middlewares : list Middleware;
  listening_once : bool;
  watched : list string;
  change_handlers : list Handler
}.

Definition initial_state : PluginState := mkState None [] false [] [].

(** The first operand of [||] that is a number other than zero. *)
Definition truthy_port (p : option N) : option N :=
  match p with
  | Some 0%N => None
  | other => other
  end.

(** [portFromServer || server.config.server.port || 5173] *)
Definition devPort_of (fromServer configured : option N) : N :=
  match truthy_port fromServer with
  | Some p => p
  | None =>
      match truthy_port configured with
      | Some p => p
      | None => 5173%N
      end
  end.

Section Plugin.

Variable host : Host.
Variable config : ResolvedConfig.
Variable options : Options.

Definition resolve (args : list string) : string := path_resolve (cwd host) args.

(** [manifest.id]: reading a property of null throws, any other value
    without the field gives undefined. *)
Definition get_id (manifest : json) : M (option json) :=
  match manifest with
  | JNull => throw TypeError
  | JObj fields => ret (lookup_field "id" fields)
  | _ => ret None
  end.

Definition parse_json (text : string) : M json :=
  match JSON_parse host text with
  | Some v => ret v
  | None => throw SyntaxError
  end.

(** The body of the try block: [Some v] when it returns [v], [None] when
    control falls out of it. *)
Definition getManifestId_try : M (option json) :=
  let manifestPath := resolve [root config; "manifest.json"] in
  found <- existsSync manifestPath ;;
  if found then
    text <- readFileSync manifestPath ;;
    manifest <- parse_json text ;;
    id <- get_id manifest ;;
    ret (Some (js_or (default (JStr "") id) (JStr "")))
  else ret None.

Definition getManifestId : M json :=
  r <- try_catch getManifestId_try
         (fun error =>
            console_warn_error "[bks] Could not read manifest.json: " error ;;;
            ret None) ;;
  ret (default (JStr "") r).

(** The query part both scripts share. *)
Definition manifest_query (manifestId : json) : string :=
  if truthy manifestId then "&manifestId=" +:+ to_js_string manifestId else "".

Definition clientScript (port : N) (manifestId : json) : string :=
  "<script>" +:+ nl +:+
  "      window.showViteError = function(e) {" +:+ nl +:+
  "        const currentUrl = encodeURIComponent(window.location.href);" +:+ nl +:+
  "        window.location.href = './error.html?port=" +:+ pretty port +:+
  manifest_query manifestId +:+ "&target=' + currentUrl;" +:+ nl +:+
  "      };" +:+ nl +:+
  "    </script>" +:+ nl +:+
  "    <script type=" +:+ dq +:+ "module" +:+ dq +:+
  " src=" +:+ dq +:+ "http://localhost:" +:+ pretty port +:+ "/@vite/client" +:+ dq +:+
  " onerror=" +:+ dq +:+ "showViteError()" +:+ dq +:+ "></script>".

(** The replacement string of the first replace. *)
Definition head_template (port : N) (manifestId : json) : string :=
  "$1" +:+ nl +:+ "    " +:+ clientScript port manifestId.

(** [window?.location?.href || ''] : the identifier is looked up first. *)
Definition window_href : M string :=
  match global_window host with
  | None => throw (ReferenceError "window")
  | Some href => ret (default "" href)
  end.

Definition injectDevClient (html : string) (port : N) : M string :=
  manifestId <- getManifestId ;;
  href <- window_href ;;
  let currentUrl := encodeURIComponent host href in
  let errorUrl :=
    "./error.html?port=" +:+ pretty port +:+ manifest_query manifestId
    +:+ "&target=" +:+ currentUrl in
  let withClient := replace_head html (head_template port manifestId) in
  ret (rewriteUrls port withClient).

Definition transformed_message (entry : Entrypoint) : string :=
  esc +:+ "[32m" +:+ String "226" (String "156" (String "147" "")) +:+ esc +:+ "[0m " +:+
  esc +:+ "[36m[bks]" +:+ esc +:+ "[0m Transformed entrypoint: " +:+
  esc +:+ "[33m" +:+ input entry +:+ esc +:+ "[0m " +:+
  String "226" (String "134" (String "146" "")) +:+ " " +:+
  esc +:+ "[33m" +:+ output entry +:+ esc +:+ "[0m".

Definition writeEntrypoint (entry : Entrypoint) (port : N) : M unit :=
  let srcHtmlPath := resolve [root config; input entry] in
  let outHtmlPath := resolve [root config; output entry] in
  found <- existsSync srcHtmlPath ;;
  if negb found then
    console_warn ("[bks] Source HTML not found: " +:+ srcHtmlPath)
  else
    html <- readFileSync srcHtmlPath ;;
    html <- injectDevClient html port ;;
    mkdirSync_recursive (path_dirname outHtmlPath) ;;;
    writeFileSync outHtmlPath html ;;;
    console_log (transformed_message entry).

(** [watchFiles]: [devPort] is computed once, before the loop, and every
    listener keeps that value. *)
Definition watchFiles (server : ViteDevServer) (st : PluginState) : PluginState :=
  let devPort := devPort_of (portFromServer st) (server_port (srv_config server)) in
  fold_left
    (fun (st : PluginState) entry =>
       let absPath := resolve [root config; input entry] in
       mkState (portFromServer st) (middlewares st) (listening_once st)
         (watched st ++ [absPath])
         (change_handlers st ++ [mkHandler entry absPath devPort]))
    (entrypoints options) st.

(** One change listener, called with the changed path. *)
Definition run_handler (changed : string) (h : Handler) : M unit :=
  if String.eqb (resolve [changed]) (h_absPath h)
  then writeEntrypoint (h_entry h) (h_devPort h)
  else ret tt.

(** The watcher emits [change]: the listeners run in registration order. *)
Definition emit_change (st : PluginState) (changed : string) : M unit :=
  for_each (run_handler changed) (change_handlers st).

(** [copyDevFiles] *)
Definition outputDirs : list string :=
  fold_left
    (fun (dirs : list string) entry =>
       let outputDir := resolve [root config; path_dirname (output entry)] in
       if bool_decide (outputDir ∈ dirs) then dirs else (dirs ++ [outputDir])%list)
    (entrypoints options) [].

Definition eventForwarderSrc : string :=
  resolve [root config; "node_modules/@beekeeperstudio/plugin/dist/eventForwarder.js"].

Definition errorPageSrc : string := resolve [module_dir host; "../error.html"].

Definition copy_if_exists (src dst : string) : M unit :=
  found <- existsSync src ;;
  if found then copyFileSync src dst else ret tt.

Definition provision_dir (dir : string) : M unit :=
  found <- existsSync dir ;;
  (if negb found then mkdirSync_recursive dir else ret tt) ;;;
  copy_if_exists eventForwarderSrc (resolve [dir; "eventForwarder.js"]) ;;;
  copy_if_exists errorPageSrc (resolve [dir; "error.html"]).

Definition copyDevFiles_try : M unit :=
  for_each provision_dir outputDirs ;;;
  console_log "[bks] Copied dev files to output directories".

Definition copyDevFiles : M unit :=
  try_catch copyDevFiles_try
    (fun error => console_warn_error "[bks] Could not copy dev files:" error).

(** The two middlewares. *)
Definition info_path : string := "/__bks_vite_plugin__info".

Definition info_endpoint (req : Request) : M Outcome :=
  if String.eqb (url req) info_path then
    manifestId <- getManifestId ;;
    ret (Ended (mkResponse 200
                  [("Content-Type", "application/json");
                   ("Access-Control-Allow-Origin", "*")]
                  (JSON_stringify host (JObj [("manifestId", manifestId)]))))
  else ret Next.

Definition forbidden : Response := mkResponse 403 [] "".

Definition origin_guard (req : Request) : M Outcome :=
  match origin req with
  | Some o =>
      if negb (String.eqb o "") && starts_with "plugin://" o then
        manifestId <- getManifestId ;;
        if truthy manifestId
           && negb (String.eqb o ("plugin://" +:+ to_js_string manifestId))
        then ret (Ended forbidden)
        else ret Next
      else ret Next
  | None => ret Next
  end.

Definition run_middleware (m : Middleware) (req : Request) : M Outcome :=
  match m with
  | InfoEndpoint => info_endpoint req
  | OriginGuard => origin_guard req
  end.

(** connect's chain: each middleware in registration order until one ends
    the response; [Next] at the end hands the request to the server's own
    middlewares. *)
Fixpoint handle_request (ms : list Middleware) (req : Request) : M Outcome :=
  match ms with
  | [] => ret Next
  | m :: rest =>
      o <- run_middleware m req ;;
      match o with
      | Next => handle_request rest req
      | Ended r => ret (Ended r)
      end
  end.

Definition writeAll (server : ViteDevServer) (st : PluginState) : M unit :=
  let devPort := devPort_of (portFromServer st) (server_port (srv_config server)) in
  for_each (fun entry => writeEntrypoint entry devPort) (entrypoints options).

(** [configureServer]: provision, install the middlewares, register the
    one-time listening listener, register the watchers. *)
Definition register (server : ViteDevServer) (st : PluginState) : PluginState :=
  watchFiles server
    (mkState (portFromServer st)
       (middlewares st ++ [InfoEndpoint; OriginGuard])
       (listening_once st || httpServer server) (watched st) (change_handlers st)).

Definition configureServer (server : ViteDevServer) (st : PluginState) : M PluginState :=
  copyDevFiles ;;; ret (register server st).

(** The listening listener: the assignment to [portFromServer]. *)
Definition capture_port (addr : address) (st : PluginState) : PluginState :=
  match addr with
  | AddrInfo (Npos p) =>
      mkState (Some (Npos p)) (middlewares st) (listening_once st)
        (watched st) (change_handlers st)
  | _ => st
  end.

(** The server emits [listening]: a [once] listener is removed before it
    runs.  The new plugin state, and what running the listener does. *)
Definition listening_state (addr : address) (st : PluginState) : PluginState :=
  if listening_once st then
    let st' := capture_port addr st in
    mkState (portFromServer st') (middlewares st') false
      (watched st') (change_handlers st')
  else st.

Definition emit_listening (server : ViteDevServer) (addr : address) (st : PluginState)
  : M unit :=
  if listening_once st then writeAll server (capture_port addr st) else ret tt.

End Plugin.

(** ** A host to evaluate the plugin on

    The theorems below hold for every host.  The examples run on this
    one: a reader and a writer for JSON without unicode escapes, fractions
    and exponents, percent-encoding of everything but letters and digits,
    and a POSIX working directory. *)
Module Demo.

Definition is_ws (c : ascii) : bool :=
  Ascii.eqb c " " || Ascii.eqb c "009" || Ascii.eqb c "010" || Ascii.eqb c "013".

Fixpoint skip_ws (s : string) : string :=
  match s with
  | String c r => if is_ws c then skip_ws r else s
  | "" => ""
  end.

Definition unescape (c : ascii) : option ascii :=
  if Ascii.eqb c dq_char then Some dq_char
  else if Ascii.eqb c "\" then Some "\"%char
  else if Ascii.eqb c "/" then Some "/"%char
  else if Ascii.eqb c "n" then Some "010"%char
  else if Ascii.eqb c "t" then Some "009"%char
  else if Ascii.eqb c "r" then Some "013"%char
  else if Ascii.eqb c "b" then Some "008"%char
  else if Ascii.eqb c "f" then Some "012"%char
  else None.

(** The characters of a string literal after its opening quote. *)
Fixpoint read_string (s : string) : option (string * string) :=
  match s with
  | "" => None
  | String c r =>
      if Ascii.eqb c dq_char then Some ("", r)
      else if Ascii.eqb c "\" then
        match r with
        | String e r' =>
            match unescape e, read_string r' with
            | Some c', Some (x, rest) => Some (String c' x, rest)
            | _, _ => None
            end
        | "" => None
        end
      else if N.ltb (N_of_ascii c) 32 then None
      else match read_string r with
           | Some (x, rest) => Some (String c x, rest)
           | None => None
           end
  end.

Fixpoint read_digits (acc : N) (s : string) : N * string :=
  match s with
  | String c r =>
      match Ascii.is_nat c with
      | Some d => read_digits (acc * 10 + N.of_nat d) r
      | None => (acc, s)
      end
  | "" => (acc, "")
  end.

(** A zero followed by another digit. *)
Definition leading_zero (s : string) : bool :=
  match s with
  | String c (String d _) => Ascii.eqb c "0" && is_digit d
  | _ => false
  end.

Definition read_natural (s : string) : option (N * string) :=
  match s with
  | String d _ =>
      if is_digit d && negb (leading_zero s) then Some (read_digits 0 s) else None
  | "" => None
  end.

Definition read_number (s : string) : option (json * string) :=
  match s with
  | String c r =>
      if Ascii.eqb c "-" then
        match read_natural r with
        | Some (n, rest) => Some (JNum (- Z.of_N n), rest)
        | None => None
        end
      else
        match read_natural s with
        | Some (n, rest) => Some (JNum (Z.of_N n), rest)
        | None => None
        end
  | "" => None
  end.

Fixpoint read_value (fuel : nat) (s : string) : option (json * string) :=
  match fuel with
  | O => None
  | S f =>
      match skip_ws s with
      | "" => None
      | String c r =>
          if Ascii.eqb c dq_char then
            match read_string r with
            | Some (x, rest) => Some (JStr x, rest)
            | None => None
            end
          else if Ascii.eqb c "{" then
            match skip_ws r with
            | String c' r' =>
                if Ascii.eqb c' "}" then Some (JObj [], r') else read_members f [] r
            | "" => None
            end
          else if Ascii.eqb c "[" then
            match skip_ws r with
            | String c' r' =>
                if Ascii.eqb c' "]" then Some (JArr [], r') else read_items f [] r
            | "" => None
            end
          else
            match strip_prefix "null" (String c r) with
            | Some rest => Some (JNull, rest)
            | None =>
                match strip_prefix "true" (String c r) with
                | Some rest => Some (JBool true, rest)
                | None =>
                    match strip_prefix "false" (String c r) with
                    | Some rest => Some (JBool false, rest)
                    | None => read_number (String c r)
                    end
                end
            end
      end
  end
with read_members (fuel : nat) (acc : list (string * json)) (s : string)
  : option (json * string) :=
  match fuel with
  | O => None
  | S f =>
      match skip_ws s with
      | String q r =>
          if Ascii.eqb q dq_char then
            match read_string r with
            | Some (k, r1) =>
                match skip_ws r1 with
                | String colon r2 =>
                    if Ascii.eqb colon ":" then
                      match read_value f r2 with
                      | Some (v, r3) =>
                          match skip_ws r3 with
                          | String sep r4 =>
                              if Ascii.eqb sep "," then read_members f ((k, v) :: acc) r4
                              else if Ascii.eqb sep "}"
                              then Some (JObj (rev ((k, v) :: acc)), r4)
                              else None
                          | "" => None
                          end
                      | None => None
                      end
                    else None
                | "" => None
                end
            | None => None
            end
          else None
      | "" => None
      end
  end
with read_items (fuel : nat) (acc : list json) (s : string) : option (json * string) :=
  match fuel with
  | O => None
  | S f =>
      match read_value f s with
      | Some (v, r1) =>
          match skip_ws r1 with
          | String sep r2 =>
              if Ascii.eqb sep "," then read_items f (v :: acc) r2
              else if Ascii.eqb sep "]" then Some (JArr (rev (v :: acc)), r2)
              else None
          | "" => None
          end
      | None => None
      end
  end.

Definition parse (text : string) : option json :=
  match read_value (S (String.length text)) text with
  | Some (v, rest) => if String.eqb (skip_ws rest) "" then Some v else None
  | None => None
  end.

Definition hex_digit (n : N) : ascii :=
  match n with
  | 10 => "A" | 11 => "B" | 12 => "C" | 13 => "D" | 14 => "E" | 15 => "F"
  | _ => pretty_N_char n
  end%char%N.

Definition hex_byte (c : ascii) : string :=
  let n := N_of_ascii c in
  String (hex_digit (n / 16)) (String (hex_digit (n mod 16)) "").

Definition escape_char (c : ascii) : string :=
  if Ascii.eqb c dq_char then "\" +:+ dq
  else if Ascii.eqb c "\" then "\\"
  else if Ascii.eqb c "010" then "\n"
  else if Ascii.eqb c "009" then "\t"
  else if Ascii.eqb c "013" then "\r"
  else if Ascii.eqb c "008" then "\b"
  else if Ascii.eqb c "012" then "\f"
  else if N.ltb (N_of_ascii c) 32 then "\u00" +:+ hex_byte c
  else String c "".

Fixpoint escape (s : string) : string :=
  match s with
  | "" => ""
  | String c r => escape_char c +:+ escape r
  end.

Definition quote (s : string) : string := dq +:+ escape s +:+ dq.

Fixpoint stringify (v : json) : string :=
  match v with
  | JNull => "null"
  | JBool true => "true"
  | JBool false => "false"
  | JNum n => pretty n
  | JStr s => quote s
  | JArr items => "[" +:+ join_strings "," (map stringify items) +:+ "]"
  | JObj fields =>
      "{" +:+
      join_strings ","
        (map (fun kv => match kv with (k, x) => quote k +:+ ":" +:+ stringify x end)
           fields)
      +:+ "}"
  end.

Definition is_unreserved (c : ascii) : bool :=
  let n := N_of_ascii c in
  (N.leb 48 n && N.leb n 57) || (N.leb 65 n && N.leb n 90) || (N.leb 97 n && N.leb n 122)
  || Ascii.eqb c "-" || Ascii.eqb c "_" || Ascii.eqb c "." || Ascii.eqb c "!"
  || Ascii.eqb c "~" || Ascii.eqb c "*" || Ascii.eqb c sq_char
  || Ascii.eqb c "(" || Ascii.eqb c ")".

Fixpoint percent_encode (s : string) : string :=
  match s with
  | "" => ""
  | String c r =>
      (if is_unreserved c then String c "" else "%" +:+ hex_byte c) +:+ percent_encode r
  end.

(** Node started in /proj, the plugin installed under node_modules: the
    global scope has no [window]. *)
Definition node_host : Host :=
  mkHost "/proj" "/proj/node_modules/@beekeeperstudio/vite-plugin/dist" None
    parse stringify percent_encode.

(** The same host with a global [window] whose location is [href]. *)
Definition with_window (href : string) : Host :=
  mkHost "/proj" "/proj/node_modules/@beekeeperstudio/vite-plugin/dist" (Some (Some href))
    parse stringify percent_encode.

Definition browser_host : Host := with_window "http://localhost:5173/".

Definition config : ResolvedConfig := mkConfig "/proj" (Some 5173%N).

Definition server : ViteDevServer := mkServer config true.

(** A project with one entrypoint and a manifest. *)
Definition index_html : string :=
  "<html><head></head><body><img src=" +:+ dq +:+ "/logo.png" +:+ dq +:+ "></body></html>".

Definition manifest_json : string :=
  "{" +:+ dq +:+ "id" +:+ dq +:+ ": " +:+ dq +:+ "abc123" +:+ dq +:+ "}".

Definition project : gmap string node :=
  <["/proj/manifest.json" := File manifest_json]>
    (<["/proj/index.html" := File index_html]> (<["/proj" := Dir]> ∅)).

Definition world : World := mkWorld project [].

End Demo.

(** * The vocabulary of the statements *)

(** ** Worlds *)

(** The world after the resolver's warning. *)
Definition manifest_warned (w : World) (e : exn) : World :=
  mkWorld (files w) (console w ++ [WarnError "[bks] Could not read manifest.json: " e]).

(** The world after [copyDevFiles]'s own console line. *)
Definition copied_logged (w : World) : World :=
  mkWorld (files w) (console w ++ [Log "[bks] Copied dev files to output directories"]).
Definition copy_warned (w : World) (e : exn) : World :=
  mkWorld (files w) (console w ++ [WarnError "[bks] Could not copy dev files:" e]).

(** The directory of an entrypoint's output, and one step of the loop
    that collects the directories. *)
Definition output_dir (host : Host) (config : ResolvedConfig) (entry : Entrypoint) : string :=
  resolve host [root config; path_dirname (output entry)].

Definition add_dir (host : Host) (config : ResolvedConfig)
    (dirs : list string) (entry : Entrypoint) : list string :=
  if bool_decide (output_dir host config entry ∈ dirs) then dirs
  else dirs ++ [output_dir host config entry].

(** Two entrypoints with distinct output directories; out1 is a regular
    file, so nothing can be copied into it. *)
Definition two_outputs : Options :=
  mkOptions [mkEntrypoint "a.html" "out1/a.html"; mkEntrypoint "b.html" "out2/b.html"].

Definition blocked_project : gmap string node :=
  <["/proj/node_modules/@beekeeperstudio/vite-plugin/error.html" := File "<h1>error</h1>"]>
    (<["/proj/out1" := File "not a directory"]> (<["/proj" := Dir]> ∅)).

Definition blocked_world : World := mkWorld blocked_project [].

(** ** Request URLs *)

(** The path of a request URL: what stands before the query string. *)
Fixpoint url_path (u : string) : string :=
  match u with
  | "" => ""
  | String c r => if Ascii.eqb c "?" then "" else String c (url_path r)
  end.

(** ** Classes of characters *)

Fixpoint string_forall (P : ascii -> bool) (s : string) : bool :=
  match s with
  | "" => true
  | String c r => P c && string_forall P r
  end.

Definition unquoted (s : string) : bool := string_forall (fun c => negb (is_quote c)) s.

Definition no_slash (s : string) : bool := string_forall (fun c => negb (Ascii.eqb c "/")) s.

(** A segment of a normalised path. *)
Definition clean_segment (s : string) : Prop :=
  no_slash s = true /\ s <> "" /\ s <> "." /\ s <> "..".

Definition no_gt (s : string) : bool := string_forall (fun c => negb (Ascii.eqb c ">")) s.

Definition not_dollar (c : ascii) : bool := negb (Ascii.eqb c "$").

(** Neither a dollar sign nor a quote. *)
Definition plain (c : ascii) : bool := not_dollar c && negb (is_quote c).

Fixpoint last_char (s : string) : option ascii :=
  match s with
  | "" => None
  | String c r => match last_char r with None => Some c | Some d => Some d end
  end.

(** Does [needle] occur in [hay], and how often? *)
Fixpoint occurs (needle hay : string) : bool :=
  starts_with needle hay
  || match hay with
     | "" => false
     | String _ r => occurs needle r
     end.

Fixpoint count_occurrences (needle hay : string) : nat :=
  (if starts_with needle hay then 1 else 0)
  + match hay with
    | "" => 0
    | String _ r => count_occurrences needle r
    end.

(** ** What the second pattern matches

    [url_match s attr x rest]: the string [s] starts with a match of the
    second pattern, with the attribute name [attr] and the path [x], and
    [rest] follows the match. *)
Definition url_match (s attr x rest : string) : Prop :=
  (attr = "src" \/ attr = "href")
  /\ exists q q',
       is_quote q = true /\ is_quote q' = true /\ x <> "" /\ unquoted x = true
       /\ s = attr +:+ "=" +:+ String q ("/" +:+ x +:+ String q' rest).

(** A global replace, read from left to right: at the start of a match
    the replacement is written and the reading goes on after the match;
    elsewhere one character is copied. *)
Inductive url_rewritten (port : N) : string -> string -> Prop :=
  | rewritten_end : url_rewritten port "" ""
  | rewritten_match s attr x rest out :
      url_match s attr x rest ->
      url_rewritten port rest out ->
      url_rewritten port s (url_replacement port attr x +:+ out)
  | rewritten_char c s out :
      (forall attr x rest, ~ url_match (String c s) attr x rest) ->
      url_rewritten port s out ->
      url_rewritten port (String c s) (String c out).

(** ** Where a match of the second pattern can begin

    Every match of the second pattern opens with one of the two attribute
    names, an equals sign, a quote and a slash. *)
Definition has_opening (s : string) : Prop :=
  exists l attr q r,
    (attr = "src" \/ attr = "href") /\ is_quote q = true
    /\ s = l +:+ attr +:+ "=" +:+ String q ("/" +:+ r).

(** [scan] looks for an opening, keeping how much of one the text read
    so far ends with. *)
Inductive progress : Type :=
  | Nothing
  | Seen_s | Seen_sr | Seen_src
  | Seen_h | Seen_hr | Seen_hre | Seen_href
  | Seen_eq | Seen_quote
  | Opened.

Definition restart (c : ascii) : progress :=
  if Ascii.eqb c "s" then Seen_s else if Ascii.eqb c "h" then Seen_h else Nothing.

Definition scan_step (st : progress) (c : ascii) : progress :=
  match st with
  | Opened => Opened
  | Seen_quote => if Ascii.eqb c "/" then Opened else restart c
  | Seen_eq => if is_quote c then Seen_quote else restart c
  | Seen_src | Seen_href => if Ascii.eqb c "=" then Seen_eq else restart c
  | Seen_s => if Ascii.eqb c "r" then Seen_sr else restart c
  | Seen_sr => if Ascii.eqb c "c" then Seen_src else restart c
  | Seen_h => if Ascii.eqb c "r" then Seen_hr else restart c
  | Seen_hr => if Ascii.eqb c "e" then Seen_hre else restart c
  | Seen_hre => if Ascii.eqb c "f" then Seen_href else restart c
  | Nothing => restart c
  end.

Fixpoint scan (st : progress) (s : string) : progress :=
  match s with
  | "" => st
  | String c r => scan (scan_step st c) r
  end.

Definition opening_free (s : string) : bool :=
  match scan Nothing s with
  | Opened => false
  | _ => true
  end.

Definition ends_with (suffix s : string) : Prop := exists l, s = l +:+ suffix.

(** What a state of the scan says about the text read so far. *)
Definition progress_of (st : progress) (s : string) : Prop :=
  match st with
  | Nothing => True
  | Seen_s => ends_with "s" s
  | Seen_sr => ends_with "sr" s
  | Seen_src => ends_with "src" s
  | Seen_h => ends_with "h" s
  | Seen_hr => ends_with "hr" s
  | Seen_hre => ends_with "hre" s
  | Seen_href => ends_with "href" s
  | Seen_eq => ends_with "src=" s \/ ends_with "href=" s
  | Seen_quote =>
      exists q, is_quote q = true
                /\ (ends_with ("src=" +:+ String q "") s
                    \/ ends_with ("href=" +:+ String q "") s)
  | Opened => has_opening s
  end.

(** ** Head tags *)

(** What the first pattern matches: an opening angle bracket, the letters
    h, e, a, d in either case, any characters other than a closing angle
    bracket, and a closing angle bracket. *)
Definition head_tag (tag : string) : Prop :=
  exists c1 c2 c3 c4 attrs,
    tag = String "<" (String c1 (String c2 (String c3 (String c4 (attrs +:+ ">")))))
    /\ ci_eqb c1 "h" "H" = true /\ ci_eqb c2 "e" "E" = true
    /\ ci_eqb c3 "a" "A" = true /\ ci_eqb c4 "d" "D" = true
    /\ no_gt attrs = true.

(** [tag] is the leftmost head tag of [pre +:+ tag +:+ post]. *)
Definition leftmost_head (pre tag post : string) : Prop :=
  head_tag tag
  /\ forall p t r,
       pre +:+ tag +:+ post = p +:+ t +:+ r -> head_tag t ->
       String.length pre <= String.length p.

(** [s] holds no head tag at all. *)
Definition headless (s : string) : Prop :=
  forall p t r, s = p +:+ t +:+ r -> ~ head_tag t.

(** ** The injected fragment, cut at its two ports *)

Definition fragment_head : string :=
  nl +:+ "    " +:+ "<script>" +:+ nl +:+
  "      window.showViteError = function(e) {" +:+ nl +:+
  "        const currentUrl = encodeURIComponent(window.location.href);" +:+ nl +:+
  "        window.location.href = './error.html?port=".

Definition fragment_middle : string :=
  "&target=' + currentUrl;" +:+ nl +:+
  "      };" +:+ nl +:+
  "    </script>" +:+ nl +:+
  "    <script type=" +:+ dq +:+ "module" +:+ dq +:+
  " src=" +:+ dq +:+ "http://localhost:".

Definition fragment_tail : string :=
  "/@vite/client" +:+ dq +:+
  " onerror=" +:+ dq +:+ "showViteError()" +:+ dq +:+ "></script>".

(** ** What the functions leave behind *)

(** The values a template literal prints without calling anything: all
    but the objects and the arrays. *)
Definition is_primitive (v : json) : bool :=
  match v with
  | JArr _ | JObj _ => false
  | _ => true
  end.

(** What the resolver returns, read off what is at the manifest's path. *)
Definition manifest_value (host : Host) (at_path : option node) : json :=
  match at_path with
  | Some (File text) =>
      match JSON_parse host text with
      | Some (JObj fields) =>
          match lookup_field "id" fields with
          | Some v => if truthy v then v else JStr ""
          | None => JStr ""
          end
      | _ => JStr ""
      end
  | _ => JStr ""
  end.

(** The entrypoint's destination, its directory and the file system after
    a write of [html]. *)
Definition written (fs : gmap string node) (out : string) (html : string)
  : gmap string node :=
  <[out := File html]>
    (foldr (fun a fs => <[a := Dir]> fs) fs (ancestors (path_dirname out))).

(** The warning of an entrypoint without its source. *)
Definition source_not_found host config (entry : Entrypoint) : logline :=
  Warn ("[bks] Source HTML not found: " +:+ resolve host [root config; input entry]).

(** ** Provisioning, as changes of the file system *)

(** What a step of provisioning that returns has done to the file
    system: the directory made, and a copy. *)
Definition made (d : string) (fs fs' : gmap string node) : Prop :=
  (lookup_node fs d <> None /\ fs' = fs)
  \/ (lookup_node fs d = None
      /\ (forall a, a ∈ ancestors d -> is_file fs a = false)
      /\ fs' = foldr (fun a fs => <[a := Dir]> fs) fs (ancestors d)).

Definition copied (src dst : string) (fs fs' : gmap string node) : Prop :=
  (lookup_node fs src = None /\ fs' = fs)
  \/ exists c,
       lookup_node fs src = Some (File c)
       /\ lookup_node fs dst <> Some Dir
       /\ lookup_node fs (path_dirname dst) = Some Dir
       /\ fs' = <[dst := File c]> fs.

(** A copy that throws: the source is there, and it is a directory, or
    the destination is one, or the destination's directory is none. *)
Definition copy_fails (src dst : string) (fs : gmap string node) (e : exn) : Prop :=
  exists code,
    e = CopyError code src dst
    /\ (lookup_node fs src = Some Dir
        \/ exists c,
             lookup_node fs src = Some (File c)
             /\ (lookup_node fs dst = Some Dir
                 \/ lookup_node fs (path_dirname dst) <> Some Dir)).

(** One output directory provisioned: the directory made where it was
    missing, then the event forwarder and the error page copied, each
    skipped where its source is missing. *)
Definition provisioned (host : Host) (config : ResolvedConfig) (d : string)
    (fs fs' : gmap string node) : Prop :=
  exists fa fb,
    made d fs fa
    /\ copied (eventForwarderSrc host config) (resolve host [d; "eventForwarder.js"]) fa fb
    /\ copied (errorPageSrc host) (resolve host [d; "error.html"]) fb fs'.

(** One output directory whose provisioning throws [e] and leaves [fs']:
    at the mkdir, at the first copy or at the second. *)
Definition provision_failed (host : Host) (config : ResolvedConfig) (d : string)
    (fs fs' : gmap string node) (e : exn) : Prop :=
  (lookup_node fs d = None /\ fs' = fs
   /\ (exists a, a ∈ ancestors d /\ is_file fs a = true)
   /\ exists code, e = FsError code d)
  \/ (made d fs fs'
      /\ copy_fails (eventForwarderSrc host config)
           (resolve host [d; "eventForwarder.js"]) fs' e)
  \/ (exists fa,
        made d fs fa
        /\ copied (eventForwarderSrc host config)
             (resolve host [d; "eventForwarder.js"]) fa fs'
        /\ copy_fails (errorPageSrc host) (resolve host [d; "error.html"]) fs' e).

(** A path keeps what it holds. *)
Definition keeps (fs fs' : gmap string node) (p : string) : Prop :=
  forall n, lookup_node fs p = Some n -> lookup_node fs' p = Some n.

(** A normalised absolute path. *)
Definition normalised (p : string) : Prop :=
  exists segs, Forall clean_segment segs /\ p = join_absolute segs.

(** One of the two files copyDevFiles installs: its source and its name
    in an output directory. *)
Definition installed_file (host : Host) (config : ResolvedConfig)
    (src name : string) : Prop :=
  (src = eventForwarderSrc host config /\ name = "eventForwarder.js")
  \/ (src = errorPageSrc host /\ name = "error.html").

(** ** Entrypoints that can be written together *)

(** The transform of [text] for [port], with the identity the file system
    [fs] gives. *)
Definition transform_of (host : Host) (config : ResolvedConfig)
    (fs : gmap string node) (port : N) (text : string) : string :=
  rewriteUrls port
    (replace_head text
       (head_template port
          (manifest_value host
             (lookup_node fs (resolve host [root config; "manifest.json"]))))).

(** The entrypoints can be written one after the other: each source is
    a regular file with the text [texts] gives, no regular file stands
    where a directory of a destination has to be, and no destination is a
    directory. *)
Definition writable (host : Host) (config : ResolvedConfig)
    (entries : list Entrypoint) (texts : Entrypoint -> string)
    (fs : gmap string node) : Prop :=
  forall e, e ∈ entries ->
    lookup_node fs (resolve host [root config; input e]) = Some (File (texts e))
    /\ (forall a, a ∈ ancestors (path_dirname (resolve host [root config; output e])) ->
                  is_file fs a = false)
    /\ lookup_node fs (resolve host [root config; output e]) <> Some Dir.

(** No destination is a source, the manifest, or a directory on the way
    to a destination. *)
Definition apart (host : Host) (config : ResolvedConfig)
    (entries : list Entrypoint) : Prop :=
  forall e e', e ∈ entries -> e' ∈ entries ->
    resolve host [root config; output e] <> resolve host [root config; input e']
    /\ resolve host [root config; output e] <> resolve host [root config; "manifest.json"]
    /\ resolve host [root config; output e]
       ∉ ancestors (path_dirname (resolve host [root config; output e'])).

(** * Properties *)

(** ** The manifest resolver *)

Lemma js_or_empty (v : json) :
  js_or v (JStr "") = JStr "" \/ truthy (js_or v (JStr "")) = true.
Proof. unfold js_or. destruct (truthy v) eqn:E; auto. Qed.

Ltac unfold_manifest :=
  unfold getManifestId, getManifestId_try, bind, try_catch, existsSync, readFileSync,
    parse_json, get_id, console_warn_error, manifest_warned, ret, throw.

(** Whatever the world, the resolver returns, the file system is as it
    was, and the value is the empty string or truthy. *)
Lemma getManifestId_returns host config (w : World) :
  exists v w', getManifestId host config w = (Normal v, w')
    /\ files w' = files w
    /\ (v = JStr "" \/ truthy v = true).
Proof.
  unfold_manifest.
  destruct (bool_decide _); [|eauto 10].
  destruct (lookup_node (files w) _) as [[text|]|]; simpl; [|eauto 10..].
  destruct (JSON_parse host text) as [[]|]; simpl; eauto 10 using js_or_empty.
Qed.

Lemma exists_of_lookup (fs : gmap string node) (p : string) (n : node) :
  lookup_node fs p = Some n -> bool_decide (is_Some (lookup_node fs p)) = true.
Proof. intros ->. apply bool_decide_eq_true. eauto. Qed.

Lemma not_exists_of_lookup (fs : gmap string node) (p : string) :
  lookup_node fs p = None -> bool_decide (is_Some (lookup_node fs p)) = false.
Proof. intros ->. apply bool_decide_eq_false. intros [? ?]. discriminate. Qed.

(** C6. getManifestId never signals failure and leaves the file system
    alone.  It returns the empty string when manifest.json is absent, when
    it cannot be read, when it holds invalid JSON, when the parsed value is
    null or no object at all, when the parsed object has no id field and
    when the id is falsy; it returns the id when the parsed object has a
    truthy one.  A read or parse failure is logged as a warning and goes no
    further. *)
Theorem getManifestId_contract (host : Host) (config : ResolvedConfig) (w : World) :
  let p := resolve host [root config; "manifest.json"] in
  (exists v w', getManifestId host config w = (Normal v, w') /\ files w' = files w)
  /\ (lookup_node (files w) p = None ->
      getManifestId host config w = (Normal (JStr ""), w))
  /\ (lookup_node (files w) p = Some Dir ->
      getManifestId host config w
      = (Normal (JStr ""), manifest_warned w (FsError "EISDIR" p)))
  /\ (forall text,
        lookup_node (files w) p = Some (File text) ->
        JSON_parse host text = None ->
        getManifestId host config w = (Normal (JStr ""), manifest_warned w SyntaxError))
  /\ (forall text,
        lookup_node (files w) p = Some (File text) ->
        JSON_parse host text = Some JNull ->
        getManifestId host config w = (Normal (JStr ""), manifest_warned w TypeError))
  /\ (forall text v,
        lookup_node (files w) p = Some (File text) ->
        JSON_parse host text = Some v ->
        v <> JNull -> (forall fields, v <> JObj fields) ->
        getManifestId host config w = (Normal (JStr ""), w))
  /\ (forall text fields,
        lookup_node (files w) p = Some (File text) ->
        JSON_parse host text = Some (JObj fields) ->
        lookup_field "id" fields = None ->
        getManifestId host config w = (Normal (JStr ""), w))
  /\ (forall text fields v,
        lookup_node (files w) p = Some (File text) ->
        JSON_parse host text = Some (JObj fields) ->
        lookup_field "id" fields = Some v ->
        getManifestId host config w
        = (Normal (if truthy v then v else JStr ""), w)).
Proof.
  intros p. split.
  { destruct (getManifestId_returns host config w) as (v & w' & E & F & _). eauto. }
  repeat split.
  - intros H. unfold_manifest. fold p. by rewrite (not_exists_of_lookup _ _ H).
  - intros H. unfold_manifest. fold p. by rewrite (exists_of_lookup _ _ _ H), H.
  - intros text H P. unfold_manifest. fold p.
    by rewrite (exists_of_lookup _ _ _ H), H, P.
  - intros text H P. unfold_manifest. fold p.
    by rewrite (exists_of_lookup _ _ _ H), H, P.
  - intros text v H P Hnull Hobj. unfold_manifest. fold p.
    rewrite (exists_of_lookup _ _ _ H), H, P.
    destruct v; try done. by destruct (Hobj fields).
  - intros text fields H P L. unfold_manifest. fold p.
    by rewrite (exists_of_lookup _ _ _ H), H, P, L.
  - intros text fields v H P L. unfold_manifest. fold p.
    by rewrite (exists_of_lookup _ _ _ H), H, P, L.
Qed.

(** The manifest of the example project resolves to its id. *)
Lemma getManifestId_contract_witness :
  getManifestId Demo.node_host Demo.config Demo.world
  = (Normal (JStr "abc123"), Demo.world).
Proof.
  pose proof (getManifestId_contract Demo.node_host Demo.config Demo.world)
    as (_ & _ & _ & _ & _ & _ & _ & H).
  apply (H Demo.manifest_json [("id", JStr "abc123")] (JStr "abc123"));
    vm_compute; reflexivity.
Defined.

(** The same fact, for the examples below. *)
Lemma demo_manifest_id :
  getManifestId Demo.node_host Demo.config Demo.world
  = (Normal (JStr "abc123"), Demo.world).
Proof. vm_compute. reflexivity. Qed.

(** ** The middlewares *)

Lemma starts_with_nonempty (p s : string) :
  p <> "" -> starts_with p s = true -> String.eqb s "" = false.
Proof.
  destruct s; [|reflexivity]. destruct p; [congruence|]. discriminate.
Qed.

(** C2. The origin guard answers 403 with no header and an empty body,
    and ends the request, exactly when the request has an Origin header
    that starts with plugin://, the resolved identity is not the empty
    string, and the origin is not plugin:// followed by the identity; in
    every other case it calls next.  It never throws and never writes a
    file. *)
Theorem origin_guard_contract (host : Host) (config : ResolvedConfig)
    (req : Request) (w : World) :
  exists id w0,
    getManifestId host config w = (Normal id, w0)
    /\ let rejects :=
         exists o, origin req = Some o
                   /\ starts_with "plugin://" o = true
                   /\ id <> JStr ""
                   /\ o <> "plugin://" +:+ to_js_string id in
       (rejects <->
        (origin_guard host config req w).1 = Normal (Ended (mkResponse 403 [] "")))
       /\ (~ rejects -> (origin_guard host config req w).1 = Normal Next)
       /\ files (origin_guard host config req w).2 = files w.
Proof.
  destruct (getManifestId_returns host config w) as (id & w0 & E & F & T).
  exists id, w0. split; [done|]. intros rejects.
  assert (N : id <> JStr "" <-> truthy id = true).
  { split; [intros ?; by destruct T|intros Ht ->; discriminate]. }
  unfold origin_guard, bind, ret. subst rejects.
  destruct (origin req) as [o|]; simpl.
  2:{ repeat split; try done. by intros (o & ? & _). }
  destruct (starts_with "plugin://" o) eqn:S.
  2:{ rewrite andb_false_r. simpl. repeat split; try done.
      intros (o' & [= <-] & S' & _). congruence. }
  rewrite (starts_with_nonempty "plugin://" o) by done. simpl. rewrite E.
  destruct (truthy id) eqn:Ht; simpl.
  2:{ repeat split; try done.
      intros (o' & _ & _ & Hn & _). apply N in Hn. discriminate. }
  destruct (String.eqb_spec o ("plugin://" +:+ to_js_string id)) as [->|Hne]; simpl.
  - repeat split; try done. intros (o' & [= <-] & _ & _ & Hn). done.
  - repeat split; try done.
    + intros _. exists o. repeat split; try done. by apply N.
    + intros Hr. destruct Hr. exists o. repeat split; try done. by apply N.
Qed.

(** Identity abc123, Origin plugin://other: rejected. *)
Lemma origin_guard_contract_witness :
  (origin_guard Demo.node_host Demo.config
     (mkRequest "/src/main.ts" (Some "plugin://other")) Demo.world).1
  = Normal (Ended (mkResponse 403 [] "")).
Proof.
  destruct (origin_guard_contract Demo.node_host Demo.config
              (mkRequest "/src/main.ts" (Some "plugin://other")) Demo.world)
    as (id & w0 & E & R & _).
  apply R. exists "plugin://other".
  rewrite demo_manifest_id in E. injection E as <- <-.
  repeat split; vm_compute; discriminate.
Defined.

(** C7, as the code has it.  The identity endpoint compares the whole
    request URL, the path together with the query string.  It answers a
    request whose url is exactly /__bks_vite_plugin__info with status 200,
    the JSON content type, the header Access-Control-Allow-Origin: * and
    the body JSON.stringify({manifestId: identity}), and ends the request;
    it hands every other request to the next middleware, untouched, and so
    a request for that path with a query string after it. *)
Theorem info_endpoint_contract (host : Host) (config : ResolvedConfig)
    (req : Request) (w : World) :
  exists id w0,
    getManifestId host config w = (Normal id, w0)
    /\ (url req = "/__bks_vite_plugin__info" ->
        info_endpoint host config req w
        = (Normal (Ended (mkResponse 200
                            [("Content-Type", "application/json");
                             ("Access-Control-Allow-Origin", "*")]
                            (JSON_stringify host (JObj [("manifestId", id)])))),
           w0))
    /\ (url req <> "/__bks_vite_plugin__info" ->
        info_endpoint host config req w = (Normal Next, w))
    /\ (forall query,
          url req = "/__bks_vite_plugin__info" +:+ "?" +:+ query ->
          url_path (url req) = "/__bks_vite_plugin__info"
          /\ info_endpoint host config req w = (Normal Next, w)).
Proof.
  destruct (getManifestId_returns host config w) as (id & w0 & E & _).
  exists id, w0. split; [done|]. unfold info_endpoint, info_path, bind, ret.
  split; [|split].
  - intros ->. simpl. by rewrite E.
  - intros Hne. destruct (String.eqb_spec (url req) "/__bks_vite_plugin__info"); done.
  - intros query ->. split; [vm_compute; reflexivity|].
    assert (Hne : String.eqb ("/__bks_vite_plugin__info" +:+ "?" +:+ query)
                    "/__bks_vite_plugin__info" = false)
      by (vm_compute; reflexivity).
    by rewrite Hne.
Qed.

(** C7, refuted as stated: the path of this request is exactly the
    endpoint's, and the endpoint hands it on. *)
Lemma info_endpoint_passes_query :
  let req := mkRequest "/__bks_vite_plugin__info?x=1" None in
  url_path (url req) = "/__bks_vite_plugin__info"
  /\ info_endpoint Demo.node_host Demo.config req Demo.world = (Normal Next, Demo.world).
Proof. split; vm_compute; reflexivity. Qed.

Lemma info_endpoint_contract_witness :
  info_endpoint Demo.node_host Demo.config
    (mkRequest "/__bks_vite_plugin__info" None) Demo.world
  = (Normal (Ended (mkResponse 200
                      [("Content-Type", "application/json");
                       ("Access-Control-Allow-Origin", "*")]
                      (Demo.stringify (JObj [("manifestId", JStr "abc123")])))),
     Demo.world).
Proof.
  destruct (info_endpoint_contract Demo.node_host Demo.config
              (mkRequest "/__bks_vite_plugin__info" None) Demo.world)
    as (id & w0 & E & R & _).
  rewrite demo_manifest_id in E. injection E as <- <-.
  apply R. reflexivity.
Defined.

Lemma watchFiles_fields host config options (server : ViteDevServer) (st : PluginState) :
  let st' := watchFiles host config options server st in
  portFromServer st' = portFromServer st
  /\ middlewares st' = middlewares st
  /\ listening_once st' = listening_once st
  /\ change_handlers st'
     = (change_handlers st
        ++ map (fun entry =>
                  mkHandler entry (resolve host [root config; input entry])
                    (devPort_of (portFromServer st) (server_port (srv_config server))))
             (entrypoints options))%list.
Proof.
  unfold watchFiles.
  generalize (devPort_of (portFromServer st) (server_port (srv_config server))) as devPort.
  intros devPort. revert st.
  induction (entrypoints options) as [|entry rest IH]; intros st; simpl.
  - by rewrite app_nil_r.
  - destruct (IH (mkState (portFromServer st) (middlewares st) (listening_once st)
                    (watched st ++ [resolve host [root config; input entry]])
                    (change_handlers st
                     ++ [mkHandler entry (resolve host [root config; input entry]) devPort])))
      as (P & Mw & L & C).
    simpl in *. rewrite P, Mw, L, C. by rewrite <- app_assoc.
Qed.

Lemma registered_middlewares host config options (server : ViteDevServer) :
  middlewares (register host config options server initial_state)
  = [InfoEndpoint; OriginGuard].
Proof.
  unfold register.
  by destruct (watchFiles_fields host config options server
                 (mkState None ([] ++ [InfoEndpoint; OriginGuard])
                    (false || httpServer server) [] []))
    as (_ & Mw & _).
Qed.

(** C10. The chain configureServer installs is the identity endpoint,
    then the origin guard.  A request whose url is exactly
    /__bks_vite_plugin__info gets the endpoint's 200 answer whatever its
    Origin header is: the guard is never reached.  In the example project
    the origin plugin://other, which the guard rejects on /src/main.ts,
    reads the identity. *)
Theorem info_endpoint_is_not_guarded (host : Host) (config : ResolvedConfig)
    (options : Options) (server : ViteDevServer) (w : World) (o : option string) :
  let chain := middlewares (register host config options server initial_state) in
  chain = [InfoEndpoint; OriginGuard]
  /\ handle_request host config chain (mkRequest info_path o) w
     = info_endpoint host config (mkRequest info_path None) w
  /\ (exists id w0,
        getManifestId host config w = (Normal id, w0)
        /\ handle_request host config chain (mkRequest info_path o) w
           = (Normal (Ended (mkResponse 200
                               [("Content-Type", "application/json");
                                ("Access-Control-Allow-Origin", "*")]
                               (JSON_stringify host (JObj [("manifestId", id)])))),
              w0))
  /\ (let other := Some "plugin://other" in
      let demo_chain :=
        middlewares (register Demo.node_host Demo.config default_options
                       Demo.server initial_state) in
      (handle_request Demo.node_host Demo.config demo_chain
         (mkRequest "/src/main.ts" other) Demo.world).1
      = Normal (Ended (mkResponse 403 [] ""))
      /\ (handle_request Demo.node_host Demo.config demo_chain
            (mkRequest info_path other) Demo.world).1
         = Normal (Ended (mkResponse 200
                            [("Content-Type", "application/json");
                             ("Access-Control-Allow-Origin", "*")]
                            (Demo.stringify (JObj [("manifestId", JStr "abc123")]))))).
Proof.
  intros chain. subst chain. rewrite registered_middlewares.
  destruct (getManifestId_returns host config w) as (id & w0 & E & _).
  assert (H : handle_request host config [InfoEndpoint; OriginGuard]
                (mkRequest info_path o) w
              = (Normal (Ended (mkResponse 200
                               [("Content-Type", "application/json");
                                ("Access-Control-Allow-Origin", "*")]
                               (JSON_stringify host (JObj [("manifestId", id)])))),
                 w0)).
  { unfold handle_request, run_middleware, info_endpoint, bind, ret. simpl.
    by rewrite E. }
  split; [reflexivity|]. split.
  { rewrite H. unfold info_endpoint, bind, ret. simpl. by rewrite E. }
  split; [eauto|].
  rewrite registered_middlewares. split; vm_compute; reflexivity.
Qed.

(** ** The watcher and the captured port *)

(** The listening listener runs once: a second event changes nothing. *)
Lemma listening_fires_once (a1 a2 : address) (st : PluginState) :
  listening_state a2 (listening_state a1 st) = listening_state a1 st.
Proof. unfold listening_state. by destruct (listening_once st) eqn:E; simpl; rewrite ?E. Qed.

(** A captured port is a number other than zero, and it is what writeAll
    uses from then on. *)
Lemma writeAll_uses_captured_port host config options (server : ViteDevServer)
    (st : PluginState) (p : positive) :
  writeAll host config options server (capture_port (AddrInfo (Npos p)) st)
  = for_each (fun entry => writeEntrypoint host config entry (Npos p)) (entrypoints options).
Proof. reflexivity. Qed.

(** X5. The change listeners carry the port computed when they were
    registered; the listening event does not touch them. *)
Lemma change_handlers_keep_registration_port host config options
    (server : ViteDevServer) (addr : address) :
  change_handlers
    (listening_state addr (register host config options server initial_state))
  = map (fun entry =>
           mkHandler entry (resolve host [root config; input entry])
             (devPort_of None (server_port (srv_config server))))
      (entrypoints options).
Proof.
  unfold register.
  destruct (watchFiles_fields host config options server
              (mkState None ([] ++ [InfoEndpoint; OriginGuard])
                 (false || httpServer server) [] []))
    as (_ & _ & _ & C).
  simpl in C. rewrite <- C. unfold listening_state, capture_port.
  destruct (listening_once _); [|done]. by destruct addr as [| |[|p]].
Qed.

(** After the listening listener has run, a later listening event leaves
    the captured port as it is, and so does registering the watchers. *)
Theorem captured_port_is_stable (host : Host) (config : ResolvedConfig)
    (options : Options) (server : ViteDevServer) (st : PluginState)
    (addr addr' : address) :
  let st1 := listening_state addr st in
  listening_state addr' st1 = st1
  /\ portFromServer (watchFiles host config options server st1) = portFromServer st1.
Proof.
  intros st1. split; [apply listening_fires_once|].
  by destruct (watchFiles_fields host config options server st1) as (P & _).
Qed.

(** A change notification runs one write for each listener whose path is
    the resolved changed path, in registration order with the port each
    listener was registered with, and nothing for the other listeners. *)
Theorem emit_change_runs_matching (host : Host) (config : ResolvedConfig)
    (st : PluginState) (changed : string) (w : World) :
  emit_change host config st changed w
  = for_each (fun h => writeEntrypoint host config (h_entry h) (h_devPort h))
      (filter (fun h => h_absPath h = resolve host [changed]) (change_handlers st)) w.
Proof.
  unfold emit_change. revert w.
  induction (change_handlers st) as [|h hs IH]; intros w; [done|].
  simpl. unfold run_handler at 1.
  destruct (String.eqb_spec (resolve host [changed]) (h_absPath h)) as [E|E].
  - rewrite filter_cons_True by done. simpl. unfold bind.
    destruct (writeEntrypoint _ _ _ _ w) as [[[]|e] w1]; [apply IH|done].
  - rewrite filter_cons_False by done. unfold bind, ret. apply IH.
Qed.

(** C1, evaluated: the configured port is 5173, the server reports 5174
    when it starts listening.  The port is captured and the listening
    rewrite uses it, yet a later change of index.html is written with 5173:
    the entrypoint ends up pointing at the port the server is not on. *)
Theorem watcher_writes_with_startup_port :
  let host := Demo.browser_host in
  let entry := mkEntrypoint "index.html" "dist/index.html" in
  let st1 := register host Demo.config default_options Demo.server initial_state in
  let st2 := listening_state (AddrInfo 5174) st1 in
  let listened :=
    (emit_listening host Demo.config default_options Demo.server (AddrInfo 5174) st1
       Demo.world).2 in
  portFromServer st2 = Some 5174%N
  /\ emit_listening host Demo.config default_options Demo.server (AddrInfo 5174) st1
       Demo.world
     = (writeEntrypoint host Demo.config entry 5174 ;;; ret tt) Demo.world
  /\ emit_change host Demo.config st2 "/proj/index.html" listened
     = (writeEntrypoint host Demo.config entry 5173 ;;; ret tt) listened
  /\ files (emit_change host Demo.config st2 "/proj/index.html" listened).2
       !! "/proj/dist/index.html"
     = Some (File (rewriteUrls 5173
                     (replace_head Demo.index_html (head_template 5173 (JStr "abc123")))))
  /\ rewriteUrls 5173 (replace_head Demo.index_html (head_template 5173 (JStr "abc123")))
     <> rewriteUrls 5174 (replace_head Demo.index_html (head_template 5174 (JStr "abc123"))).
Proof.
  repeat apply conj; try (vm_compute; reflexivity).
  vm_compute. discriminate.
Qed.

(** ** Writing an entrypoint *)

(** X1. When the source of an entrypoint does not exist, writeEntrypoint
    logs a warning naming the resolved source path and does nothing else:
    no exception, and the file system is as it was. *)
Lemma writeEntrypoint_missing_source host config (entry : Entrypoint) (port : N) (w : World) :
  lookup_node (files w) (resolve host [root config; input entry]) = None ->
  writeEntrypoint host config entry port w
  = (Normal tt,
     mkWorld (files w)
       (console w
        ++ [Warn ("[bks] Source HTML not found: "
                  +:+ resolve host [root config; input entry])])).
Proof.
  intros H. unfold writeEntrypoint, bind, existsSync, console_warn.
  by rewrite (not_exists_of_lookup _ _ H).
Qed.

Lemma writeEntrypoint_missing_source_witness :
  writeEntrypoint Demo.node_host Demo.config
    (mkEntrypoint "missing.html" "dist/missing.html") 5173 Demo.world
  = (Normal tt,
     mkWorld (files Demo.world)
       (console Demo.world
        ++ [Warn ("[bks] Source HTML not found: "
                  +:+ resolve Demo.node_host [root Demo.config; "missing.html"])])).
Proof.
  apply (writeEntrypoint_missing_source Demo.node_host Demo.config
           (mkEntrypoint "missing.html" "dist/missing.html") 5173 Demo.world).
  vm_compute. reflexivity.
Defined.

(** C5, the failing path: on a host whose global scope has no window, an
    entrypoint whose source exists is never written.  The transform throws
    a ReferenceError before the destination is touched, and writeEntrypoint
    lets it through. *)
Theorem writeEntrypoint_throws_without_window (host : Host) (config : ResolvedConfig)
    (entry : Entrypoint) (port : N) (w : World) (text : string) :
  global_window host = None ->
  lookup_node (files w) (resolve host [root config; input entry]) = Some (File text) ->
  exists w',
    writeEntrypoint host config entry port w = (Throw (ReferenceError "window"), w')
    /\ files w' = files w.
Proof.
  intros Hw Hsrc.
  destruct (getManifestId_returns host config w) as (id & w0 & E & F & _).
  exists w0. split; [|done].
  unfold writeEntrypoint, bind, existsSync, readFileSync.
  rewrite (exists_of_lookup _ _ _ Hsrc). simpl. rewrite Hsrc.
  unfold injectDevClient, bind, window_href, throw. by rewrite E, Hw.
Qed.

Lemma writeEntrypoint_throws_without_window_witness :
  exists w',
    writeEntrypoint Demo.node_host Demo.config
      (mkEntrypoint "index.html" "dist/index.html") 5173 Demo.world
    = (Throw (ReferenceError "window"), w')
    /\ files w' = files Demo.world.
Proof.
  apply (writeEntrypoint_throws_without_window Demo.node_host Demo.config
           (mkEntrypoint "index.html" "dist/index.html") 5173 Demo.world Demo.index_html);
    vm_compute; reflexivity.
Defined.

(** With a window in scope the same call writes the file and logs. *)
Example writeEntrypoint_with_window :
  let r := writeEntrypoint Demo.browser_host Demo.config
             (mkEntrypoint "index.html" "dist/index.html") 3000 Demo.world in
  r.1 = Normal tt
  /\ files r.2 !! "/proj/dist" = Some Dir
  /\ files r.2 !! "/proj/dist/index.html"
     = Some (File (rewriteUrls 3000
                     (replace_head Demo.index_html (head_template 3000 (JStr "abc123")))))
  /\ console r.2 = [Log (transformed_message (mkEntrypoint "index.html" "dist/index.html"))].
Proof. repeat apply conj; vm_compute; reflexivity. Qed.

(** ** Strings *)

Lemma app_cons (c : ascii) (s t : string) : String c s +:+ t = String c (s +:+ t).
Proof. reflexivity. Qed.

Lemma app_empty_l (s : string) : "" +:+ s = s.
Proof. reflexivity. Qed.

Lemma app_empty_r (s : string) : s +:+ "" = s.
Proof. induction s as [|c s IH]; [done|]. by rewrite app_cons, IH. Qed.

Lemma app_assoc_s (a b c : string) : a +:+ (b +:+ c) = (a +:+ b) +:+ c.
Proof. induction a as [|x a IH]; [done|]. by rewrite !app_cons, IH. Qed.

Lemma length_app_s (a b : string) :
  String.length (a +:+ b) = String.length a + String.length b.
Proof. induction a as [|x a IH]; [done|]. rewrite app_cons. simpl. by rewrite IH. Qed.

(** Two ways to cut one string: one cut is inside the other's left part. *)
Lemma app_eq_app_s (a b c d : string) :
  a +:+ b = c +:+ d ->
  (exists m, a = c +:+ m /\ d = m +:+ b)
  \/ (exists m, m <> "" /\ c = a +:+ m /\ b = m +:+ d).
Proof.
  revert c. induction a as [|x a IH]; intros c H.
  - rewrite app_empty_l in H. destruct c as [|y c].
    + left. exists "". by rewrite app_empty_l in *.
    + right. exists (String y c). by rewrite !app_empty_l.
  - destruct c as [|y c].
    + left. exists (String x a). by rewrite app_empty_l in *.
    + rewrite !app_cons in H. injection H as -> H.
      destruct (IH c H) as [(m & -> & ->)|(m & Hm & -> & ->)].
      * left. exists m. by rewrite app_cons.
      * right. exists m. by rewrite app_cons.
Qed.

Lemma string_forall_app (P : ascii -> bool) (a b : string) :
  string_forall P (a +:+ b) = string_forall P a && string_forall P b.
Proof.
  induction a as [|x a IH]; [done|]. rewrite app_cons. simpl.
  by rewrite IH, andb_assoc.
Qed.

Lemma string_forall_impl (P Q : ascii -> bool) (s : string) :
  (forall c, P c = true -> Q c = true) ->
  string_forall P s = true -> string_forall Q s = true.
Proof.
  intros PQ. induction s as [|c s IH]; [done|]. simpl.
  intros [Hc Hs]%andb_true_iff. by rewrite (PQ c Hc), (IH Hs).
Qed.

Lemma pretty_N_char_digit (x : N) : is_digit (pretty_N_char x) = true.
Proof. unfold pretty_N_char. by repeat case_match. Qed.

Lemma pretty_N_go_digits (x : N) (s : string) :
  string_forall is_digit s = true -> string_forall is_digit (pretty_N_go x s) = true.
Proof.
  revert s. induction (N.lt_wf_0 x) as [x _ IH]; intros s Hs.
  destruct (decide (x = 0%N)) as [->|Hx]; [by rewrite pretty_N_go_0|].
  rewrite pretty_N_go_step by lia. apply IH.
  - apply N.div_lt; lia.
  - simpl. by rewrite pretty_N_char_digit, Hs.
Qed.

Lemma pretty_N_digits (x : N) : string_forall is_digit (pretty x) = true.
Proof.
  unfold pretty, pretty_N. case_decide; [done|]. by apply pretty_N_go_digits.
Qed.

(** ** Paths *)

Lemma split_on_no_slash (s : string) : Forall (fun x => no_slash x = true) (split_on "/" s).
Proof.
  induction s as [|c s IH]; simpl; [by repeat constructor|].
  destruct (Ascii.eqb_spec c "/") as [->|Hc].
  - by constructor.
  - assert (Hn : negb (Ascii.eqb c "/") = true) by (by destruct (Ascii.eqb_spec c "/")).
    destruct (split_on "/" s) as [|h t].
    + constructor; [|constructor]. unfold no_slash. simpl. by rewrite Hn.
    + inversion IH as [|? ? Hh Ht]; subst. constructor; [|done].
      unfold no_slash in *. simpl. by rewrite Hh, Hn.
Qed.

Lemma normalize_step_clean (stack : list string) (seg : string) :
  no_slash seg = true -> Forall clean_segment stack ->
  Forall clean_segment (normalize_step stack seg).
Proof.
  intros Hs Hst. unfold normalize_step.
  destruct (String.eqb_spec seg "") as [->|H1]; [done|].
  destruct (String.eqb_spec seg ".") as [->|H2]; [done|]. simpl.
  destruct (String.eqb_spec seg "..") as [->|H3].
  - destruct stack; [done|]. by inversion Hst.
  - constructor; [|done]. by repeat split.
Qed.

Lemma normalize_fold_clean (segs stack : list string) :
  Forall (fun x => no_slash x = true) segs -> Forall clean_segment stack ->
  Forall clean_segment (fold_left normalize_step segs stack).
Proof.
  revert stack. induction segs as [|seg segs IH]; intros stack Hs Hst; [done|].
  inversion Hs; subst. simpl. apply IH; [done|]. by apply normalize_step_clean.
Qed.

(** The segments of any path are clean. *)
Lemma segments_clean (p : string) : Forall clean_segment (segments p).
Proof.
  unfold segments, normalize_segments. apply Forall_rev.
  apply normalize_fold_clean; [apply split_on_no_slash|constructor].
Qed.

Lemma normalize_fold_of_clean (segs stack : list string) :
  Forall clean_segment segs ->
  fold_left normalize_step segs stack = (rev segs ++ stack)%list.
Proof.
  revert stack. induction segs as [|seg segs IH]; intros stack Hs; [done|].
  inversion Hs as [|? ? (_ & H1 & H2 & H3) Hr]; subst. simpl.
  rewrite IH by done. rewrite <- app_assoc. simpl. f_equal.
  unfold normalize_step.
  destruct (String.eqb_spec seg ""); [done|].
  destruct (String.eqb_spec seg "."); [done|]. simpl.
  by destruct (String.eqb_spec seg "..").
Qed.

Lemma split_on_cons (s : string) :
  split_on "/" s = hd "" (split_on "/" s) :: tl (split_on "/" s).
Proof.
  destruct s as [|c s]; [done|]. simpl.
  destruct (Ascii.eqb c "/"); [done|]. by destruct (split_on "/" s).
Qed.

Lemma split_on_prepend (seg t : string) :
  no_slash seg = true ->
  split_on "/" (seg +:+ t)
  = (seg +:+ hd "" (split_on "/" t)) :: tl (split_on "/" t).
Proof.
  intros H. induction seg as [|c seg IH].
  - rewrite !app_empty_l. apply split_on_cons.
  - apply andb_true_iff in H as [Hc H]. apply negb_true_iff in Hc.
    rewrite app_cons. simpl. by rewrite Hc, (IH H).
Qed.

Lemma split_on_joined (segs : list string) :
  Forall clean_segment segs -> segs <> [] ->
  split_on "/" (concat_strings (map (fun seg => "/" +:+ seg) segs)) = "" :: segs.
Proof.
  induction segs as [|seg segs IH]; intros Hs Hne; [done|].
  inversion Hs as [|? ? (Hn & _) Hr]; subst. simpl. rewrite app_empty_l. f_equal.
  rewrite split_on_prepend by done.
  destruct segs as [|seg' segs].
  - simpl. by rewrite app_empty_r.
  - rewrite IH by done. simpl. by rewrite app_empty_r.
Qed.

(** Normalising a normalised path gives it back. *)
Lemma segments_join (segs : list string) :
  Forall clean_segment segs -> segments (join_absolute segs) = segs.
Proof.
  intros Hs. unfold segments, normalize_segments, join_absolute.
  destruct segs as [|seg segs]; [done|].
  rewrite split_on_joined by done.
  change (fold_left normalize_step ("" :: seg :: segs) [])
    with (fold_left normalize_step (seg :: segs) []).
  rewrite (normalize_fold_of_clean (seg :: segs)) by done.
  by rewrite app_nil_r, rev_involutive.
Qed.

Lemma prefixes_from_last (base : string) (segs : list string) :
  segs <> [] ->
  base +:+ concat_strings (map (fun seg => "/" +:+ seg) segs) ∈ prefixes_from base segs.
Proof.
  revert base. induction segs as [|seg segs IH]; intros base Hne; [done|].
  simpl. destruct segs as [|seg' segs].
  - simpl. rewrite app_empty_r. left.
  - right. specialize (IH (base +:+ "/" +:+ seg) ltac:(done)).
    rewrite !app_assoc_s in *. exact IH.
Qed.

(** A resolved path is the root or its own last ancestor. *)
Lemma resolved_in_ancestors (cwd : string) (args : list string) :
  let d := path_resolve cwd args in
  d = "/" \/ d ∈ ancestors d.
Proof.
  intros d. unfold d, path_resolve, ancestors.
  set (segs := segments _). pose proof (segments_clean (resolve_from (rev args ++ [cwd]) ""))
    as Hc. fold segs in Hc.
  rewrite (segments_join segs Hc).
  destruct segs as [|seg segs]; [by left|]. right.
  unfold join_absolute.
  pose proof (prefixes_from_last "" (seg :: segs) ltac:(done)) as H.
  by rewrite app_empty_l in H.
Qed.

(** After a recursive mkdir that returns, every ancestor is a directory,
    and nothing else has changed. *)
Lemma mkdir_inserts (l : list string) (fs : gmap string node) (a : string) :
  foldr (fun a fs => <[a := Dir]> fs) fs l !! a
  = if bool_decide (a ∈ l) then Some Dir else fs !! a.
Proof.
  induction l as [|x l IH]; simpl; [done|].
  destruct (decide (x = a)) as [->|Hne].
  - rewrite lookup_insert_eq. rewrite bool_decide_eq_true_2; [done|left].
  - rewrite lookup_insert_ne by done. rewrite IH.
    destruct (bool_decide_reflect (a ∈ l)) as [Hin|Hin].
    + rewrite bool_decide_eq_true_2; [done|by right].
    + rewrite bool_decide_eq_false_2; [done|].
      intros [->|?]%elem_of_cons; done.
Qed.

Lemma mkdirSync_recursive_returns (p : string) (w w' : World) :
  mkdirSync_recursive p w = (Normal tt, w') ->
  console w' = console w
  /\ forall a, files w' !! a = if bool_decide (a ∈ ancestors p) then Some Dir else files w !! a.
Proof.
  unfold mkdirSync_recursive. destruct (find _ _); [done|].
  intros [= <-]. split; [done|]. intros a. apply mkdir_inserts.
Qed.

Lemma mkdirSync_recursive_throws (p : string) (w w' : World) (e : exn) :
  mkdirSync_recursive p w = (Throw e, w') ->
  w' = w /\ exists a, a ∈ ancestors p /\ is_file (files w) a = true.
Proof.
  unfold mkdirSync_recursive. destruct (find _ _) as [a|] eqn:E; [|done].
  intros [= _ <-]. split; [done|]. exists a.
  apply find_some in E as [Hin Hf]. split; [by apply list_elem_of_In|done].
Qed.

(** Creating a missing resolved directory: either it is a directory
    afterwards and the console is as it was, or an ancestor is a regular
    file, the call throws and nothing has changed. *)
Lemma mkdir_resolved (cwd : string) (args : list string) (w : World) :
  let d := path_resolve cwd args in
  (exists w', mkdirSync_recursive d w = (Normal tt, w')
              /\ lookup_node (files w') d = Some Dir
              /\ console w' = console w)
  \/ (exists e, mkdirSync_recursive d w = (Throw e, w)
                /\ exists a, a ∈ ancestors d /\ is_file (files w) a = true).
Proof.
  intros d. destruct (mkdirSync_recursive d w) as [[[]|e] w'] eqn:E.
  - left. exists w'. split; [done|].
    apply mkdirSync_recursive_returns in E as [Hc Hf]. split; [|done].
    unfold lookup_node. destruct (String.eqb_spec d "/"); [done|]. rewrite Hf.
    destruct (resolved_in_ancestors cwd args) as [?|Hin]; [done|].
    by rewrite bool_decide_eq_true_2.
  - right. apply mkdirSync_recursive_throws in E as [-> H]. eauto.
Qed.

(** ** Provisioning *)

Lemma for_each_app {A} (f : A -> M unit) (l1 l2 : list A) (w : World) :
  for_each f (l1 ++ l2) w
  = match for_each f l1 w with
    | (Normal _, w1) => for_each f l2 w1
    | (Throw e, w1) => (Throw e, w1)
    end.
Proof.
  revert w. induction l1 as [|x l1 IH]; intros w; simpl; [done|].
  unfold bind. destruct (f x w) as [[[]|e] w1]; [apply IH|done].
Qed.

(** A loop that fails at one element does nothing for the later ones. *)
Lemma for_each_stops {A} (f : A -> M unit) (l1 l2 : list A) (x : A)
    (w w1 w2 : World) (e : exn) :
  for_each f l1 w = (Normal tt, w1) ->
  f x w1 = (Throw e, w2) ->
  for_each f (l1 ++ x :: l2) w = (Throw e, w2).
Proof.
  intros H1 H2. rewrite for_each_app, H1. simpl. unfold bind. by rewrite H2.
Qed.

Lemma add_dirs_spec host config (entries : list Entrypoint) (dirs : list string) :
  NoDup dirs ->
  NoDup (fold_left (add_dir host config) entries dirs)
  /\ forall d, d ∈ fold_left (add_dir host config) entries dirs
               <-> d ∈ dirs
                   \/ exists entry, entry ∈ entries /\ d = output_dir host config entry.
Proof.
  revert dirs. induction entries as [|entry rest IH]; intros dirs ND; simpl.
  { split; [done|]. intros d. split; [auto|]. intros [?|(e & He & _)]; [done|].
    by apply elem_of_nil in He. }
  assert (ND' : NoDup (add_dir host config dirs entry)).
  { unfold add_dir. case_bool_decide; [done|].
    apply NoDup_app. repeat split; [done| |apply NoDup_singleton].
    intros x Hx Hx'. apply list_elem_of_singleton in Hx' as ->. done. }
  destruct (IH _ ND') as [IH1 IH2]. split; [done|].
  intros d. rewrite IH2. unfold add_dir. split.
  - intros [Hd|(e & He & ->)].
    + case_bool_decide; [auto|]. apply elem_of_app in Hd as [?|Hd]; [auto|].
      apply list_elem_of_singleton in Hd as ->.
      right. exists entry. split; [left|done].
    + right. exists e. split; [by right|done].
  - intros [Hd|(e & He & ->)].
    + left. case_bool_decide; [done|]. apply elem_of_app. auto.
    + apply elem_of_cons in He as [->|He].
      * left. case_bool_decide; [done|]. apply elem_of_app. right. by left.
      * right. eauto.
Qed.

(** ** The URL rewrite *)

Lemma strip_prefix_spec (p s r : string) : strip_prefix p s = Some r <-> s = p +:+ r.
Proof.
  revert s. induction p as [|a p IH]; intros s; simpl.
  - rewrite app_empty_l. split; congruence.
  - destruct s as [|b s]; [by split|]. rewrite app_cons.
    destruct (Ascii.eqb_spec a b) as [->|Hne].
    + rewrite IH. split; congruence.
    + split; [done|]. intros [= ? _]. congruence.
Qed.

Lemma match_attr_spec (s attr r : string) :
  match_attr s = Some (attr, r) <-> (attr = "src" \/ attr = "href") /\ s = attr +:+ r.
Proof.
  unfold match_attr. split.
  - destruct (strip_prefix "src" s) as [r1|] eqn:E1.
    { intros [= <- <-]. apply strip_prefix_spec in E1. auto. }
    destruct (strip_prefix "href" s) as [r2|] eqn:E2; [|done].
    intros [= <- <-]. apply strip_prefix_spec in E2. auto.
  - intros [[-> | ->] ->]; by rewrite !app_cons, app_empty_l.
Qed.

Lemma span_unquoted_app (x rest : string) (q : ascii) :
  unquoted x = true -> is_quote q = true ->
  span_unquoted (x +:+ String q rest) = (x, String q rest).
Proof.
  intros Hx Hq. induction x as [|c x IH].
  - rewrite app_empty_l. simpl. by rewrite Hq.
  - rewrite app_cons. simpl. apply andb_true_iff in Hx as [Hc Hx].
    apply negb_true_iff in Hc. by rewrite Hc, (IH Hx).
Qed.

Lemma span_unquoted_spec (s x r : string) :
  span_unquoted s = (x, r) ->
  s = x +:+ r /\ unquoted x = true
  /\ (r = "" \/ exists q r', r = String q r' /\ is_quote q = true).
Proof.
  revert x r. induction s as [|c s IH]; intros x r; simpl.
  - intros [= <- <-]. auto.
  - destruct (is_quote c) eqn:Hc.
    + intros [= <- <-]. split; [done|]. split; [done|]. right. eauto.
    + destruct (span_unquoted s) as [x' r'] eqn:E. intros [= <- <-].
      destruct (IH x' r' eq_refl) as (-> & Hx & Hr).
      split; [done|]. split; [|done]. unfold unquoted in *. simpl. by rewrite Hc, Hx.
Qed.

(** What the second pattern matches at the start of a string. *)
Lemma match_url_at_intro (attr x rest : string) (q q' : ascii) :
  attr = "src" \/ attr = "href" ->
  is_quote q = true -> is_quote q' = true -> x <> "" -> unquoted x = true ->
  match_url_at (attr +:+ "=" +:+ String q ("/" +:+ x +:+ String q' rest))
  = Some (attr, x, rest).
Proof.
  intros Ha Hq Hq' Hx Hu. unfold match_url_at.
  rewrite (proj2 (match_attr_spec _ attr _) (conj Ha eq_refl)).
  rewrite !app_cons, !app_empty_l. rewrite Hq. simpl.
  rewrite (span_unquoted_app x rest q' Hu Hq'). by destruct x.
Qed.

Lemma match_url_at_elim (s attr x rest : string) :
  match_url_at s = Some (attr, x, rest) ->
  (attr = "src" \/ attr = "href")
  /\ exists q q',
       is_quote q = true /\ is_quote q' = true /\ x <> "" /\ unquoted x = true
       /\ s = attr +:+ "=" +:+ String q ("/" +:+ x +:+ String q' rest).
Proof.
  unfold match_url_at.
  destruct (match_attr s) as [[attr' r]|] eqn:Ha; [|done].
  apply match_attr_spec in Ha as [Ha ->].
  destruct r as [|e [|q [|sl r]]]; try done.
  destruct (Ascii.eqb_spec e "=") as [->|]; [|done].
  destruct (is_quote q) eqn:Hq; [|done].
  destruct (Ascii.eqb_spec sl "/") as [->|]; [|done]. simpl.
  destruct (span_unquoted r) as [x' r'] eqn:Hs.
  apply span_unquoted_spec in Hs as (-> & Hx & Hr).
  destruct x' as [|c x']; [done|]. destruct r' as [|q' r']; [done|].
  intros [= <- <- <-]. split; [done|]. exists q, q'.
  destruct Hr as [|(q'' & r'' & [= <- <-] & Hq')]; [done|].
  repeat split; try done.
Qed.

(** Passing over the rest of a match. *)
Lemma rewrite_from_skip (port : N) (m rest : string) :
  rewrite_from port (String.length m) (m +:+ rest) = rewrite_from port 0 rest.
Proof.
  induction m as [|c m IH]; [by destruct rest|]. by rewrite app_cons.
Qed.

Lemma rewriteUrls_match (port : N) (s attr x rest : string) :
  match_url_at s = Some (attr, x, rest) ->
  rewriteUrls port s = url_replacement port attr x +:+ rewriteUrls port rest.
Proof.
  intros Hm. unfold rewriteUrls.
  destruct (match_url_at_elim _ _ _ _ Hm) as (Ha & q & q' & _ & _ & _ & _ & Hs).
  destruct s as [|c r]; [destruct Ha as [-> | ->]; discriminate|].
  simpl. rewrite Hm. f_equal.
  enough (exists m, r = m +:+ rest
                    /\ String.length m = String.length attr + String.length x + 3)
    as (m & -> & <-) by apply rewrite_from_skip.
  destruct Ha as [-> | ->]; rewrite !app_cons, !app_empty_l in Hs;
    injection Hs as -> ->.
  - exists (String "r" (String "c" (String "=" (String q (String "/" (x +:+ String q' "")))))).
    rewrite !app_cons, <- app_assoc_s, app_cons, app_empty_l. split; [done|].
    simpl. rewrite length_app_s. simpl. lia.
  - exists (String "r" (String "e" (String "f" (String "="
              (String q (String "/" (x +:+ String q' ""))))))).
    rewrite !app_cons, <- app_assoc_s, app_cons, app_empty_l. split; [done|].
    simpl. rewrite length_app_s. simpl. lia.
Qed.

Lemma rewriteUrls_no_match (port : N) (c : ascii) (r : string) :
  match_url_at (String c r) = None ->
  rewriteUrls port (String c r) = String c (rewriteUrls port r).
Proof. intros Hm. unfold rewriteUrls. simpl. by rewrite Hm. Qed.

(** A prefix in which no match begins is copied as it is. *)
Lemma rewriteUrls_prefix (port : N) (a b : string) :
  (forall a1 a2, a = a1 +:+ a2 -> a2 <> "" -> match_url_at (a2 +:+ b) = None) ->
  rewriteUrls port (a +:+ b) = a +:+ rewriteUrls port b.
Proof.
  induction a as [|c a IH]; intros H; [done|].
  rewrite !app_cons. rewrite rewriteUrls_no_match.
  - f_equal. apply IH. intros a1 a2 -> Hne. apply (H (String c a1) a2); by rewrite ?app_cons.
  - rewrite <- app_cons. by apply (H "" (String c a)).
Qed.

(** The rewrite never shortens a string. *)
Lemma rewriteUrls_length (port : N) (s : string) :
  String.length s <= String.length (rewriteUrls port s).
Proof.
  remember (String.length s) as n eqn:Hn. revert s Hn.
  induction (lt_wf n) as [n _ IH]; intros s ->.
  destruct s as [|c r]; [done|].
  destruct (match_url_at (String c r)) as [[[attr x] rest]|] eqn:Hm.
  - rewrite (rewriteUrls_match _ _ _ _ _ Hm).
    destruct (match_url_at_elim _ _ _ _ Hm) as (Ha & q & q' & _ & _ & _ & _ & Hs).
    rewrite Hs. unfold url_replacement.
    rewrite !length_app_s. simpl. rewrite !length_app_s. simpl.
    assert (String.length rest <= String.length (rewriteUrls port rest)); [|lia].
    eapply IH; [|done]. rewrite Hs. rewrite !length_app_s. simpl.
    rewrite !length_app_s. simpl. lia.
  - rewrite (rewriteUrls_no_match _ _ _ Hm). simpl.
    assert (String.length r <= String.length (rewriteUrls port r)); [|lia].
    eapply IH; [|done]. simpl. lia.
Qed.

(** ** The second pattern, read as a relation *)

Lemma url_match_spec (s attr x rest : string) :
  match_url_at s = Some (attr, x, rest) <-> url_match s attr x rest.
Proof.
  split; [apply match_url_at_elim|].
  intros (Ha & q & q' & Hq & Hq' & Hx & Hu & ->). by apply match_url_at_intro.
Qed.

Lemma url_match_shorter (s attr x rest : string) :
  url_match s attr x rest -> String.length rest < String.length s.
Proof.
  intros (_ & q & q' & _ & _ & _ & _ & ->).
  rewrite !length_app_s. simpl. rewrite !length_app_s. simpl. lia.
Qed.

Lemma rewriteUrls_rewritten (port : N) (s : string) :
  url_rewritten port s (rewriteUrls port s).
Proof.
  remember (String.length s) as n eqn:Hn. revert s Hn.
  induction (lt_wf n) as [n _ IH]; intros s ->.
  destruct s as [|c r]; [constructor|].
  destruct (match_url_at (String c r)) as [[[attr x] rest]|] eqn:Hm.
  - rewrite (rewriteUrls_match _ _ _ _ _ Hm). apply url_match_spec in Hm.
    eapply rewritten_match; [exact Hm|].
    eapply IH; [|done]. by apply url_match_shorter in Hm.
  - rewrite (rewriteUrls_no_match _ _ _ Hm). apply rewritten_char.
    + intros attr x rest H%url_match_spec. congruence.
    + eapply IH; [|done]. simpl. lia.
Qed.

Lemma url_rewritten_unique (port : N) (s out : string) :
  url_rewritten port s out -> out = rewriteUrls port s.
Proof.
  induction 1 as [|s attr x rest out Hm _ IH|c s out Hno _ IH]; [done| |].
  - apply url_match_spec in Hm. by rewrite (rewriteUrls_match _ _ _ _ _ Hm), IH.
  - rewrite rewriteUrls_no_match; [by rewrite IH|].
    destruct (match_url_at (String c s)) as [[[attr x] rest]|] eqn:E; [|done].
    apply url_match_spec in E. by destruct (Hno _ _ _ E).
Qed.

(** ** Where a match can begin

    A text in which no match opens, and whose end cannot be the start of
    a match that continues in what follows, is copied by the rewrite as it
    is. *)

Lemma scan_app (st : progress) (a b : string) : scan st (a +:+ b) = scan (scan st a) b.
Proof. revert st. induction a as [|c a IH]; intros st; [done|]. rewrite app_cons. apply IH. Qed.

Lemma scan_Opened (s : string) : scan Opened s = Opened.
Proof. induction s; auto. Qed.

Lemma is_quote_cases (q : ascii) : is_quote q = true -> q = dq_char \/ q = sq_char.
Proof.
  unfold is_quote. intros [H|H]%orb_true_iff; apply Ascii.eqb_eq in H; auto.
Qed.

Lemma scan_opening (st : progress) (attr r : string) (q : ascii) :
  attr = "src" \/ attr = "href" -> is_quote q = true ->
  scan st (attr +:+ "=" +:+ String q ("/" +:+ r)) = Opened.
Proof.
  intros [-> | ->] [-> | ->]%is_quote_cases; rewrite !app_cons, !app_empty_l;
    destruct st; simpl; apply scan_Opened.
Qed.

Lemma scan_has_opening (s : string) : has_opening s -> scan Nothing s = Opened.
Proof.
  intros (l & attr & q & r & Ha & Hq & ->). rewrite scan_app. by apply scan_opening.
Qed.

Lemma progress_restart (s : string) (c : ascii) :
  progress_of (restart c) (s +:+ String c "").
Proof.
  unfold restart. destruct (Ascii.eqb_spec c "s") as [->|]; [by exists s|].
  destruct (Ascii.eqb_spec c "h") as [->|]; [by exists s|done].
Qed.

Lemma ends_with_snoc (t s : string) (c : ascii) :
  ends_with t s -> ends_with (t +:+ String c "") (s +:+ String c "").
Proof. intros [l ->]. exists l. by rewrite app_assoc_s. Qed.

Lemma has_opening_app (s t : string) : has_opening s -> has_opening (s +:+ t).
Proof.
  intros (l & attr & q & r & Ha & Hq & ->). exists l, attr, q, (r +:+ t).
  repeat split; try done.
  rewrite <- !app_assoc_s. by rewrite !app_cons, !app_empty_l, <- ?app_assoc_s.
Qed.

(** The scan keeps what its state says. *)
Lemma progress_step (st : progress) (s : string) (c : ascii) :
  progress_of st s -> progress_of (scan_step st c) (s +:+ String c "").
Proof.
  destruct st; simpl; intros H;
    try match goal with
        | |- context [if Ascii.eqb c ?x then _ else restart c] =>
            destruct (Ascii.eqb_spec c x) as [->|_]; [|apply progress_restart]
        end;
    try apply progress_restart;
    try (by apply (ends_with_snoc _ _ _ H)).
  - left. by apply (ends_with_snoc _ _ _ H).
  - right. by apply (ends_with_snoc _ _ _ H).
  - destruct (is_quote c) eqn:Hc; [|apply progress_restart].
    exists c. split; [done|].
    destruct H as [H|H]; [left|right]; by apply (ends_with_snoc _ _ _ H).
  - destruct H as (q & Hq & [[l ->]|[l ->]]).
    + exists l, "src", q, "". repeat split; auto. by rewrite <- app_assoc_s.
    + exists l, "href", q, "". repeat split; auto. by rewrite <- app_assoc_s.
  - by apply has_opening_app.
Qed.

Lemma progress_scan (s : string) (st : progress) (p : string) :
  progress_of st p -> progress_of (scan st s) (p +:+ s).
Proof.
  revert st p. induction s as [|c s IH]; intros st p H; simpl.
  - by rewrite app_empty_r.
  - replace (p +:+ String c s) with ((p +:+ String c "") +:+ s)
      by (by rewrite <- app_assoc_s, app_cons, app_empty_l).
    by apply IH, progress_step.
Qed.

(** The scan decides whether a match opens in a text. *)
Lemma opening_free_spec (s : string) : opening_free s = true <-> ~ has_opening s.
Proof.
  unfold opening_free. split.
  - intros H Ho. by rewrite (scan_has_opening _ Ho) in H.
  - intros H. destruct (scan Nothing s) eqn:E; try done.
    exfalso. apply H. pose proof (progress_scan s Nothing "" I) as P.
    by rewrite E, app_empty_l in P.
Qed.

(** A match that begins inside [a2] opens inside [a2], or the cut between
    [a2] and [b] falls inside its opening. *)
Lemma header_inside (a2 b attr x rest : string) :
  match_url_at (a2 +:+ b) = Some (attr, x, rest) ->
  (attr = "src" \/ attr = "href")
  /\ exists q, is_quote q = true
     /\ ((exists m, a2 = attr +:+ "=" +:+ String q ("/" +:+ m))
         \/ (exists m tail, m <> "" /\ attr +:+ "=" +:+ String q "/" = a2 +:+ m
                            /\ b = m +:+ tail)).
Proof.
  intros Hm. destruct (match_url_at_elim _ _ _ _ Hm) as (Ha & q & q' & Hq & _ & _ & _ & Hs).
  split; [done|]. exists q. split; [done|].
  assert (E : a2 +:+ b = (attr +:+ "=" +:+ String q "/") +:+ (x +:+ String q' rest)).
  { rewrite Hs. rewrite <- !app_assoc_s. by rewrite !app_cons, !app_empty_l. }
  apply app_eq_app_s in E as [(m & -> & _)|(m & Hne & E & ->)].
  - left. exists m. rewrite <- !app_assoc_s. by rewrite !app_cons, !app_empty_l.
  - right. eauto.
Qed.

(** The ways to cut the opening of a match in two. *)
Ltac cut_header E :=
  repeat match type of E with
         | String _ _ = ?a +:+ ?m =>
             destruct a as [|? a];
             [rewrite app_empty_l in E; subst m
             |rewrite app_cons in E; injection E as ? E; subst]
         | "" = ?a +:+ ?m =>
             destruct a; [rewrite app_empty_l in E; subst m|discriminate E]
         end.

(** No match begins in a text in which none opens, when an attribute name
    follows it. *)
Lemma no_start_before_attr (a b : string) (c : ascii) (b' : string) :
  ~ has_opening a ->
  b = String c b' -> c = "s"%char \/ c = "h"%char ->
  forall a1 a2, a = a1 +:+ a2 -> a2 <> "" -> match_url_at (a2 +:+ b) = None.
Proof.
  intros Hfree -> Hc a1 a2 -> Hne.
  destruct (match_url_at (a2 +:+ String c b')) as [[[attr x] rest]|] eqn:Hm; [|done].
  exfalso. apply header_inside in Hm as (Ha & q & Hq & [(m & ->)|(m & tail & Hm & E & Hb)]).
  - apply Hfree. by exists a1, attr, q, m.
  - destruct Ha as [-> | ->]; rewrite !app_cons, !app_empty_l in E; cut_header E;
      try done; rewrite ?app_cons, ?app_empty_l in Hb; injection Hb as -> _;
      destruct Hc as [Hc|Hc]; try discriminate Hc; subst; discriminate Hq.
Qed.

(** No match begins in a text after which the scan has seen nothing,
    whatever follows it. *)
Lemma no_start_when_idle (a b : string) :
  scan Nothing a = Nothing ->
  forall a1 a2, a = a1 +:+ a2 -> a2 <> "" -> match_url_at (a2 +:+ b) = None.
Proof.
  intros Hidle a1 a2 -> Hne.
  destruct (match_url_at (a2 +:+ b)) as [[[attr x] rest]|] eqn:Hm; [|done].
  exfalso.
  apply header_inside in Hm as (Ha & q & Hq & [(m & ->)|(m & tail & Hm & E & Hb)]).
  - rewrite scan_has_opening in Hidle; [done|]. by exists a1, attr, q, m.
  - clear Hb. rewrite scan_app in Hidle.
    destruct Ha as [-> | ->]; rewrite !app_cons, !app_empty_l in E; cut_header E;
      try done.
    all: destruct (scan Nothing a1); destruct (is_quote_cases _ Hq) as [-> | ->];
      vm_compute in Hidle; discriminate Hidle.
Qed.

Lemma last_char_app (a b : string) :
  b <> "" -> last_char (a +:+ b) = last_char b.
Proof.
  intros Hb. induction a as [|c a IH]; [done|]. rewrite app_cons. simpl. rewrite IH.
  destruct b; [done|]. simpl. by destruct (last_char b).
Qed.

(** One character that is no quote. *)
Lemma scan_step_unquoted (st : progress) (c : ascii) :
  is_quote c = false -> st <> Opened -> (st = Seen_quote -> c <> "/"%char) ->
  scan_step st c <> Seen_quote /\ scan_step st c <> Opened
  /\ (scan_step st c = Seen_eq -> c = "="%char).
Proof.
  intros Hc Hst Hsl.
  assert (R : restart c <> Seen_quote /\ restart c <> Opened
              /\ (restart c = Seen_eq -> c = "="%char)).
  { unfold restart. by repeat destruct (Ascii.eqb c _). }
  destruct st; simpl; rewrite ?Hc; try exact R; try done;
    match goal with
    | |- context [if Ascii.eqb c ?x then _ else restart c] =>
        destruct (Ascii.eqb_spec c x) as [->|Hne]; [|exact R]
    end;
    try done.
  by destruct (Hsl eq_refl).
Qed.

(** A text without quotes keeps the scan out of its two last states, and
    leaves it after an equals sign only when it ends in one. *)
Lemma scan_unquoted (st : progress) (v : string) :
  unquoted v = true -> st <> Seen_quote -> st <> Opened ->
  scan st v <> Seen_quote /\ scan st v <> Opened
  /\ (scan st v = Seen_eq -> (v = "" /\ st = Seen_eq) \/ last_char v = Some "="%char).
Proof.
  revert st. induction v as [|c v IH]; intros st Hv H1 H2; [by auto|].
  apply andb_true_iff in Hv as [Hc Hv]. apply negb_true_iff in Hc. simpl.
  destruct (scan_step_unquoted st c Hc H2 ltac:(done)) as (S1 & S2 & S3).
  destruct (IH _ Hv S1 S2) as (I1 & I2 & I3).
  split; [done|]. split; [done|]. intros E. right.
  destruct (I3 E) as [[-> Hst]|Hl].
  - simpl. by rewrite (S3 Hst).
  - by rewrite Hl.
Qed.

Lemma scan_closing_quote (st : progress) (q : ascii) :
  is_quote q = true -> st <> Seen_eq -> st <> Opened -> scan_step st q = Nothing.
Proof. intros [-> | ->]%is_quote_cases H1 H2; by destruct st. Qed.

(** The scan after an attribute whose value is not rewritten. *)
Lemma scan_other_value (st : progress) (attr v : string) (q q' : ascii) :
  attr = "src" \/ attr = "href" ->
  is_quote q = true -> is_quote q' = true -> st <> Opened ->
  unquoted v = true -> starts_with "/" v = false -> last_char v <> Some "="%char ->
  scan st (attr +:+ "=" +:+ String q (v +:+ String q' "")) = Nothing.
Proof.
  intros Ha Hq Hq' Hst Hv Hslash Hlast.
  replace (attr +:+ "=" +:+ String q (v +:+ String q' ""))
    with ((attr +:+ "=" +:+ String q "") +:+ (v +:+ String q' ""))
    by (rewrite <- !app_assoc_s; by rewrite !app_cons, !app_empty_l).
  rewrite scan_app.
  replace (scan st (attr +:+ "=" +:+ String q "")) with Seen_quote
    by (destruct Ha as [-> | ->]; destruct (is_quote_cases q Hq) as [-> | ->];
        by destruct st).
  rewrite scan_app.
  destruct v as [|c v].
  - exact (scan_closing_quote Seen_quote q' Hq' ltac:(done) ltac:(done)).
  - apply andb_true_iff in Hv as [Hc Hv]. apply negb_true_iff in Hc.
    assert (Hc' : c <> "/"%char) by (intros ->; by destruct v).
    change (scan Seen_quote (String c v)) with (scan (scan_step Seen_quote c) v).
    destruct (scan_step_unquoted Seen_quote c Hc ltac:(done) (fun _ => Hc'))
      as (S1 & S2 & S3).
    destruct (scan_unquoted _ v Hv S1 S2) as (I1 & I2 & I3).
    apply (scan_closing_quote (scan (scan_step Seen_quote c) v)); try done.
    intros E. apply Hlast. destruct (I3 E) as [[-> Hs]|Hl].
    + simpl. by rewrite (S3 Hs).
    + simpl. by rewrite Hl.
Qed.

(** The transform on a host that has a window: it returns, and its result
    is the URL rewrite of the text with the client injected. *)
Lemma injectDevClient_returns host config (html : string) (port : N) (w : World)
    (href : option string) :
  global_window host = Some href ->
  exists id w',
    getManifestId host config w = (Normal id, w')
    /\ files w' = files w
    /\ injectDevClient host config html port w
       = (Normal (rewriteUrls port (replace_head html (head_template port id))), w').
Proof.
  intros Hw. destruct (getManifestId_returns host config w) as (id & w' & E & F & _).
  exists id, w'. repeat split; try done.
  unfold injectDevClient, bind, window_href, ret. by rewrite E, Hw.
Qed.

(** ** The head tag *)

Lemma until_gt_intro (attrs rest : string) :
  no_gt attrs = true -> until_gt (attrs +:+ ">" +:+ rest) = Some (attrs +:+ ">", rest).
Proof.
  intros H. induction attrs as [|c attrs IH]; [done|].
  apply andb_true_iff in H as [Hc H]. apply negb_true_iff in Hc.
  rewrite app_cons. simpl. by rewrite Hc, (IH H).
Qed.

Lemma until_gt_elim (s a rest : string) :
  until_gt s = Some (a, rest) ->
  exists attrs, a = attrs +:+ ">" /\ no_gt attrs = true /\ s = a +:+ rest.
Proof.
  revert a. induction s as [|c s IH]; intros a; [done|]. simpl.
  destruct (Ascii.eqb_spec c ">") as [->|Hne].
  - intros [= <- <-]. by exists "".
  - destruct (until_gt s) as [[a' rest']|]; [|done]. intros [= <- <-].
    destruct (IH a' eq_refl) as (attrs & -> & Hn & ->).
    exists (String c attrs). repeat split; try done.
    unfold no_gt in *. simpl. rewrite Hn. by destruct (Ascii.eqb_spec c ">").
Qed.

Lemma match_head_at_intro (tag rest : string) :
  head_tag tag -> match_head_at (tag +:+ rest) = Some (tag, rest).
Proof.
  intros (c1 & c2 & c3 & c4 & attrs & -> & H1 & H2 & H3 & H4 & Hn).
  rewrite !app_cons. unfold match_head_at, is_head_word.
  rewrite H1, H2, H3, H4. simpl. rewrite <- app_assoc_s.
  by rewrite (until_gt_intro attrs rest Hn).
Qed.

Lemma match_head_at_elim (s tag rest : string) :
  match_head_at s = Some (tag, rest) -> head_tag tag /\ s = tag +:+ rest.
Proof.
  unfold match_head_at.
  destruct s as [|c0 [|c1 [|c2 [|c3 [|c4 r]]]]]; try done.
  destruct (is_head_word c0 c1 c2 c3 c4) eqn:Hw; [|done].
  destruct (until_gt r) as [[a rest']|] eqn:Hu; [|done]. intros [= <- <-].
  apply until_gt_elim in Hu as (attrs & -> & Hn & ->).
  unfold is_head_word in Hw.
  apply andb_true_iff in Hw as [Hw H4]. apply andb_true_iff in Hw as [Hw H3].
  apply andb_true_iff in Hw as [Hw H2]. apply andb_true_iff in Hw as [H0 H1].
  apply Ascii.eqb_eq in H0 as ->.
  split; [|by rewrite !app_cons]. exists c1, c2, c3, c4, attrs. by repeat split.
Qed.

Lemma find_head_unfold (s : string) :
  find_head s
  = match match_head_at s with
    | Some (tag, post) => Some ("", tag, post)
    | None =>
        match s with
        | "" => None
        | String c r =>
            match find_head r with
            | Some (pre, tag, post) => Some (String c pre, tag, post)
            | None => None
            end
        end
    end.
Proof. by destruct s. Qed.

(** The first pattern finds the leftmost head tag. *)
Lemma find_head_leftmost (pre tag post : string) :
  leftmost_head pre tag post ->
  find_head (pre +:+ tag +:+ post) = Some (pre, tag, post).
Proof.
  intros [Ht Hleft]. induction pre as [|c pre IH].
  - rewrite app_empty_l, find_head_unfold. by rewrite match_head_at_intro.
  - rewrite find_head_unfold.
    destruct (match_head_at (String c pre +:+ tag +:+ post)) as [[t r]|] eqn:Hm.
    { apply match_head_at_elim in Hm as [Ht' Hs].
      specialize (Hleft "" t r). rewrite app_empty_l in Hleft.
      specialize (Hleft Hs Ht'). simpl in Hleft. lia. }
    rewrite app_cons. rewrite IH; [done|].
    intros p t r Hs Ht'. specialize (Hleft (String c p) t r).
    rewrite !app_cons in Hleft. rewrite Hs in Hleft. specialize (Hleft eq_refl Ht').
    simpl in Hleft. lia.
Qed.

(** ** The replacement string *)

Lemma get_substitution_plain (matched before after cap1 t : string) :
  string_forall not_dollar t = true ->
  get_substitution matched before after cap1 t = t.
Proof.
  induction t as [|c t IH]; [done|]. intros [Hc Ht]%andb_true_iff.
  apply negb_true_iff in Hc. simpl. by rewrite Hc, (IH Ht).
Qed.

(** The expansion of the template: the tag, a newline, four spaces and
    the expansion of the client script. *)
Lemma head_template_expansion (matched before after cap1 : string) (port : N) (id : json) :
  get_substitution matched before after cap1 (head_template port id)
  = cap1 +:+ nl +:+ "    "
    +:+ get_substitution matched before after cap1 (clientScript port id).
Proof. unfold head_template. by rewrite !app_cons. Qed.

Lemma replace_head_leftmost (pre tag post : string) (port : N) (id : json) :
  leftmost_head pre tag post ->
  replace_head (pre +:+ tag +:+ post) (head_template port id)
  = pre +:+ tag +:+ (nl +:+ "    "
      +:+ get_substitution tag pre post tag (clientScript port id)) +:+ post.
Proof.
  intros H. unfold replace_head. rewrite (find_head_leftmost _ _ _ H).
  rewrite head_template_expansion. by rewrite <- !app_assoc_s.
Qed.

(** ** The injected fragment *)

Lemma fragment_shape (port : N) (id : json) :
  nl +:+ "    " +:+ clientScript port id
  = fragment_head +:+ pretty port +:+ manifest_query id +:+ fragment_middle
    +:+ pretty port +:+ fragment_tail.
Proof.
  unfold clientScript, fragment_head, fragment_middle, fragment_tail.
  by rewrite <- !app_assoc_s.
Qed.

Lemma digit_not_dollar (c : ascii) : is_digit c = true -> not_dollar c = true.
Proof.
  unfold is_digit, not_dollar. destruct (Ascii.eqb_spec c "$") as [->|]; [|done].
  done.
Qed.

Lemma plain_not_dollar (c : ascii) : plain c = true -> not_dollar c = true.
Proof. by intros [? _]%andb_true_iff. Qed.

Lemma plain_unquoted (s : string) : string_forall plain s = true -> unquoted s = true.
Proof. apply string_forall_impl. by intros c [_ ?]%andb_true_iff. Qed.

Lemma digits_unquoted (s : string) : string_forall is_digit s = true -> unquoted s = true.
Proof.
  apply string_forall_impl. intros c. unfold is_digit, is_quote.
  destruct (Ascii.eqb_spec c dq_char) as [->|]; [done|].
  destruct (Ascii.eqb_spec c sq_char) as [->|]; done.
Qed.

Lemma manifest_query_plain (id : json) :
  string_forall plain (to_js_string id) = true ->
  string_forall plain (manifest_query id) = true.
Proof.
  intros H. unfold manifest_query. destruct (truthy id); [|done].
  by rewrite string_forall_app, H.
Qed.

(** With a plain identity the client script holds no dollar sign, so its
    expansion is the script itself. *)
Lemma clientScript_no_dollar (port : N) (id : json) :
  string_forall plain (to_js_string id) = true ->
  string_forall not_dollar (clientScript port id) = true.
Proof.
  intros H. unfold clientScript. rewrite !string_forall_app.
  rewrite (string_forall_impl _ _ _ digit_not_dollar (pretty_N_digits port)).
  rewrite (string_forall_impl _ _ _ plain_not_dollar (manifest_query_plain id H)).
  reflexivity.
Qed.

Lemma scan_digits (s : string) :
  string_forall is_digit s = true -> scan Nothing s = Nothing.
Proof.
  induction s as [|c s IH]; [done|]. intros Hs.
  apply andb_true_iff in Hs as [Hc Hs].
  change (scan Nothing (String c s)) with (scan (restart c) s).
  replace (restart c) with Nothing; [by apply IH|].
  unfold restart. destruct (Ascii.eqb_spec c "s") as [->|]; [done|].
  by destruct (Ascii.eqb_spec c "h") as [->|].
Qed.

(** The fragment, after a text that left the scan with nothing, leaves it
    with nothing again. *)
Lemma scan_fragment (port : N) (id : json) :
  string_forall plain (to_js_string id) = true ->
  scan Nothing (nl +:+ "    " +:+ clientScript port id) = Nothing.
Proof.
  intros H. rewrite fragment_shape, !scan_app.
  replace (scan Nothing fragment_head) with Nothing by (vm_compute; reflexivity).
  rewrite (scan_digits _ (pretty_N_digits port)).
  destruct (scan_unquoted Nothing (manifest_query id)
              (plain_unquoted _ (manifest_query_plain id H)) ltac:(done) ltac:(done))
    as (S1 & S2 & _).
  replace (scan (scan Nothing (manifest_query id)) fragment_middle) with Nothing
    by (destruct (scan Nothing (manifest_query id)); try done; vm_compute; reflexivity).
  rewrite (scan_digits _ (pretty_N_digits port)). vm_compute. reflexivity.
Qed.

Lemma head_tag_last (tag : string) : head_tag tag -> exists t, tag = t +:+ ">".
Proof.
  intros (c1 & c2 & c3 & c4 & attrs & -> & _).
  by exists (String "<" (String c1 (String c2 (String c3 (String c4 attrs))))).
Qed.

Lemma scan_gt (st : progress) (s : string) :
  scan st (s +:+ ">") = match scan st s with Opened => Opened | _ => Nothing end.
Proof. rewrite scan_app. by destruct (scan st s). Qed.

(** What [find_head] returns is the leftmost head tag. *)
Lemma find_head_sound (s pre tag post : string) :
  find_head s = Some (pre, tag, post) ->
  s = pre +:+ tag +:+ post /\ leftmost_head pre tag post.
Proof.
  revert pre. induction s as [|c s IH]; intros pre; rewrite find_head_unfold.
  - done.
  - destruct (match_head_at (String c s)) as [[t r]|] eqn:Hm.
    + intros [= <- <- <-]. apply match_head_at_elim in Hm as [Ht Hs].
      repeat split; try done. intros; simpl; lia.
    + destruct (find_head s) as [[[pre' tag'] post']|]; [|done].
      intros [= <- <- <-]. destruct (IH pre' eq_refl) as (-> & Ht & Hleft).
      repeat split; try done. intros p t r Hs Ht'.
      destruct p as [|c' p].
      * rewrite app_empty_l, app_cons in Hs. rewrite Hs in Hm.
        by rewrite (match_head_at_intro t r Ht') in Hm.
      * rewrite !app_cons in Hs. injection Hs as <- Hs.
        specialize (Hleft p t r Hs Ht'). simpl. lia.
Qed.

(** C4, as the code has it.  On a host with a window, for an input whose
    leftmost head tag (an opening angle bracket, the word head in any
    case, anything but a closing angle bracket, a closing angle bracket:
    this covers head with attributes, and also a longer tag name such as
    header) is [tag], the transform returns the URL rewrite of the input
    with one fragment inserted right after that tag: a newline, four
    spaces and the client script with the dollar forms of a replacement
    string expanded.  When the identity holds no dollar sign and no quote
    the script is inserted as it is, and when moreover no match of the
    second pattern opens in the text up to the end of the tag (it holds no
    src= or href= directly followed by a quote and a slash), the output is
    that text, the fragment, and the URL rewrite of the rest. *)
Theorem injectDevClient_head_contract (host : Host) (config : ResolvedConfig)
    (port : N) (w : World) (pre tag post : string) (href : option string) :
  global_window host = Some href ->
  leftmost_head pre tag post ->
  exists id w',
    getManifestId host config w = (Normal id, w')
    /\ injectDevClient host config (pre +:+ tag +:+ post) port w
       = (Normal (rewriteUrls port
                    (pre +:+ tag
                     +:+ (nl +:+ "    "
                          +:+ get_substitution tag pre post tag (clientScript port id))
                     +:+ post)),
          w')
    /\ (string_forall plain (to_js_string id) = true ->
        get_substitution tag pre post tag (clientScript port id) = clientScript port id
        /\ (~ has_opening (pre +:+ tag) ->
            injectDevClient host config (pre +:+ tag +:+ post) port w
            = (Normal (pre +:+ tag +:+ (nl +:+ "    " +:+ clientScript port id)
                       +:+ rewriteUrls port post),
               w'))).
Proof.
  intros Hw Hhead.
  destruct (injectDevClient_returns host config (pre +:+ tag +:+ post) port w href Hw)
    as (id & w' & E & _ & R).
  exists id, w'. split; [done|].
  rewrite (replace_head_leftmost _ _ _ port id Hhead) in R. split; [done|].
  intros Hplain.
  pose proof (get_substitution_plain tag pre post tag _ (clientScript_no_dollar port id Hplain))
    as G.
  split; [done|]. intros Hfree. rewrite R, G. do 2 f_equal.
  pose proof (scan_fragment port id Hplain) as Hscan.
  set (F := nl +:+ "    " +:+ clientScript port id) in *.
  rewrite !(app_assoc_s pre tag), !(app_assoc_s (pre +:+ tag) F).
  apply rewriteUrls_prefix, no_start_when_idle.
  rewrite scan_app. destruct Hhead as [Ht _].
  destruct (head_tag_last tag Ht) as (t & ->).
  apply opening_free_spec in Hfree. unfold opening_free in Hfree.
  rewrite (app_assoc_s pre t), scan_gt in *.
  by destruct (scan Nothing (pre +:+ t)).
Qed.

(** C4, refuted as stated: the input holds a head tag, after a header
    tag.  The fragment lands after the header tag, and nowhere does it
    follow the head tag. *)
Lemma client_lands_after_header :
  let fragment := nl +:+ "    " +:+ clientScript 5173 (JStr "abc123") in
  injectDevClient Demo.browser_host Demo.config
    "<header></header><head></head>" 5173 Demo.world
  = (Normal ("<header>" +:+ fragment +:+ "</header><head></head>"), Demo.world)
  /\ occurs ("<head>" +:+ fragment) ("<header>" +:+ fragment +:+ "</header><head></head>")
     = false.
Proof. split; vm_compute; reflexivity. Qed.

Lemma demo_manifest_id_browser :
  getManifestId Demo.browser_host Demo.config Demo.world
  = (Normal (JStr "abc123"), Demo.world).
Proof. vm_compute. reflexivity. Qed.

(** The example project's entrypoint, transformed for port 3000: the
    client script follows the head tag and the image points at the dev
    server. *)
Lemma injectDevClient_head_contract_witness :
  injectDevClient Demo.browser_host Demo.config
    ("<html>" +:+ "<head>"
     +:+ "</head><body><img src=" +:+ dq +:+ "/logo.png" +:+ dq +:+ "></body></html>")
    3000 Demo.world
  = (Normal ("<html>" +:+ "<head>"
             +:+ (nl +:+ "    " +:+ clientScript 3000 (JStr "abc123"))
             +:+ "</head><body><img src=" +:+ dq +:+ "http://localhost:3000/logo.png"
             +:+ dq +:+ "></body></html>"),
     Demo.world).
Proof.
  destruct (injectDevClient_head_contract Demo.browser_host Demo.config 3000 Demo.world
              "<html>" "<head>"
              ("</head><body><img src=" +:+ dq +:+ "/logo.png" +:+ dq +:+ "></body></html>")
              (Some "http://localhost:5173/"))
    as (id & w' & E & _ & P).
  - reflexivity.
  - apply (find_head_sound
             ("<html>" +:+ "<head>"
              +:+ "</head><body><img src=" +:+ dq +:+ "/logo.png" +:+ dq
              +:+ "></body></html>")).
    vm_compute. reflexivity.
  - rewrite demo_manifest_id_browser in E. injection E as <- <-.
    destruct P as [_ P]; [vm_compute; reflexivity|].
    rewrite P by (apply opening_free_spec; vm_compute; reflexivity).
    vm_compute. reflexivity.
Defined.

(** ** Attributes, the claim and the code *)

(** An input without a head tag passes the first replace unchanged. *)
Lemma replace_head_headless (html template : string) :
  headless html -> replace_head html template = html.
Proof.
  intros H. unfold replace_head.
  destruct (find_head html) as [[[pre tag] post]|] eqn:E; [|done].
  apply find_head_sound in E as (Hs & Ht & _). by destruct (H pre tag post Hs).
Qed.




(** ** Repeating the transform *)

Lemma leftmost_head_at_start (tag post : string) :
  head_tag tag -> leftmost_head "" tag post.
Proof. intros Ht. split; [done|]. intros; simpl; lia. Qed.

Lemma head_tag_plain : head_tag "<head>".
Proof. exists "h"%char, "e"%char, "a"%char, "d"%char, "". by repeat split. Qed.

Lemma rewriteUrls_after_head (port : N) (s : string) :
  rewriteUrls port ("<head>" +:+ s) = "<head>" +:+ rewriteUrls port s.
Proof. rewrite !app_cons, app_empty_l. by rewrite !rewriteUrls_no_match. Qed.

(** A text that holds a head tag has a leftmost one. *)
Lemma find_head_complete (p t r : string) :
  head_tag t ->
  exists pre tag post,
    p +:+ t +:+ r = pre +:+ tag +:+ post /\ leftmost_head pre tag post.
Proof.
  intros Ht.
  enough (exists pre tag post, find_head (p +:+ t +:+ r) = Some (pre, tag, post))
    as (pre & tag & post & E).
  { exists pre, tag, post. by apply find_head_sound. }
  induction p as [|c p IH].
  - rewrite app_empty_l, find_head_unfold, (match_head_at_intro t r Ht). eauto.
  - rewrite app_cons, find_head_unfold.
    destruct (match_head_at _) as [[tag post]|]; [eauto|].
    destruct IH as (pre & tag & post & ->). eauto.
Qed.

(** Where the input holds a head tag the output is longer than the
    input. *)
Lemma injectDevClient_grows host config (port : N) (w : World) (p t r : string)
    (href : option string) :
  global_window host = Some href -> head_tag t ->
  exists out w',
    injectDevClient host config (p +:+ t +:+ r) port w = (Normal out, w')
    /\ String.length (p +:+ t +:+ r) < String.length out.
Proof.
  intros Hw Ht. destruct (find_head_complete p t r Ht) as (pre & tag & post & E & Hl).
  destruct (injectDevClient_returns host config (p +:+ t +:+ r) port w href Hw)
    as (id & w' & _ & _ & R).
  rewrite E in R |- *. rewrite (replace_head_leftmost _ _ _ port id Hl) in R.
  eexists _, w'. split; [exact R|].
  match goal with
  | |- _ < String.length (rewriteUrls port ?s) =>
      pose proof (rewriteUrls_length port s) as L;
      set (out := rewriteUrls port s) in *
  end.
  rewrite !length_app_s in *.
  assert (N : String.length nl = 1) by reflexivity. lia.
Qed.

(** C9. On a host with a window the transform returns, and whenever its
    output holds a head tag, transforming the output again gives a longer
    text: the transform is not idempotent.  The output of an input that
    starts with a head tag starts with that tag, so such outputs exist.
    In the example project the first output loads the client once, the
    second twice. *)
Theorem injectDevClient_not_idempotent (host : Host) (config : ResolvedConfig)
    (port : N) (w : World) (html : string) (href : option string) :
  global_window host = Some href ->
  (exists once w1,
     injectDevClient host config html port w = (Normal once, w1)
     /\ (forall p t r,
          once = p +:+ t +:+ r -> head_tag t ->
          exists twice w2,
            injectDevClient host config once port w1 = (Normal twice, w2)
            /\ String.length once < String.length twice
            /\ twice <> once)
     /\ (forall rest, html = "<head>" +:+ rest -> exists r, once = "<head>" +:+ r))
  /\ (exists once twice,
        injectDevClient Demo.browser_host Demo.config Demo.index_html 5173 Demo.world
        = (Normal once, Demo.world)
        /\ injectDevClient Demo.browser_host Demo.config once 5173 Demo.world
           = (Normal twice, Demo.world)
        /\ count_occurrences "/@vite/client" Demo.index_html = 0
        /\ count_occurrences "/@vite/client" once = 1
        /\ count_occurrences "/@vite/client" twice = 2).
Proof.
  intros Hw. split.
  - destruct (injectDevClient_returns host config html port w href Hw)
      as (id & w1 & _ & _ & R1).
    eexists _, w1. split; [exact R1|]. split.
    + intros p t r -> Ht.
      destruct (injectDevClient_grows host config port w1 p t r href Hw Ht)
        as (twice & w2 & R2 & L).
      exists twice, w2. split; [done|]. split; [done|].
      intros Heq. rewrite Heq in L. lia.
    + intros rest ->.
      pose proof (replace_head_leftmost "" "<head>" rest port id
                    (leftmost_head_at_start _ _ head_tag_plain)) as E1.
      rewrite app_empty_l in E1. rewrite E1, app_empty_l, rewriteUrls_after_head.
      eauto.
  - eexists _, _. repeat apply conj; vm_compute; reflexivity.
Qed.

Lemma injectDevClient_not_idempotent_witness :
  exists once w1 twice w2,
    injectDevClient Demo.browser_host Demo.config ("<head>" +:+ "</head>") 5173 Demo.world
    = (Normal once, w1)
    /\ injectDevClient Demo.browser_host Demo.config once 5173 w1 = (Normal twice, w2)
    /\ String.length once < String.length twice
    /\ twice <> once.
Proof.
  destruct (injectDevClient_not_idempotent Demo.browser_host Demo.config 5173 Demo.world
              ("<head>" +:+ "</head>") (Some "http://localhost:5173/"))
    as [(once & w1 & R1 & Hagain & Hhead) _]; [reflexivity|].
  destruct (Hhead "</head>" eq_refl) as (r & ->).
  destruct (Hagain "" "<head>" r eq_refl head_tag_plain) as (twice & w2 & R2 & L & N).
  by exists ("<head>" +:+ r), w1, twice, w2.
Defined.

(** ** Directory names of normalised paths *)

Lemma concat_strings_app (a b : list string) :
  concat_strings (a ++ b) = concat_strings a +:+ concat_strings b.
Proof.
  induction a as [|x a IH]; simpl; [by rewrite app_empty_l|].
  by rewrite IH, app_assoc_s.
Qed.

Lemma list_ascii_app (a b : string) :
  list_ascii_of_string (a +:+ b) = (list_ascii_of_string a ++ list_ascii_of_string b)%list.
Proof. induction a as [|c a IH]; [done|]. rewrite app_cons. simpl. by rewrite IH. Qed.

Lemma no_slash_chars (s : string) :
  no_slash s = true -> Forall (fun c => Ascii.eqb c "/" = false) (list_ascii_of_string s).
Proof.
  induction s as [|c s IH]; [constructor|]. intros H.
  apply andb_true_iff in H as [Hc H]. apply negb_true_iff in Hc.
  constructor; [done|by apply IH].
Qed.

Lemma after_basename_none (l : list ascii) :
  Forall (fun c => Ascii.eqb c "/" = false) l -> after_basename l = None.
Proof. induction 1 as [|c l Hc _ IH]; [done|]. simpl. by rewrite Hc. Qed.

Lemma after_basename_app (l1 l2 : list ascii) :
  Forall (fun c => Ascii.eqb c "/" = false) l1 ->
  after_basename (l1 ++ "/"%char :: l2) = Some l2.
Proof. induction 1 as [|c l Hc _ IH]; [done|]. simpl. by rewrite Hc. Qed.

Lemma drop_slashes_base (l : list ascii) :
  l <> [] -> Forall (fun c => Ascii.eqb c "/" = false) l ->
  forall r, drop_slashes (l ++ r) = (l ++ r)%list.
Proof. intros Hne H r. destruct H as [|c l Hc _]; [done|]. simpl. by rewrite Hc. Qed.

Lemma string_of_list_of_string_rev (s : string) :
  string_of_list_ascii (rev (rev (list_ascii_of_string s))) = s.
Proof. by rewrite rev_involutive, string_of_list_ascii_of_string. Qed.

Lemma rev_chars_no_slash (l : string) :
  no_slash l = true -> l <> "" ->
  Forall (fun c => Ascii.eqb c "/" = false) (rev (list_ascii_of_string l))
  /\ rev (list_ascii_of_string l) <> [].
Proof.
  intros Hl Hne. split; [by apply Forall_rev, no_slash_chars|].
  destruct l as [|c l]; [done|]. simpl. by destruct (rev (list_ascii_of_string l)).
Qed.

Lemma dirname_top (l : string) :
  no_slash l = true -> l <> "" -> path_dirname (String "/" l) = "/".
Proof.
  intros Hl Hne. destruct (rev_chars_no_slash l Hl Hne) as [Hrev Hrne].
  unfold path_dirname.
  rewrite <- (app_nil_r (rev (list_ascii_of_string l))).
  rewrite (drop_slashes_base _ Hrne Hrev), app_nil_r.
  by rewrite (after_basename_none _ Hrev).
Qed.

Lemma dirname_nested (c : ascii) (x l : string) :
  no_slash l = true -> l <> "" ->
  path_dirname (String "/" (String c x +:+ "/" +:+ l)) = String "/" (String c x).
Proof.
  intros Hl Hne. destruct (rev_chars_no_slash l Hl Hne) as [Hrev Hrne].
  unfold path_dirname.
  rewrite !list_ascii_app, !rev_app_distr.
  change (rev (list_ascii_of_string "/")) with ["/"%char].
  rewrite <- !app_assoc.
  rewrite (drop_slashes_base _ Hrne Hrev).
  change (["/"%char] ++ rev (list_ascii_of_string (String c x)))%list
    with ("/"%char :: rev (list_ascii_of_string (String c x))).
  rewrite (after_basename_app _ _ Hrev).
  rewrite rev_involutive, string_of_list_ascii_of_string.
  change (Ascii.eqb "/" "/") with true.
  replace (length (rev (list_ascii_of_string (String c x))) =? 0)%nat with false; [done|].
  rewrite length_rev. done.
Qed.

Lemma join_absolute_snoc (init : list string) (l : string) :
  join_absolute (init ++ [l])
  = concat_strings (map (fun seg => "/" +:+ seg) init) +:+ "/" +:+ l.
Proof.
  unfold join_absolute. destruct (init ++ [l])%list eqn:E0; [by destruct init|].
  rewrite <- E0, map_app, concat_strings_app. simpl. by rewrite app_empty_r.
Qed.

(** The directory name of a normalised path of at least one segment is
    the path without its last segment. *)
Lemma dirname_join (init : list string) (l : string) :
  Forall clean_segment init -> clean_segment l ->
  path_dirname (join_absolute (init ++ [l])) = join_absolute init.
Proof.
  intros Hi (Hl & Hne & _). rewrite join_absolute_snoc.
  destruct init as [|s init].
  - change (concat_strings (map (fun seg => "/" +:+ seg) [])) with "".
    rewrite app_empty_l, app_cons, app_empty_l. by apply dirname_top.
  - inversion Hi as [|? ? (_ & Hs & _) _]; subst.
    unfold join_absolute.
    change (concat_strings (map (fun seg => "/" +:+ seg) (s :: init)))
      with (("/" +:+ s) +:+ concat_strings (map (fun seg => "/" +:+ seg) init)).
    set (X := concat_strings (map (fun seg => "/" +:+ seg) init)).
    destruct s as [|c s]; [done|].
    rewrite !app_cons, !app_empty_l.
    change (String "/" (String c (s +:+ X) +:+ "/" +:+ l))
      with (String "/" (String c (s +:+ X) +:+ "/" +:+ l)).
    rewrite <- (dirname_nested c (s +:+ X) l Hl Hne) at 1.
    by rewrite !app_cons.
Qed.

Lemma ancestors_join (segs : list string) :
  Forall clean_segment segs -> ancestors (join_absolute segs) = prefixes_from "" segs.
Proof. intros H. unfold ancestors. by rewrite segments_join. Qed.

Lemma prefixes_from_length (base : string) (segs : list string) (x : string) :
  x ∈ prefixes_from base segs ->
  String.length x
  <= String.length base
     + String.length (concat_strings (map (fun seg => "/" +:+ seg) segs)).
Proof.
  revert base. induction segs as [|s segs IH]; intros base; simpl.
  - by intros ?%elem_of_nil.
  - intros [->|H]%elem_of_cons.
    + rewrite !length_app_s. simpl. lia.
    + apply IH in H. rewrite !length_app_s in *. simpl in *. lia.
Qed.

(** A normalised path is none of the ancestors of its directory. *)
Lemma not_own_ancestor (init : list string) (l : string) :
  Forall clean_segment init ->
  join_absolute (init ++ [l]) ∉ ancestors (join_absolute init).
Proof.
  intros Hi Hin. rewrite (ancestors_join _ Hi) in Hin.
  apply prefixes_from_length in Hin. rewrite join_absolute_snoc in Hin.
  rewrite !length_app_s in Hin. simpl in Hin. lia.
Qed.

(** After the ancestors of a normalised path have been made directories,
    the path is a directory. *)
Lemma made_directory (segs : list string) (fs : gmap string node) :
  Forall clean_segment segs ->
  lookup_node
    (foldr (fun a fs => <[a := Dir]> fs) fs (ancestors (join_absolute segs)))
    (join_absolute segs)
  = Some Dir.
Proof.
  intros Hs. unfold lookup_node.
  destruct (String.eqb_spec (join_absolute segs) "/"); [done|].
  rewrite mkdir_inserts, bool_decide_eq_true_2; [done|].
  rewrite (ancestors_join _ Hs). destruct segs as [|s segs]; [done|].
  pose proof (prefixes_from_last "" (s :: segs) ltac:(done)) as H.
  by rewrite app_empty_l in H.
Qed.

(** A resolved path, cut into the directory it lies in and its name. *)
Lemma resolved_cases (cwd : string) (args : list string) :
  path_resolve cwd args = "/"
  \/ exists init l,
       Forall clean_segment init /\ clean_segment l
       /\ path_resolve cwd args = join_absolute (init ++ [l])
       /\ path_dirname (path_resolve cwd args) = join_absolute init.
Proof.
  unfold path_resolve. set (segs := segments _).
  assert (Hc : Forall clean_segment segs) by apply segments_clean.
  clearbody segs. destruct (rev segs) as [|l r] eqn:E.
  - left. apply (f_equal (@rev string)) in E. rewrite rev_involutive in E. by subst.
  - right. apply (f_equal (@rev string)) in E. rewrite rev_involutive in E. simpl in E.
    subst segs. apply Forall_app in Hc as [Hi Hl]. inversion Hl; subst.
    exists (rev r), l. split; [done|]. split; [done|]. split; [done|].
    by apply dirname_join.
Qed.

Lemma find_none_of_all {A} (P : A -> bool) (l : list A) :
  (forall a, a ∈ l -> P a = false) -> find P l = None.
Proof.
  induction l as [|x l IH]; intros H; [done|]. simpl.
  rewrite (H x) by left. apply IH. intros a Ha. apply H. by right.
Qed.

(** The resolver's value depends on the file system only, and only on
    what is at the manifest's path. *)
Lemma getManifestId_value host config (w : World) :
  exists w',
    getManifestId host config w
    = (Normal (manifest_value host
                 (lookup_node (files w) (resolve host [root config; "manifest.json"]))),
       w')
    /\ files w' = files w.
Proof.
  set (m := resolve host [root config; "manifest.json"]).
  destruct (lookup_node (files w) m) as [[text|]|] eqn:E; unfold_manifest; fold m.
  - rewrite (exists_of_lookup _ _ _ E), E. simpl.
    destruct (JSON_parse host text) as [[|b|n|s|items|fields]|]; simpl; eauto.
    unfold js_or. destruct (lookup_field "id" fields) as [v|]; simpl; eauto.
  - rewrite (exists_of_lookup _ _ _ E), E. simpl. eauto.
  - rewrite (not_exists_of_lookup _ _ E). eauto.
Qed.

Lemma injectDevClient_value host config (html : string) (port : N) (w : World)
    (href : option string) :
  global_window host = Some href ->
  exists w',
    injectDevClient host config html port w
    = (Normal (rewriteUrls port
                 (replace_head html
                    (head_template port
                       (manifest_value host
                          (lookup_node (files w)
                             (resolve host [root config; "manifest.json"])))))),
       w')
    /\ files w' = files w.
Proof.
  intros Hw. destruct (getManifestId_value host config w) as (w' & E & F).
  exists w'. split; [|done].
  unfold injectDevClient, bind, window_href, ret. by rewrite E, Hw.
Qed.

(** What a write that goes through leaves behind. *)
Lemma writeEntrypoint_result host config (entry : Entrypoint) (port : N) (w : World)
    (text : string) (href : option string) :
  let src := resolve host [root config; input entry] in
  let out := resolve host [root config; output entry] in
  global_window host = Some href ->
  lookup_node (files w) src = Some (File text) ->
  (forall a, a ∈ ancestors (path_dirname out) -> is_file (files w) a = false) ->
  lookup_node (files w) out <> Some Dir ->
  exists html w0,
    injectDevClient host config text port w = (Normal html, w0)
    /\ (out ∉ ancestors (path_dirname out))
    /\ writeEntrypoint host config entry port w
       = (Normal tt,
          mkWorld (written (files w) out html)
            (console w0 ++ [Log (transformed_message entry)])%list).
Proof.
  intros src out Hw Hsrc Hclear Hout.
  destruct (injectDevClient_value host config text port w href Hw) as (w0 & R & Hf).
  set (html := rewriteUrls port _) in R.
  set (d := path_dirname out).
  exists html, w0.
  assert (Hcases : exists init l,
            Forall clean_segment init /\ out = join_absolute (init ++ [l])
            /\ d = join_absolute init).
  { destruct (resolved_cases (cwd host) [root config; output entry])
      as [E|(init & l & Hi & _ & E & Ed)].
    - exfalso. apply Hout. unfold out, resolve. rewrite E. done.
    - exists init, l. done. }
  destruct Hcases as (init & l & Hi & Eout & Ed).
  assert (Hnot : out ∉ ancestors d).
  { rewrite Eout, Ed. by apply not_own_ancestor. }
  split; [exact R|]. split; [exact Hnot|].
  unfold writeEntrypoint, bind, existsSync, readFileSync.
  fold src out. rewrite (exists_of_lookup _ _ _ Hsrc). simpl. rewrite Hsrc.
  rewrite R. fold d.
  unfold mkdirSync_recursive. rewrite find_none_of_all.
  2:{ intros a Ha. rewrite Hf. by apply Hclear. }
  unfold written. fold d. rewrite <- Hf.
  set (fs1 := foldr (fun a fs => <[a := Dir]> fs) (files w0) (ancestors d)).
  unfold writeFileSync, write_node. simpl. fold d.
  assert (L1 : lookup_node fs1 out = lookup_node (files w) out).
  { unfold lookup_node. destruct (String.eqb out "/"); [done|].
    unfold fs1. rewrite mkdir_inserts, bool_decide_eq_false_2 by done. by rewrite Hf. }
  assert (L2 : lookup_node fs1 d = Some Dir).
  { unfold fs1. rewrite Ed. by apply made_directory. }
  rewrite L1, L2.
  destruct (lookup_node (files w) out) as [[c|]|]; try done.
Qed.

Lemma written_lookup (fs : gmap string node) (out html p : string) :
  written fs out html !! p
  = if bool_decide (p = out) then Some (File html)
    else if bool_decide (p ∈ ancestors (path_dirname out)) then Some Dir
    else fs !! p.
Proof.
  unfold written. case_bool_decide as E.
  - subst. by rewrite lookup_insert_eq.
  - rewrite lookup_insert_ne by done. apply mkdir_inserts.
Qed.

(** ** Writing an entrypoint, the path that writes *)

(** X2. On a host with a window, when the source of an entrypoint is a
    regular file, no regular file stands where a directory of the
    destination has to be, and the destination is no directory,
    writeEntrypoint returns: the directories of the destination exist, the
    destination holds the transform of the source text for the given port,
    every other path is as it was, and the last console line is the
    success line of the entrypoint. *)
Theorem writeEntrypoint_writes (host : Host) (config : ResolvedConfig)
    (entry : Entrypoint) (port : N) (w : World) (text : string) (href : option string) :
  let src := resolve host [root config; input entry] in
  let out := resolve host [root config; output entry] in
  global_window host = Some href ->
  lookup_node (files w) src = Some (File text) ->
  (forall a, a ∈ ancestors (path_dirname out) -> is_file (files w) a = false) ->
  lookup_node (files w) out <> Some Dir ->
  exists html w0 w',
    injectDevClient host config text port w = (Normal html, w0)
    /\ writeEntrypoint host config entry port w = (Normal tt, w')
    /\ files w' !! out = Some (File html)
    /\ (forall a, a ∈ ancestors (path_dirname out) -> files w' !! a = Some Dir)
    /\ (forall p, p <> out -> p ∉ ancestors (path_dirname out) ->
                  files w' !! p = files w !! p)
    /\ console w' = (console w0 ++ [Log (transformed_message entry)])%list.
Proof.
  intros src out Hw Hsrc Hclear Hout.
  destruct (writeEntrypoint_result host config entry port w text href Hw Hsrc Hclear Hout)
    as (html & w0 & R & Hnot & E).
  fold out in Hnot, E.
  exists html, w0, (mkWorld (written (files w) out html)
                      (console w0 ++ [Log (transformed_message entry)])%list).
  split; [exact R|]. split; [exact E|]. simpl.
  split; [|split; [|split; [|done]]].
  - by rewrite written_lookup, bool_decide_eq_true_2.
  - intros a Ha. rewrite written_lookup.
    rewrite bool_decide_eq_false_2 by (intros ->; done).
    by rewrite bool_decide_eq_true_2.
  - intros p Hp Hna. rewrite written_lookup.
    by rewrite !bool_decide_eq_false_2.
Qed.

Lemma writeEntrypoint_writes_witness :
  exists html w0 w',
    injectDevClient Demo.browser_host Demo.config Demo.index_html 3000 Demo.world
    = (Normal html, w0)
    /\ writeEntrypoint Demo.browser_host Demo.config
         (mkEntrypoint "index.html" "dist/index.html") 3000 Demo.world
       = (Normal tt, w')
    /\ files w' !! "/proj/dist/index.html" = Some (File html)
    /\ files w' !! "/proj/dist" = Some Dir
    /\ files w' !! "/proj/manifest.json" = Some (File Demo.manifest_json)
    /\ console w'
       = (console w0
          ++ [Log (transformed_message (mkEntrypoint "index.html" "dist/index.html"))])%list.
Proof.
  destruct (writeEntrypoint_writes Demo.browser_host Demo.config
              (mkEntrypoint "index.html" "dist/index.html") 3000 Demo.world
              Demo.index_html (Some "http://localhost:5173/"))
    as (html & w0 & w' & R & E & F1 & F2 & F3 & C).
  - reflexivity.
  - vm_compute. reflexivity.
  - intros a Ha. vm_compute in Ha.
    repeat (apply elem_of_cons in Ha as [->|Ha]; [vm_compute; reflexivity|]).
    by apply elem_of_nil in Ha.
  - vm_compute. discriminate.
  - exists html, w0, w'. split; [exact R|]. split; [exact E|]. split; [exact F1|].
    split; [apply F2; vm_compute; right; left|]. split; [|exact C].
    rewrite F3; [vm_compute; reflexivity|vm_compute; discriminate|].
    vm_compute. intros Ha.
    repeat (apply elem_of_cons in Ha as [Ha|Ha]; [discriminate Ha|]).
    by apply elem_of_nil in Ha.
Defined.

(** X4. Writing an entrypoint again changes nothing in the file system:
    under the conditions of a write that goes through, and when the
    destination is neither the source nor the manifest, a second
    writeEntrypoint returns and leaves every path as the first one left
    it.  The transform reads the source, never its own output. *)
Theorem writeEntrypoint_twice (host : Host) (config : ResolvedConfig)
    (entry : Entrypoint) (port : N) (w : World) (text : string) (href : option string) :
  let src := resolve host [root config; input entry] in
  let out := resolve host [root config; output entry] in
  global_window host = Some href ->
  lookup_node (files w) src = Some (File text) ->
  (forall a, a ∈ ancestors (path_dirname out) -> is_file (files w) a = false) ->
  lookup_node (files w) out <> Some Dir ->
  out <> src ->
  out <> resolve host [root config; "manifest.json"] ->
  exists w1 w2,
    writeEntrypoint host config entry port w = (Normal tt, w1)
    /\ writeEntrypoint host config entry port w1 = (Normal tt, w2)
    /\ files w2 = files w1.
Proof.
  intros src out Hw Hsrc Hclear Hout Hos Hom.
  set (m := resolve host [root config; "manifest.json"]) in *.
  destruct (writeEntrypoint_result host config entry port w text href Hw Hsrc Hclear Hout)
    as (html & w0 & R & Hnot & E1).
  fold out in Hnot, E1.
  destruct (injectDevClient_value host config text port w href Hw) as (w0' & R' & _).
  rewrite R in R'. injection R' as Hhtml _. fold m in Hhtml.
  set (w1 := mkWorld (written (files w) out html)
               (console w0 ++ [Log (transformed_message entry)])%list) in *.
  assert (Hroot : out <> "/").
  { intros Er. apply Hout. by rewrite Er. }
  assert (Lk : forall p, lookup_node (files w1) p
                         = if bool_decide (p = out) then Some (File html)
                           else if bool_decide (p ∈ ancestors (path_dirname out))
                                then Some Dir
                                else lookup_node (files w) p).
  { intros p. unfold lookup_node. simpl. rewrite written_lookup.
    destruct (String.eqb_spec p "/") as [->|]; [|done].
    rewrite bool_decide_eq_false_2 by done. by case_bool_decide. }
  assert (Hsrc_anc : src ∉ ancestors (path_dirname out)).
  { intros Hin. specialize (Hclear _ Hin). unfold is_file in Hclear.
    by rewrite Hsrc in Hclear. }
  assert (Hsrc1 : lookup_node (files w1) src = Some (File text)).
  { rewrite Lk, !bool_decide_eq_false_2 by done. done. }
  assert (Hclear1 : forall a, a ∈ ancestors (path_dirname out) ->
                              is_file (files w1) a = false).
  { intros a Ha. unfold is_file. rewrite Lk.
    rewrite bool_decide_eq_false_2 by (intros ->; done).
    by rewrite bool_decide_eq_true_2. }
  assert (Hout1 : lookup_node (files w1) out <> Some Dir).
  { rewrite Lk, bool_decide_eq_true_2 by done. done. }
  destruct (writeEntrypoint_result host config entry port w1 text href
              Hw Hsrc1 Hclear1 Hout1)
    as (html1 & w01 & R1 & _ & E2).
  fold out in E2.
  destruct (injectDevClient_value host config text port w1 href Hw) as (w01' & R1' & _).
  rewrite R1 in R1'. injection R1' as Hhtml1 _. fold m in Hhtml1.
  assert (Hm : manifest_value host (lookup_node (files w1) m)
               = manifest_value host (lookup_node (files w) m)).
  { rewrite Lk. rewrite bool_decide_eq_false_2 by done.
    case_bool_decide as Hin; [|done].
    specialize (Hclear _ Hin). unfold is_file in Hclear.
    by destruct (lookup_node (files w) m) as [[|]|]. }
  assert (Hsame : html1 = html).
  { rewrite Hhtml1. change (written (files w) out html) with (files w1).
    rewrite Hm. symmetry. exact Hhtml. }
  clear Hhtml1. subst html1.
  eexists w1, _. split; [exact E1|]. split; [exact E2|]. simpl.
  apply map_eq. intros p. rewrite !written_lookup.
  case_bool_decide; [done|]. by case_bool_decide.
Qed.

Lemma writeEntrypoint_twice_witness :
  exists w1 w2,
    writeEntrypoint Demo.browser_host Demo.config
      (mkEntrypoint "index.html" "dist/index.html") 3000 Demo.world
    = (Normal tt, w1)
    /\ writeEntrypoint Demo.browser_host Demo.config
         (mkEntrypoint "index.html" "dist/index.html") 3000 w1
       = (Normal tt, w2)
    /\ files w2 = files w1.
Proof.
  apply (writeEntrypoint_twice Demo.browser_host Demo.config
           (mkEntrypoint "index.html" "dist/index.html") 3000 Demo.world
           Demo.index_html (Some "http://localhost:5173/")).
  - reflexivity.
  - vm_compute. reflexivity.
  - intros a Ha. vm_compute in Ha.
    repeat (apply elem_of_cons in Ha as [->|Ha]; [vm_compute; reflexivity|]).
    by apply elem_of_nil in Ha.
  - vm_compute. discriminate.
  - vm_compute. discriminate.
  - vm_compute. discriminate.
Defined.

(** X3. When the source path of an entrypoint is a directory (an empty
    input resolves to the root itself), writeEntrypoint throws the EISDIR
    error of the read and leaves the world as it was: nothing is written
    and nothing is logged. *)
Theorem writeEntrypoint_source_is_directory (host : Host) (config : ResolvedConfig)
    (entry : Entrypoint) (port : N) (w : World) :
  lookup_node (files w) (resolve host [root config; input entry]) = Some Dir ->
  writeEntrypoint host config entry port w
  = (Throw (FsError "EISDIR" (resolve host [root config; input entry])), w).
Proof.
  intros H. unfold writeEntrypoint, bind, existsSync, readFileSync.
  rewrite (exists_of_lookup _ _ _ H). simpl. by rewrite H.
Qed.

Lemma writeEntrypoint_source_is_directory_witness :
  writeEntrypoint Demo.browser_host Demo.config (mkEntrypoint "" "dist/index.html") 5173
    Demo.world
  = (Throw (FsError "EISDIR" "/proj"), Demo.world).
Proof.
  apply (writeEntrypoint_source_is_directory Demo.browser_host Demo.config
           (mkEntrypoint "" "dist/index.html") 5173 Demo.world).
  vm_compute. reflexivity.
Defined.

(** ** Writing every entrypoint *)

Lemma for_each_missing host config (port : N) (entries : list Entrypoint) (w : World) :
  (forall e, e ∈ entries ->
             lookup_node (files w) (resolve host [root config; input e]) = None) ->
  for_each (fun entry => writeEntrypoint host config entry port) entries w
  = (Normal tt,
     mkWorld (files w) (console w ++ map (source_not_found host config) entries)).
Proof.
  revert w. induction entries as [|e entries IH]; intros w H; simpl.
  - rewrite app_nil_r. by destruct w.
  - unfold bind at 1. unfold writeEntrypoint at 1. unfold bind, existsSync, console_warn.
    rewrite (not_exists_of_lookup _ _ (H e ltac:(left))). simpl.
    rewrite IH; simpl.
    + by rewrite <- app_assoc.
    + intros e' He'. apply H. by right.
Qed.

(** X8. When no entrypoint has its source, writeAll returns and leaves
    the file system as it was; the console receives one warning for each
    entrypoint, in their order, naming the resolved source path. *)
Theorem writeAll_missing_sources (host : Host) (config : ResolvedConfig)
    (options : Options) (server : ViteDevServer) (st : PluginState) (w : World) :
  (forall e, e ∈ entrypoints options ->
             lookup_node (files w) (resolve host [root config; input e]) = None) ->
  writeAll host config options server st w
  = (Normal tt,
     mkWorld (files w)
       (console w ++ map (source_not_found host config) (entrypoints options))).
Proof. intros H. unfold writeAll. by apply for_each_missing. Qed.

Lemma writeAll_missing_sources_witness :
  writeAll Demo.node_host Demo.config
    (mkOptions [mkEntrypoint "a.html" "dist/a.html"; mkEntrypoint "b.html" "dist/b.html"])
    Demo.server initial_state Demo.world
  = (Normal tt,
     mkWorld (files Demo.world)
       [Warn "[bks] Source HTML not found: /proj/a.html";
        Warn "[bks] Source HTML not found: /proj/b.html"]).
Proof.
  apply (writeAll_missing_sources Demo.node_host Demo.config
           (mkOptions [mkEntrypoint "a.html" "dist/a.html";
                       mkEntrypoint "b.html" "dist/b.html"])
           Demo.server initial_state Demo.world).
  intros e He. vm_compute in He.
  repeat (apply elem_of_cons in He as [->|He]; [vm_compute; reflexivity|]).
  by apply elem_of_nil in He.
Defined.

(** ** The listening listener *)

Lemma devPort_not_zero (fromServer configured : option N) :
  devPort_of fromServer configured <> 0%N.
Proof.
  unfold devPort_of, truthy_port.
  destruct fromServer as [[|p]|]; try done; by destruct configured as [[|q]|].
Qed.

(** X7. The listening listener.  It stores the port of the address the
    server reports when that address is an object with a port other than
    zero, and leaves the stored port as it was for a null address, a pipe
    name and port zero.  It then writes every entrypoint with one port,
    which is never zero: the stored port when there is one, else the
    configured port when that is not zero, else 5173.  Being registered
    with once, it is gone afterwards: a second listening event changes
    nothing and writes nothing. *)
Theorem listening_listener_contract (host : Host) (config : ResolvedConfig)
    (options : Options) (server : ViteDevServer) (st : PluginState)
    (addr addr' : address) :
  listening_once st = true ->
  let st' := listening_state addr st in
  (forall p, addr = AddrInfo p -> p <> 0%N -> portFromServer st' = Some p)
  /\ (addr = AddrNull \/ (exists name, addr = AddrPipe name) \/ addr = AddrInfo 0 ->
      portFromServer st' = portFromServer st)
  /\ (exists port,
        port <> 0%N
        /\ port = devPort_of (portFromServer st') (server_port (srv_config server))
        /\ emit_listening host config options server addr st
           = for_each (fun entry => writeEntrypoint host config entry port)
               (entrypoints options))
  /\ listening_state addr' st' = st'
  /\ emit_listening host config options server addr' st' = ret tt.
Proof.
  intros Hon st'. unfold st', listening_state, emit_listening. rewrite Hon. simpl.
  split; [|split; [|split; [|done]]].
  - intros p -> Hp. by destruct p.
  - intros [->|[[name ->]| ->]]; done.
  - eexists. split; [apply devPort_not_zero|]. split; [reflexivity|].
    unfold writeAll. by destruct addr as [| |[|p]].
Qed.

Lemma listening_listener_contract_witness :
  let st := register Demo.browser_host Demo.config default_options Demo.server
              initial_state in
  portFromServer (listening_state (AddrInfo 5174) st) = Some 5174%N
  /\ emit_listening Demo.browser_host Demo.config default_options Demo.server
       (AddrInfo 5174) st
     = for_each (fun entry => writeEntrypoint Demo.browser_host Demo.config entry 5174)
         (entrypoints default_options).
Proof.
  intros st.
  destruct (listening_listener_contract Demo.browser_host Demo.config default_options
              Demo.server st (AddrInfo 5174) AddrNull)
    as (H1 & _ & (port & _ & Hp & H3) & _); [reflexivity|].
  split; [by apply H1|].
  rewrite H3, Hp, (H1 5174%N eq_refl ltac:(done)). reflexivity.
Defined.

(** ** Starting the server *)

Lemma copyDevFiles_returns host config options (w : World) :
  exists w', copyDevFiles host config options w = (Normal tt, w').
Proof.
  unfold copyDevFiles, try_catch, copyDevFiles_try, bind, console_log,
    console_warn_error.
  destruct (for_each _ _ w) as [[[]|e] w1]; eauto.
Qed.

Lemma watchFiles_watched host config options (server : ViteDevServer) (st : PluginState) :
  watched (watchFiles host config options server st)
  = (watched st
     ++ map (fun entry => resolve host [root config; input entry]) (entrypoints options))%list.
Proof.
  unfold watchFiles.
  generalize (devPort_of (portFromServer st) (server_port (srv_config server))) as devPort.
  intros devPort. revert st.
  induction (entrypoints options) as [|entry rest IH]; intros st; simpl.
  - by rewrite app_nil_r.
  - rewrite IH. simpl. by rewrite <- app_assoc.
Qed.

(** X9. configureServer never throws, whatever the file system holds.
    Starting from a fresh plugin it leaves the stored port unset, installs
    the identity endpoint before the origin guard, registers the listening
    listener exactly when the server has an http server, and adds one
    watched path and one change listener for each entrypoint, in order:
    the resolved input path, with a port that is the configured port when
    that is not zero and 5173 otherwise. *)
Theorem configureServer_contract (host : Host) (config : ResolvedConfig)
    (options : Options) (server : ViteDevServer) (w : World) :
  exists st w',
    configureServer host config options server initial_state w = (Normal st, w')
    /\ portFromServer st = None
    /\ middlewares st = [InfoEndpoint; OriginGuard]
    /\ listening_once st = httpServer server
    /\ watched st
       = map (fun entry => resolve host [root config; input entry]) (entrypoints options)
    /\ change_handlers st
       = map (fun entry =>
                mkHandler entry (resolve host [root config; input entry])
                  (match server_port (srv_config server) with
                   | Some (Npos p) => Npos p
                   | _ => 5173%N
                   end))
           (entrypoints options).
Proof.
  destruct (copyDevFiles_returns host config options w) as (w' & E).
  exists (register host config options server initial_state), w'.
  split; [unfold configureServer, bind, ret; by rewrite E|].
  unfold register.
  destruct (watchFiles_fields host config options server
              (mkState None ([] ++ [InfoEndpoint; OriginGuard])
                 (false || httpServer server) [] []))
    as (P & M & L & C).
  rewrite watchFiles_watched.
  simpl in *. rewrite P, M, L, C. repeat split; try done.
  apply map_ext. intros e. f_equal. by destruct (server_port _) as [[|p]|].
Qed.

(** ** The URL rewrite at its edges *)

(** A text in which no match opens is copied as it is. *)
Lemma rewriteUrls_identity (port : N) (s : string) :
  ~ has_opening s -> rewriteUrls port s = s.
Proof.
  intros H. rewrite <- (app_empty_r s) at 1. rewrite rewriteUrls_prefix.
  - by rewrite app_empty_r.
  - intros a1 a2 -> Hne. rewrite app_empty_r.
    destruct (match_url_at a2) as [[[attr x] rest]|] eqn:E; [|done].
    exfalso. apply H.
    apply match_url_at_elim in E as (Ha & q & q' & Hq & _ & _ & _ & ->).
    exists a1, attr, q, (x +:+ String q' rest). done.
Qed.

(** X10. Two values at the edge of the second pattern, after a text in
    which no match opens.  A src or href whose value is a lone slash is
    copied as it is: the pattern wants at least one character after the
    slash.  A value that starts with two slashes, a protocol-relative URL,
    is rewritten like any path: it comes out as http://localhost:port
    followed by the two slashes and the rest, in double quotes. *)
Theorem rewriteUrls_edge_values (port : N) (pre attr x post : string) (q q' : ascii) :
  attr = "src" \/ attr = "href" ->
  is_quote q = true -> is_quote q' = true ->
  ~ has_opening pre ->
  rewriteUrls port (pre +:+ attr +:+ "=" +:+ String q ("/" +:+ String q' post))
  = pre +:+ attr +:+ "=" +:+ String q ("/" +:+ String q' (rewriteUrls port post))
  /\ (unquoted x = true ->
      rewriteUrls port
        (pre +:+ attr +:+ "=" +:+ String q ("//" +:+ x +:+ String q' post))
      = pre +:+ attr +:+ "=" +:+ dq +:+ "http://localhost:" +:+ pretty port +:+ "//"
        +:+ x +:+ dq +:+ rewriteUrls port post).
Proof.
  intros Ha Hq Hq' Hfree. split.
  - rewrite rewriteUrls_prefix.
    + f_equal.
      destruct Ha as [-> | ->];
        destruct (is_quote_cases q Hq) as [-> | ->];
        destruct (is_quote_cases q' Hq') as [-> | ->];
        rewrite !app_cons, !app_empty_l;
        repeat (rewrite rewriteUrls_no_match by reflexivity);
        reflexivity.
    + destruct Ha as [-> | ->]; rewrite app_cons;
        eapply no_start_before_attr; eauto.
  - intros Hx. rewrite rewriteUrls_prefix.
    + f_equal.
      replace (attr +:+ "=" +:+ String q ("//" +:+ x +:+ String q' post))
        with (attr +:+ "=" +:+ String q ("/" +:+ ("/" +:+ x) +:+ String q' post))
        by (by rewrite !app_cons, !app_empty_l).
      rewrite (rewriteUrls_match port _ attr ("/" +:+ x) post).
      * unfold url_replacement. rewrite <- !app_assoc_s.
        by rewrite !app_cons, !app_empty_l.
      * by apply match_url_at_intro.
    + destruct Ha as [-> | ->]; rewrite app_cons;
        eapply no_start_before_attr; eauto.
Qed.

Lemma rewriteUrls_edge_values_witness :
  rewriteUrls 5173 ("<a " +:+ "href" +:+ "=" +:+ String dq_char ("/" +:+ String dq_char ">"))
  = "<a " +:+ "href" +:+ "=" +:+ String dq_char ("/" +:+ String dq_char (rewriteUrls 5173 ">"))
  /\ rewriteUrls 5173
       ("<a " +:+ "href" +:+ "="
        +:+ String dq_char ("//" +:+ "cdn.example.com/a.js" +:+ String dq_char ">"))
     = "<a " +:+ "href" +:+ "=" +:+ dq +:+ "http://localhost:" +:+ pretty 5173%N +:+ "//"
       +:+ "cdn.example.com/a.js" +:+ dq +:+ rewriteUrls 5173 ">".
Proof.
  destruct (rewriteUrls_edge_values 5173 "<a " "href" "cdn.example.com/a.js" ">"
              dq_char dq_char)
    as (H1 & H2); try (vm_compute; reflexivity);
    [auto|apply opening_free_spec; vm_compute; reflexivity|].
  split; [exact H1|apply H2; vm_compute; reflexivity].
Defined.

(** ** What the transform reads and what it leaves alone *)

Lemma getManifestId_ext (host1 host2 : Host) config (w : World) :
  cwd host1 = cwd host2 ->
  (forall text, JSON_parse host1 text = JSON_parse host2 text) ->
  getManifestId host1 config w = getManifestId host2 config w.
Proof.
  intros Hc Hp. unfold_manifest. unfold resolve. rewrite Hc.
  destruct (bool_decide _); [|done].
  destruct (lookup_node (files w) _) as [[text|]|]; try done.
  by rewrite Hp.
Qed.

(** X11. The transform does not depend on where the window is.  Two
    hosts that have a window, the same working directory and the same JSON
    reader give the same result and leave the same world, whatever their
    window's location and their encodeURIComponent: the error URL computed
    from them is never used. *)
Theorem injectDevClient_ignores_location (host1 host2 : Host) (config : ResolvedConfig)
    (html : string) (port : N) (w : World) (href1 href2 : option string) :
  cwd host1 = cwd host2 ->
  (forall text, JSON_parse host1 text = JSON_parse host2 text) ->
  global_window host1 = Some href1 ->
  global_window host2 = Some href2 ->
  injectDevClient host1 config html port w = injectDevClient host2 config html port w.
Proof.
  intros Hc Hp H1 H2. unfold injectDevClient, bind, window_href, ret.
  rewrite (getManifestId_ext host1 host2 config w Hc Hp), H1, H2.
  by destruct (getManifestId host2 config w) as [[id|e] w'].
Qed.

Lemma injectDevClient_ignores_location_witness :
  injectDevClient (Demo.with_window "http://localhost:5173/") Demo.config
    Demo.index_html 5173 Demo.world
  = injectDevClient (Demo.with_window "plugin://abc123/index.html?x=1") Demo.config
      Demo.index_html 5173 Demo.world.
Proof.
  apply (injectDevClient_ignores_location
           (Demo.with_window "http://localhost:5173/")
           (Demo.with_window "plugin://abc123/index.html?x=1")
           Demo.config Demo.index_html 5173 Demo.world
           (Some "http://localhost:5173/") (Some "plugin://abc123/index.html?x=1"));
    reflexivity.
Defined.

(** A text is without a head tag exactly when the first pattern finds
    nothing. *)
Lemma headless_spec (s : string) : find_head s = None <-> headless s.
Proof.
  split.
  - intros Hn p t r -> Ht.
    destruct (find_head_complete p t r Ht) as (pre & tag & post & E & Hl).
    rewrite E, (find_head_leftmost _ _ _ Hl) in Hn. done.
  - intros H. destruct (find_head s) as [[[pre tag] post]|] eqn:E; [|done].
    apply find_head_sound in E as (Hs & Ht & _). by destruct (H pre tag post Hs).
Qed.

(** X12. On a host with a window, an input without a head tag in which
    no match of the second pattern opens comes back unchanged, and the
    file system is as it was. *)
Theorem injectDevClient_identity (host : Host) (config : ResolvedConfig)
    (html : string) (port : N) (w : World) (href : option string) :
  global_window host = Some href ->
  headless html -> ~ has_opening html ->
  exists w',
    injectDevClient host config html port w = (Normal html, w')
    /\ files w' = files w.
Proof.
  intros Hw Hh Ho.
  destruct (injectDevClient_returns host config html port w href Hw)
    as (id & w' & _ & F & R).
  exists w'. split; [|done].
  by rewrite R, replace_head_headless, rewriteUrls_identity.
Qed.

Lemma injectDevClient_identity_witness :
  exists w',
    injectDevClient Demo.browser_host Demo.config "<p>hello</p>" 5173 Demo.world
    = (Normal "<p>hello</p>", w')
    /\ files w' = files Demo.world.
Proof.
  apply (injectDevClient_identity Demo.browser_host Demo.config "<p>hello</p>" 5173
           Demo.world (Some "http://localhost:5173/")).
  - reflexivity.
  - apply headless_spec. vm_compute. reflexivity.
  - apply opening_free_spec. vm_compute. reflexivity.
Defined.

Lemma replace_head_length (html : string) (port : N) (id : json) :
  String.length html <= String.length (replace_head html (head_template port id)).
Proof.
  destruct (find_head html) as [[[pre tag] post]|] eqn:E.
  - apply find_head_sound in E as (-> & Hl).
    rewrite (replace_head_leftmost _ _ _ port id Hl).
    rewrite !length_app_s. lia.
  - unfold replace_head. by rewrite E.
Qed.

Lemma getManifestId_console host config (w : World) :
  exists v w',
    getManifestId host config w = (Normal v, w')
    /\ files w' = files w
    /\ (console w' = console w
        \/ exists e, console w'
                     = (console w ++ [WarnError "[bks] Could not read manifest.json: " e])%list).
Proof.
  unfold_manifest.
  destruct (bool_decide _); [|eauto 10].
  destruct (lookup_node (files w) _) as [[text|]|]; simpl; [|eauto 10..].
  destruct (JSON_parse host text) as [[]|]; simpl; eauto 10.
Qed.

(** X13. On a host with a window, when the identity the manifest gives
    is no object and no array (a string, the empty string of a missing or
    unreadable manifest, a number, true), the transform returns for every
    input.  It only reads: the file system is as it was, and the console
    has at most one more line, the warning of the manifest resolver.  It
    only adds: the output is at least as long as the input. *)
Theorem injectDevClient_only_adds (host : Host) (config : ResolvedConfig)
    (html : string) (port : N) (w : World) (href : option string) :
  global_window host = Some href ->
  is_primitive
    (manifest_value host
       (lookup_node (files w) (resolve host [root config; "manifest.json"]))) = true ->
  exists out w',
    injectDevClient host config html port w = (Normal out, w')
    /\ files w' = files w
    /\ (console w' = console w
        \/ exists e, console w'
                     = (console w ++ [WarnError "[bks] Could not read manifest.json: " e])%list)
    /\ String.length html <= String.length out.
Proof.
  intros Hw _. destruct (getManifestId_console host config w) as (id & w' & E & F & C).
  exists (rewriteUrls port (replace_head html (head_template port id))), w'.
  split; [|split; [done|split; [done|]]].
  - unfold injectDevClient, bind, window_href, ret. by rewrite E, Hw.
  - pose proof (replace_head_length html port id).
    pose proof (rewriteUrls_length port (replace_head html (head_template port id))).
    lia.
Qed.

Lemma injectDevClient_only_adds_witness :
  exists out w',
    injectDevClient Demo.browser_host Demo.config Demo.index_html 5173 Demo.world
    = (Normal out, w')
    /\ files w' = files Demo.world
    /\ (console w' = console Demo.world
        \/ exists e, console w'
                     = (console Demo.world
                        ++ [WarnError "[bks] Could not read manifest.json: " e])%list)
    /\ String.length Demo.index_html <= String.length out.
Proof.
  apply (injectDevClient_only_adds Demo.browser_host Demo.config Demo.index_html 5173
           Demo.world (Some "http://localhost:5173/")).
  - reflexivity.
  - vm_compute. reflexivity.
Defined.

(** ** The two middlewares together *)

Lemma starts_with_app (p s : string) : starts_with p (p +:+ s) = true.
Proof.
  unfold starts_with. induction p as [|c p IH]; [by destruct s|].
  rewrite app_cons. simpl. by destruct (ascii_dec c c).
Qed.

(** X14. The identity the endpoint reports is the identity the guard
    accepts.  The endpoint answers with the manifest identity; a request
    that then comes, from whatever URL, with the origin plugin:// followed
    by that identity printed as a string is let through by the guard, as
    long as the file system has not changed. *)
Theorem reported_identity_is_accepted (host : Host) (config : ResolvedConfig)
    (o : option string) (w : World) :
  exists id w1,
    info_endpoint host config (mkRequest info_path o) w
    = (Normal (Ended (mkResponse 200
                        [("Content-Type", "application/json");
                         ("Access-Control-Allow-Origin", "*")]
                        (JSON_stringify host (JObj [("manifestId", id)])))),
       w1)
    /\ forall url w2,
         files w2 = files w1 ->
         exists w3,
           origin_guard host config
             (mkRequest url (Some ("plugin://" +:+ to_js_string id))) w2
           = (Normal Next, w3).
Proof.
  destruct (getManifestId_value host config w) as (w1 & E & F).
  set (id := manifest_value host _) in E.
  exists id, w1. split.
  - unfold info_endpoint, bind, ret. simpl. by rewrite E.
  - intros url w2 F2. unfold origin_guard. simpl.
    rewrite starts_with_app.
    destruct (getManifestId_value host config w2) as (w3 & E2 & _).
    unfold bind, ret. rewrite E2, F2, F. fold id. rewrite String.eqb_refl.
    exists w3. by rewrite andb_false_r.
Qed.

(** X15. A request for any other URL than the identity endpoint's, with
    no Origin header or with one that does not start with plugin://,
    passes both middlewares in the order they were installed and reaches
    the server's own handlers; the world is as it was: the manifest is not
    read and nothing is logged. *)
Theorem ordinary_requests_pass (host : Host) (config : ResolvedConfig)
    (options : Options) (server : ViteDevServer) (req : Request) (w : World) :
  url req <> info_path ->
  (forall o, origin req = Some o -> starts_with "plugin://" o = false) ->
  handle_request host config
    (middlewares (register host config options server initial_state)) req w
  = (Normal Next, w).
Proof.
  intros Hu Ho. rewrite registered_middlewares. simpl.
  unfold bind, info_endpoint, origin_guard, ret.
  destruct (String.eqb_spec (url req) info_path); [done|].
  destruct (origin req) as [o|]; [|done].
  rewrite (Ho o eq_refl). by rewrite andb_false_r.
Qed.

Lemma ordinary_requests_pass_witness :
  handle_request Demo.node_host Demo.config
    (middlewares (register Demo.node_host Demo.config default_options Demo.server
                    initial_state))
    (mkRequest "/index.html" (Some "https://example.com")) Demo.world
  = (Normal Next, Demo.world).
Proof.
  apply (ordinary_requests_pass Demo.node_host Demo.config default_options Demo.server
           (mkRequest "/index.html" (Some "https://example.com")) Demo.world).
  - vm_compute. discriminate.
  - intros o [= <-]. vm_compute. reflexivity.
Defined.

(** ** Resolving against a normalised path *)

Lemma split_on_app (a b : string) :
  split_on "/" (a +:+ "/" +:+ b) = (split_on "/" a ++ split_on "/" b)%list.
Proof.
  induction a as [|c a IH].
  - by rewrite app_empty_l, app_cons, app_empty_l.
  - rewrite app_cons. simpl. rewrite IH.
    destruct (Ascii.eqb c "/"); [done|].
    rewrite (split_on_cons a). done.
Qed.

Lemma split_on_segment (s : string) : no_slash s = true -> split_on "/" s = [s].
Proof.
  induction s as [|c s IH]; [done|]. intros H.
  apply andb_true_iff in H as [Hc H]. apply negb_true_iff in Hc.
  simpl. by rewrite Hc, (IH H).
Qed.

(** What can stand before the accumulator when path.resolve stops. *)
Lemma resolve_from_acc (l : list string) (acc : string) :
  exists y, resolve_from l acc = y +:+ acc /\ (y = "" \/ exists y', y = y' +:+ "/").
Proof.
  revert acc. induction l as [|p l IH]; intros acc; simpl.
  - exists "". by rewrite app_empty_l; auto.
  - destruct (String.eqb p ""); [apply IH|].
    destruct (is_absolute p).
    + exists (p +:+ "/"). split; [by rewrite <- app_assoc_s|eauto].
    + destruct (IH (p +:+ "/" +:+ acc)) as (y & -> & _).
      exists ((y +:+ p) +:+ "/"). split; [by rewrite <- !app_assoc_s|eauto].
Qed.

(** The segments of a text that ends in [acc], from the stack the text
    before [acc] leaves. *)
Lemma segments_after (y acc : string) :
  y = "" \/ (exists y', y = y' +:+ "/") ->
  exists stack,
    Forall clean_segment stack
    /\ segments (y +:+ acc) = rev (fold_left normalize_step (split_on "/" acc) stack).
Proof.
  intros [->|[y' ->]].
  - exists []. split; [constructor|]. by rewrite app_empty_l.
  - exists (fold_left normalize_step (split_on "/" y') []). split.
    + apply normalize_fold_clean; [apply split_on_no_slash|constructor].
    + unfold segments, normalize_segments.
      by rewrite <- app_assoc_s, split_on_app, fold_left_app.
Qed.

(** A last argument that is relative decides how the resolved path
    ends. *)
Lemma resolve_relative_last (cwd : string) (args : list string) (b : string) :
  b <> "" -> is_absolute b = false ->
  exists stack,
    Forall clean_segment stack
    /\ path_resolve cwd (args ++ [b])
       = join_absolute
           (rev (fold_left normalize_step (split_on "/" (b +:+ "/" +:+ "")) stack)).
Proof.
  intros Hb Ha. unfold path_resolve. rewrite rev_app_distr. simpl.
  destruct (String.eqb_spec b ""); [done|]. rewrite Ha.
  destruct (resolve_from_acc (rev args ++ [cwd]) (b +:+ "/" +:+ "")) as (y & -> & Hy).
  destruct (segments_after y (b +:+ "/" +:+ "") Hy) as (stack & Hc & ->).
  by exists stack.
Qed.

Lemma fold_normalize_join (segs : list string) :
  Forall clean_segment segs ->
  fold_left normalize_step (split_on "/" (join_absolute segs)) [] = rev segs.
Proof.
  intros H. pose proof (segments_join segs H) as E.
  unfold segments, normalize_segments in E.
  apply (f_equal (@rev string)) in E. by rewrite rev_involutive in E.
Qed.

Lemma join_absolute_is_absolute (segs : list string) :
  is_absolute (join_absolute segs) = true.
Proof.
  destruct segs as [|s segs]; [done|]. unfold join_absolute. simpl.
  rewrite !app_cons. unfold is_absolute, starts_with. simpl.
  by destruct (_ +:+ _).
Qed.

Lemma join_absolute_not_empty (segs : list string) : join_absolute segs <> "".
Proof. destruct segs as [|s segs]; [done|]. unfold join_absolute. simpl. by rewrite app_cons. Qed.

Lemma segment_is_relative (s : string) : no_slash s = true -> is_absolute s = false.
Proof.
  destruct s as [|c s]; [done|]. intros H.
  apply andb_true_iff in H as [Hc _]. apply negb_true_iff in Hc.
  unfold is_absolute, starts_with.
  change (String.prefix "/" (String c s))
    with (if ascii_dec "/" c then String.prefix "" s else false).
  destruct (ascii_dec "/" c) as [<-|]; [discriminate Hc|done].
Qed.

(** Resolving a name against a normalised path appends the name. *)
Lemma resolve_child (cwd : string) (segs : list string) (name : string) :
  Forall clean_segment segs -> clean_segment name ->
  path_resolve cwd [join_absolute segs; name] = join_absolute (segs ++ [name]).
Proof.
  intros Hs (Hn & Hne & H1 & H2). unfold path_resolve. simpl.
  destruct (String.eqb_spec name ""); [done|].
  rewrite (segment_is_relative name Hn).
  destruct (String.eqb_spec (join_absolute segs) "") as [E|_];
    [by destruct (join_absolute_not_empty segs)|].
  rewrite join_absolute_is_absolute. f_equal.
  unfold segments, normalize_segments.
  rewrite split_on_app, fold_left_app, (fold_normalize_join _ Hs).
  rewrite split_on_app, (split_on_segment _ Hn). simpl.
  unfold normalize_step at 2.
  destruct (String.eqb_spec name ""); [done|].
  destruct (String.eqb_spec name "."); [done|]. simpl.
  destruct (String.eqb_spec name ".."); [done|].
  change (normalize_step (name :: rev segs) "") with (name :: rev segs).
  simpl. by rewrite rev_involutive.
Qed.

Lemma resolve_shape (cwd : string) (args : list string) :
  exists segs, Forall clean_segment segs /\ path_resolve cwd args = join_absolute segs.
Proof. eexists. split; [apply segments_clean|done]. Qed.

(** Resolving a resolved path gives it back. *)
Lemma resolve_idempotent (cwd : string) (args : list string) :
  path_resolve cwd [path_resolve cwd args] = path_resolve cwd args.
Proof.
  destruct (resolve_shape cwd args) as (segs & Hs & ->).
  unfold path_resolve at 1. simpl.
  destruct (String.eqb_spec (join_absolute segs) "") as [E|_];
    [by destruct (join_absolute_not_empty segs)|].
  rewrite join_absolute_is_absolute. f_equal.
  unfold segments, normalize_segments.
  rewrite split_on_app, fold_left_app, (fold_normalize_join _ Hs).
  change (fold_left normalize_step (split_on "/" "") (rev segs)) with (rev segs).
  by rewrite rev_involutive.
Qed.

Lemma join_absolute_inj (a b : list string) :
  Forall clean_segment a -> Forall clean_segment b ->
  join_absolute a = join_absolute b -> a = b.
Proof.
  intros Ha Hb E. apply (f_equal segments) in E. by rewrite !segments_join in E.
Qed.

(** ** Change notifications *)

Lemma filter_none {A} (P : A -> Prop) `{forall x, Decision (P x)} (l : list A) :
  (forall x, x ∈ l -> ~ P x) -> filter P l = [].
Proof.
  induction l as [|x l IH]; intros Hno; [done|].
  rewrite filter_cons_False by (apply Hno; left).
  apply IH. intros y Hy. apply Hno. by right.
Qed.

(** X6. A change notification runs one write for each listener whose
    path is the resolved changed path, in registration order and with the
    port each listener holds; when no listener has that path nothing
    happens at all.  The path watchFiles hands to the watcher for an
    entrypoint is one its own listener recognises: a change reported with
    that path runs the write of that entrypoint. *)
Theorem change_notification_contract (host : Host) (config : ResolvedConfig)
    (options : Options) (server : ViteDevServer) (st0 : PluginState)
    (changed : string) (w : World) :
  let st := watchFiles host config options server st0 in
  emit_change host config st changed w
  = for_each (fun h => writeEntrypoint host config (h_entry h) (h_devPort h))
      (filter (fun h => h_absPath h = resolve host [changed]) (change_handlers st)) w
  /\ ((forall h, h ∈ change_handlers st -> h_absPath h <> resolve host [changed]) ->
      emit_change host config st changed w = (Normal tt, w))
  /\ (forall entry,
        entry ∈ entrypoints options ->
        let p := resolve host [root config; input entry] in
        p ∈ watched st
        /\ exists port,
             mkHandler entry p port
             ∈ filter (fun h => h_absPath h = resolve host [p]) (change_handlers st)).
Proof.
  intros st. split; [apply emit_change_runs_matching|]. split.
  - intros Hno. rewrite emit_change_runs_matching.
    by rewrite (filter_none _ _ Hno).
  - intros entry He p.
    destruct (watchFiles_fields host config options server st0) as (_ & _ & _ & C).
    fold st in C. split.
    + unfold st. rewrite watchFiles_watched. apply elem_of_app. right.
      apply list_elem_of_fmap. by exists entry.
    + eexists. apply list_elem_of_filter. split.
      * simpl. unfold p, resolve. by rewrite resolve_idempotent.
      * rewrite C. apply elem_of_app. right. apply list_elem_of_fmap.
        by exists entry.
Qed.

(** ** Writing an entrypoint, the destination in the way *)

Lemma find_some_of_exists {A} (P : A -> bool) (l : list A) :
  (exists a, a ∈ l /\ P a = true) -> exists b, find P l = Some b.
Proof.
  induction l as [|x l IH]; intros (a & Ha & Hp).
  - by apply elem_of_nil in Ha.
  - simpl. destruct (P x) eqn:E; [eauto|].
    apply IH. apply elem_of_cons in Ha as [->|Ha]; [congruence|eauto].
Qed.

(** X17. What writeEntrypoint does when the destination cannot be
    written, on a host with a window and with the source a regular file.
    When a regular file stands where a directory of the destination has to
    be, the recursive mkdir throws EEXIST or ENOTDIR for the destination's
    directory and the file system is as it was.  When the destination
    itself is a directory, the write throws EISDIR for it; by then the
    directories of the destination have been made, and nothing else has
    changed.  In both cases the exception leaves writeEntrypoint and no
    success line is logged. *)
Theorem writeEntrypoint_destination_errors (host : Host) (config : ResolvedConfig)
    (entry : Entrypoint) (port : N) (w : World) (text : string) (href : option string) :
  let src := resolve host [root config; input entry] in
  let out := resolve host [root config; output entry] in
  global_window host = Some href ->
  lookup_node (files w) src = Some (File text) ->
  ((exists a, a ∈ ancestors (path_dirname out) /\ is_file (files w) a = true) ->
   exists code w',
     writeEntrypoint host config entry port w
     = (Throw (FsError code (path_dirname out)), w')
     /\ (code = "EEXIST" \/ code = "ENOTDIR")
     /\ files w' = files w
     /\ Forall (fun line => line <> Log (transformed_message entry))
          (drop (length (console w)) (console w')))
  /\ ((forall a, a ∈ ancestors (path_dirname out) -> is_file (files w) a = false) ->
      lookup_node (files w) out = Some Dir ->
      exists w',
        writeEntrypoint host config entry port w = (Throw (FsError "EISDIR" out), w')
        /\ (forall p, files w' !! p
                      = if bool_decide (p ∈ ancestors (path_dirname out)) then Some Dir
                        else files w !! p)
        /\ Forall (fun line => line <> Log (transformed_message entry))
             (drop (length (console w)) (console w'))).
Proof.
  intros src out Hw Hsrc.
  destruct (getManifestId_console host config w) as (id & w0 & E & F & C).
  assert (R : injectDevClient host config text port w
              = (Normal (rewriteUrls port (replace_head text (head_template port id))),
                 w0)).
  { unfold injectDevClient, bind, window_href, ret. by rewrite E, Hw. }
  assert (Hlog : Forall (fun line => line <> Log (transformed_message entry))
                   (drop (length (console w)) (console w0))).
  { destruct C as [->|[e ->]].
    - by rewrite drop_all.
    - rewrite drop_app_length. by constructor. }
  split.
  - intros Hblock.
    destruct (find_some_of_exists (is_file (files w0)) (ancestors (path_dirname out)))
      as (b & Hb); [by rewrite F|].
    eexists _, w0.
    split; [|split; [|split; [exact F|exact Hlog]]].
    + unfold writeEntrypoint, bind, existsSync, readFileSync.
      fold src out. rewrite (exists_of_lookup _ _ _ Hsrc). simpl. rewrite Hsrc, R.
      unfold mkdirSync_recursive. by rewrite Hb.
    + simpl. destruct (String.eqb b (path_dirname out)); auto.
  - intros Hclear Hout.
    exists (mkWorld (foldr (fun a fs => <[a := Dir]> fs) (files w0)
                       (ancestors (path_dirname out)))
              (console w0)).
    split; [|split; [|exact Hlog]].
    + unfold writeEntrypoint, bind, existsSync, readFileSync.
      fold src out. rewrite (exists_of_lookup _ _ _ Hsrc). simpl. rewrite Hsrc, R.
      unfold mkdirSync_recursive. rewrite find_none_of_all.
      2:{ intros a Ha. rewrite F. by apply Hclear. }
      unfold writeFileSync, write_node. simpl.
      replace (lookup_node _ out) with (Some Dir); [done|].
      symmetry. destruct (decide (out = "/")) as [->|Hr]; [done|].
      unfold lookup_node in *. destruct (String.eqb_spec out "/"); [done|].
      rewrite mkdir_inserts, F. case_bool_decide; done.
    + intros p. simpl. by rewrite mkdir_inserts, F.
Qed.

Lemma writeEntrypoint_destination_errors_witness :
  exists code w',
    writeEntrypoint Demo.browser_host Demo.config
      (mkEntrypoint "index.html" "manifest.json/index.html") 5173 Demo.world
    = (Throw (FsError code "/proj/manifest.json"), w')
    /\ (code = "EEXIST" \/ code = "ENOTDIR")
    /\ files w' = files Demo.world
    /\ Forall (fun line =>
                 line <> Log (transformed_message
                                (mkEntrypoint "index.html" "manifest.json/index.html")))
         (drop (length (console Demo.world)) (console w')).
Proof.
  destruct (writeEntrypoint_destination_errors Demo.browser_host Demo.config
              (mkEntrypoint "index.html" "manifest.json/index.html") 5173 Demo.world
              Demo.index_html (Some "http://localhost:5173/"))
    as [H _].
  - reflexivity.
  - vm_compute. reflexivity.
  - apply H. exists "/proj/manifest.json". split; [vm_compute; right; left|].
    vm_compute. reflexivity.
Defined.

(** ** Provisioning, step by step *)

Lemma copyFileSync_cases (src dst : string) (w : World) :
  match lookup_node (files w) src with
  | Some (File c) =>
      (lookup_node (files w) dst <> Some Dir
       /\ lookup_node (files w) (path_dirname dst) = Some Dir
       /\ copyFileSync src dst w
          = (Normal tt, mkWorld (<[dst := File c]> (files w)) (console w)))
      \/ ((lookup_node (files w) dst = Some Dir
           \/ lookup_node (files w) (path_dirname dst) <> Some Dir)
          /\ exists code, copyFileSync src dst w = (Throw (CopyError code src dst), w))
  | Some Dir => copyFileSync src dst w = (Throw (CopyError "EISDIR" src dst), w)
  | None => copyFileSync src dst w = (Throw (CopyError "ENOENT" src dst), w)
  end.
Proof.
  unfold copyFileSync, try_catch, bind, readFileSync, write_node, throw.
  destruct (lookup_node (files w) src) as [[c|]|]; [|done..].
  destruct (lookup_node (files w) dst) as [[|]|];
    destruct (lookup_node (files w) (path_dirname dst)) as [[|]|];
    first [left; by repeat split | right; split; [auto|by eexists]].
Qed.

Lemma copy_if_exists_effect (src dst : string) (w w' : World) :
  copy_if_exists src dst w = (Normal tt, w') ->
  console w' = console w /\ copied src dst (files w) (files w').
Proof.
  unfold copy_if_exists, bind, existsSync, ret.
  pose proof (copyFileSync_cases src dst w) as H.
  destruct (lookup_node (files w) src) as [[c|]|] eqn:E.
  - rewrite bool_decide_eq_true_2 by eauto.
    destruct H as [(Hd & Hp & ->)|(_ & code & ->)]; [|done].
    intros [= <-]. split; [done|]. right. exists c. by rewrite E.
  - rewrite bool_decide_eq_true_2 by eauto. by rewrite H.
  - rewrite bool_decide_eq_false_2 by (intros [? ?]; done).
    intros [= <-]. split; [done|]. by left.
Qed.

Lemma copy_if_exists_throws (src dst : string) (w w' : World) (e : exn) :
  copy_if_exists src dst w = (Throw e, w') ->
  w' = w /\ copy_fails src dst (files w) e.
Proof.
  unfold copy_if_exists, bind, existsSync, ret.
  pose proof (copyFileSync_cases src dst w) as H.
  destruct (lookup_node (files w) src) as [[c|]|] eqn:E.
  - rewrite bool_decide_eq_true_2 by eauto.
    destruct H as [(_ & _ & ->)|(Hw & code & ->)]; [done|].
    intros [= <- <-]. split; [done|]. exists code. split; [done|].
    right. exists c. by rewrite E.
  - rewrite bool_decide_eq_true_2 by eauto. rewrite H.
    intros [= <- <-]. split; [done|]. exists "EISDIR". split; [done|]. by left.
  - rewrite bool_decide_eq_false_2 by (intros [? ?]; done). done.
Qed.

(** The mkdir of a step, where the directory is missing. *)
Lemma mkdir_made (d : string) (w w0 : World) :
  lookup_node (files w) d = None ->
  mkdirSync_recursive d w = (Normal tt, w0) ->
  console w0 = console w /\ made d (files w) (files w0).
Proof.
  intros Ed E0. unfold mkdirSync_recursive in E0.
  destruct (find _ _) eqn:Ef; [done|]. injection E0 as <-. split; [done|].
  right. split; [done|]. split; [|done].
  intros a Ha. apply list_elem_of_In in Ha. exact (find_none _ _ Ef a Ha).
Qed.

(** A step of provisioning, whichever way it ends. *)
Lemma provision_cases host config (d : string) (w : World) :
  match provision_dir host config d w with
  | (Normal _, w') =>
      console w' = console w /\ provisioned host config d (files w) (files w')
  | (Throw e, w') =>
      console w' = console w /\ provision_failed host config d (files w) (files w') e
  end.
Proof.
  unfold provision_dir. unfold bind at 1 2. unfold existsSync at 1.
  assert (Hstep : forall w0,
            console w0 = console w -> made d (files w) (files w0) ->
            match
              bind (copy_if_exists (eventForwarderSrc host config)
                      (resolve host [d; "eventForwarder.js"]))
                (fun _ => copy_if_exists (errorPageSrc host)
                            (resolve host [d; "error.html"])) w0
            with
            | (Normal _, w') =>
                console w' = console w
                /\ provisioned host config d (files w) (files w')
            | (Throw e, w') =>
                console w' = console w
                /\ provision_failed host config d (files w) (files w') e
            end).
  { intros w0 Hc Hm. unfold bind.
    destruct (copy_if_exists _ _ w0) as [[[]|e] w1] eqn:E1.
    - apply copy_if_exists_effect in E1 as [Hc1 C1].
      destruct (copy_if_exists _ _ w1) as [[[]|e] w2] eqn:E2.
      + apply copy_if_exists_effect in E2 as [Hc2 C2].
        split; [congruence|]. by exists (files w0), (files w1).
      + apply copy_if_exists_throws in E2 as [-> F2].
        split; [congruence|]. right. right. by exists (files w0).
    - apply copy_if_exists_throws in E1 as [-> F1].
      split; [done|]. right. by left. }
  destruct (lookup_node (files w) d) as [n|] eqn:Ed.
  - rewrite bool_decide_eq_true_2 by eauto. simpl.
    apply (Hstep w); [done|]. left. by rewrite Ed.
  - rewrite bool_decide_eq_false_2 by (intros [? ?]; done). simpl.
    destruct (mkdirSync_recursive d w) as [[[]|e] w0] eqn:E0.
    + destruct (mkdir_made d w w0 Ed E0) as [Hc Hm]. by apply Hstep.
    + pose proof E0 as E0'. apply mkdirSync_recursive_throws in E0 as [-> Ha].
      split; [done|]. left. split; [done|]. split; [done|]. split; [done|].
      unfold mkdirSync_recursive in E0'. destruct (find _ _); [|done].
      injection E0' as <-. eauto.
Qed.

Lemma provision_effect host config (d : string) (w w' : World) :
  provision_dir host config d w = (Normal tt, w') ->
  exists fa fb,
    made d (files w) fa
    /\ copied (eventForwarderSrc host config) (resolve host [d; "eventForwarder.js"]) fa fb
    /\ copied (errorPageSrc host) (resolve host [d; "error.html"]) fb (files w').
Proof.
  intros E. pose proof (provision_cases host config d w) as H.
  rewrite E in H. by destruct H as [_ H].
Qed.

Lemma lookup_node_other (fs : gmap string node) (p : string) :
  p <> "/" -> lookup_node fs p = fs !! p.
Proof. intros H. unfold lookup_node. by destruct (String.eqb_spec p "/"). Qed.

Lemma made_keeps (d : string) (fs fs' : gmap string node) (p : string) :
  made d fs fs' -> keeps fs fs' p.
Proof.
  intros [[_ ->]|(_ & Hclear & ->)] n Hn; [done|].
  destruct (decide (p = "/")) as [->|Hp]; [done|].
  rewrite lookup_node_other in * by done.
  rewrite mkdir_inserts. case_bool_decide as Hin; [|done].
  specialize (Hclear p Hin). unfold is_file in Hclear.
  rewrite lookup_node_other, Hn in Hclear by done. by destruct n.
Qed.

Lemma copied_keeps (src dst : string) (fs fs' : gmap string node) (p : string) :
  copied src dst fs fs' -> p <> dst -> keeps fs fs' p.
Proof.
  intros [[_ ->]|(c & _ & _ & _ & ->)] Hp n Hn; [done|].
  destruct (decide (p = "/")) as [->|Hr]; [done|].
  rewrite lookup_node_other in * by done.
  by rewrite lookup_insert_ne.
Qed.

(** A directory stays one through a copy. *)
Lemma copied_keeps_dir (src dst : string) (fs fs' : gmap string node) (p : string) :
  copied src dst fs fs' -> lookup_node fs p = Some Dir -> lookup_node fs' p = Some Dir.
Proof.
  intros C Hp. destruct (decide (p = dst)) as [->|Hne].
  - destruct C as [[_ ->]|(c & _ & Hd & _)]; [done|]. by destruct Hd.
  - by apply (copied_keeps _ _ _ _ _ C Hne).
Qed.

(** The copy of a source that is there: the destination holds its
    content, in a directory. *)
Lemma copied_there (src dst : string) (fs fs' : gmap string node) (c : string) :
  copied src dst fs fs' -> lookup_node fs src = Some (File c) ->
  lookup_node fs' dst = Some (File c)
  /\ lookup_node fs (path_dirname dst) = Some Dir.
Proof.
  intros [[E _]|(c' & E & Hd & Hp & ->)] Hs; rewrite Hs in E; [done|].
  injection E as <-. split; [|done].
  destruct (decide (dst = "/")) as [->|Hr]; [by destruct Hd|].
  rewrite lookup_node_other by done. by rewrite lookup_insert_eq.
Qed.

(** ** The names of the two files *)

Lemma child_path (host : Host) (d name : string) :
  normalised d -> clean_segment name ->
  exists segs,
    Forall clean_segment segs /\ d = join_absolute segs
    /\ resolve host [d; name] = join_absolute (segs ++ [name])
    /\ path_dirname (resolve host [d; name]) = d.
Proof.
  intros (segs & Hs & ->) Hn. exists segs. split; [done|]. split; [done|].
  unfold resolve. rewrite (resolve_child _ _ _ Hs Hn). split; [done|].
  by apply dirname_join.
Qed.

Lemma join_snoc_inj (a b : list string) (x y : string) :
  Forall clean_segment a -> Forall clean_segment b ->
  clean_segment x -> clean_segment y ->
  join_absolute (a ++ [x]) = join_absolute (b ++ [y]) -> a = b /\ x = y.
Proof.
  intros Ha Hb Hx Hy E. apply join_absolute_inj in E.
  - by apply app_inj_tail in E.
  - apply Forall_app. split; [done|by constructor].
  - apply Forall_app. split; [done|by constructor].
Qed.

Lemma clean_eventForwarder : clean_segment "eventForwarder.js".
Proof. by repeat split. Qed.

Lemma clean_error_html : clean_segment "error.html".
Proof. by repeat split. Qed.

Lemma eventForwarderSrc_name host config :
  exists init,
    Forall clean_segment init
    /\ eventForwarderSrc host config = join_absolute (init ++ ["eventForwarder.js"]).
Proof.
  unfold eventForwarderSrc, resolve.
  destruct (resolve_relative_last (cwd host) [root config]
              "node_modules/@beekeeperstudio/plugin/dist/eventForwarder.js"
              ltac:(done) ltac:(done))
    as (stack & Hc & E).
  simpl in E. rewrite E.
  exists (rev stack ++ ["node_modules"; "@beekeeperstudio"; "plugin"; "dist"])%list.
  split.
  - apply Forall_app. split; [by apply Forall_rev|].
    repeat constructor; by repeat split.
  - f_equal. vm_compute split_on. simpl. by rewrite <- !app_assoc.
Qed.

Lemma errorPageSrc_name host :
  exists init,
    Forall clean_segment init
    /\ errorPageSrc host = join_absolute (init ++ ["error.html"]).
Proof.
  unfold errorPageSrc, resolve.
  destruct (resolve_relative_last (cwd host) [module_dir host] "../error.html"
              ltac:(done) ltac:(done))
    as (stack & Hc & E).
  simpl in E. rewrite E. exists (rev (tail stack)). split.
  - apply Forall_rev. destruct stack; [done|]. by inversion Hc.
  - done.
Qed.

(** ** What provisioning installs *)

Lemma installed_file_name host config (src name : string) :
  installed_file host config src name ->
  clean_segment name
  /\ exists init, Forall clean_segment init /\ src = join_absolute (init ++ [name]).
Proof.
  intros [[-> ->]|[-> ->]].
  - split; [apply clean_eventForwarder|apply eventForwarderSrc_name].
  - split; [apply clean_error_html|apply errorPageSrc_name].
Qed.

Lemma child_inj (host : Host) (d d0 n : string) :
  normalised d -> normalised d0 -> clean_segment n ->
  resolve host [d; n] = resolve host [d0; n] -> d = d0.
Proof.
  intros Hd Hd0 Hn E.
  destruct (child_path host d n Hd Hn) as (segs & Hs & -> & E1 & _).
  destruct (child_path host d0 n Hd0 Hn) as (segs0 & Hs0 & -> & E2 & _).
  rewrite E1, E2 in E. apply join_snoc_inj in E as [-> _]; done.
Qed.

Lemma child_ne_named (host : Host) (d n : string) (init : list string) (m : string) :
  normalised d -> clean_segment n -> Forall clean_segment init -> clean_segment m ->
  n <> m -> resolve host [d; n] <> join_absolute (init ++ [m]).
Proof.
  intros Hd Hn Hi Hm Hne E.
  destruct (child_path host d n Hd Hn) as (segs & Hs & -> & E1 & _).
  rewrite E1 in E. apply join_snoc_inj in E as [_ ?]; done.
Qed.

Lemma child_ne_child (host : Host) (d d0 n m : string) :
  normalised d -> normalised d0 -> clean_segment n -> clean_segment m ->
  n <> m -> resolve host [d; n] <> resolve host [d0; m].
Proof.
  intros Hd Hd0 Hn Hm Hne.
  destruct (child_path host d0 m Hd0 Hm) as (segs & Hs & -> & -> & _).
  by apply child_ne_named.
Qed.

(** One copy, seen from the file that is followed. *)
Lemma copy_tracks (host : Host) (s n c src m d : string) (init : list string)
    (fs fs' : gmap string node) :
  normalised d -> clean_segment n -> clean_segment m ->
  Forall clean_segment init -> s = join_absolute (init ++ [n]) ->
  (m = n -> src = s) ->
  copied src (resolve host [d; m]) fs fs' ->
  lookup_node fs s = Some (File c) ->
  lookup_node fs' s = Some (File c)
  /\ (m = n ->
      lookup_node fs' (resolve host [d; n]) = Some (File c)
      /\ lookup_node fs d = Some Dir)
  /\ (m <> n -> keeps fs fs' (resolve host [d; n]))
  /\ (forall d0, normalised d0 -> d0 <> d -> keeps fs fs' (resolve host [d0; n])).
Proof.
  intros Hd Hn Hm Hi Hs Hsrc C Hc.
  assert (Hown : m = n ->
            lookup_node fs' (resolve host [d; n]) = Some (File c)
            /\ lookup_node fs d = Some Dir).
  { intros ->. rewrite (Hsrc eq_refl) in C.
    destruct (copied_there _ _ _ _ _ C Hc) as [H1 H2]. split; [done|].
    destruct (child_path host d n Hd Hn) as (segs & _ & _ & _ & Ed).
    by rewrite Ed in H2. }
  split; [|split; [done|split]].
  - destruct (decide (m = n)) as [E|E].
    + destruct (decide (s = resolve host [d; m])) as [Es|Es].
      * rewrite Es, E. by apply Hown.
      * by apply (copied_keeps _ _ _ _ _ C Es).
    + apply (copied_keeps _ _ _ _ _ C); [|done].
      intros Es. symmetry in Es. rewrite Hs in Es.
      by apply child_ne_named in Es.
  - intros E. apply (copied_keeps _ _ _ _ _ C).
    apply child_ne_child; try done; congruence.
  - intros d0 Hd0 Hne. apply (copied_keeps _ _ _ _ _ C).
    destruct (decide (n = m)) as [<-|E].
    + intros Ec. by apply child_inj in Ec.
    + by apply child_ne_child.
Qed.

(** One directory provisioned, seen from the file that is followed. *)
Lemma provision_tracks host config (src name c d : string) (w w' : World) :
  installed_file host config src name -> normalised d ->
  provision_dir host config d w = (Normal tt, w') ->
  lookup_node (files w) src = Some (File c) ->
  lookup_node (files w') src = Some (File c)
  /\ lookup_node (files w') (resolve host [d; name]) = Some (File c)
  /\ lookup_node (files w') d = Some Dir
  /\ (forall d0, normalised d0 -> d0 <> d ->
                 keeps (files w) (files w') (resolve host [d0; name]))
  /\ (forall q, lookup_node (files w) q = Some Dir -> lookup_node (files w') q = Some Dir).
Proof.
  intros Hf Hd E Hc.
  destruct (installed_file_name host config src name Hf) as (Hn & init & Hi & Hs).
  apply provision_effect in E as (fa & fb & Ma & C1 & C2).
  pose proof (made_keeps _ _ _ src Ma _ Hc) as Ha.
  assert (Hdirs : forall q, lookup_node (files w) q = Some Dir ->
                            lookup_node (files w') q = Some Dir).
  { intros q Hq. apply (copied_keeps_dir _ _ _ _ _ C2).
    apply (copied_keeps_dir _ _ _ _ _ C1). by apply (made_keeps _ _ _ q Ma). }
  destruct Hf as [[Esrc Ename]|[Esrc Ename]].
  - destruct (copy_tracks host src name c (eventForwarderSrc host config)
                "eventForwarder.js" d init fa fb Hd Hn clean_eventForwarder Hi Hs
                ltac:(done) C1 Ha) as (S1 & O1 & _ & K1).
    destruct (O1 (eq_sym Ename)) as [F1 D1].
    destruct (copy_tracks host src name c (errorPageSrc host)
                "error.html" d init fb (files w') Hd Hn clean_error_html Hi Hs
                ltac:(intros ?; congruence) C2 S1) as (S2 & _ & N2 & K2).
    split; [done|]. split; [apply N2; [by subst|done]|]. split.
    + apply (copied_keeps_dir _ _ _ _ _ C2). by apply (copied_keeps_dir _ _ _ _ _ C1).
    + split; [|done]. intros d0 Hd0 Hne n Hq.
      apply (K2 d0 Hd0 Hne), (K1 d0 Hd0 Hne). by apply (made_keeps _ _ _ _ Ma).
  - destruct (copy_tracks host src name c (eventForwarderSrc host config)
                "eventForwarder.js" d init fa fb Hd Hn clean_eventForwarder Hi Hs
                ltac:(intros ?; congruence) C1 Ha) as (S1 & _ & _ & K1).
    destruct (copy_tracks host src name c (errorPageSrc host)
                "error.html" d init fb (files w') Hd Hn clean_error_html Hi Hs
                ltac:(done) C2 S1) as (S2 & O2 & _ & K2).
    destruct (O2 (eq_sym Ename)) as [F2 D2].
    split; [done|]. split; [done|]. split.
    + by apply (copied_keeps_dir _ _ _ _ _ C2).
    + split; [|done]. intros d0 Hd0 Hne n Hq.
      apply (K2 d0 Hd0 Hne), (K1 d0 Hd0 Hne). by apply (made_keeps _ _ _ _ Ma).
Qed.

(** The whole loop, seen from the file that is followed. *)
Lemma provisioning_tracks host config (src name c : string) (dirs : list string)
    (w w' : World) :
  installed_file host config src name ->
  NoDup dirs -> Forall normalised dirs ->
  for_each (provision_dir host config) dirs w = (Normal tt, w') ->
  lookup_node (files w) src = Some (File c) ->
  lookup_node (files w') src = Some (File c)
  /\ (forall d, d ∈ dirs ->
        lookup_node (files w') (resolve host [d; name]) = Some (File c)
        /\ lookup_node (files w') d = Some Dir)
  /\ (forall d0, normalised d0 -> d0 ∉ dirs ->
                 keeps (files w) (files w') (resolve host [d0; name]))
  /\ (forall q, lookup_node (files w) q = Some Dir -> lookup_node (files w') q = Some Dir).
Proof.
  intros Hf. revert w.
  induction dirs as [|d dirs IH]; intros w ND Hn E Hc.
  - injection E as <-. split; [done|]. split; [by intros d ?%elem_of_nil|].
    split; [by intros d0 _ _ n Hq|done].
  - simpl in E. unfold bind in E.
    destruct (provision_dir host config d w) as [[[]|e] w1] eqn:E1; [|done].
    inversion ND as [|? ? Hnot ND']; subst. inversion Hn as [|? ? Hd Hn']; subst.
    destruct (provision_tracks host config src name c d w w1 Hf Hd E1 Hc)
      as (S1 & F1 & D1 & K1 & G1).
    destruct (IH w1 ND' Hn' E S1) as (S2 & F2 & K2 & G2).
    split; [done|]. split; [|split].
    + intros d' [->|Hin]%elem_of_cons.
      * split; [by apply (K2 d Hd Hnot)|by apply G2].
      * by apply F2.
    + intros d0 Hd0 Hnin n Hq.
      apply (K2 d0 Hd0); [by intros ?; apply Hnin; right|].
      apply (K1 d0 Hd0); [by intros ->; apply Hnin; left|done].
    + intros q Hq. by apply G2, G1.
Qed.

Lemma outputDirs_normalised host config options :
  NoDup (outputDirs host config options)
  /\ Forall normalised (outputDirs host config options).
Proof.
  destruct (add_dirs_spec host config (entrypoints options) [] (NoDup_nil_2)) as [ND In].
  split; [exact ND|]. apply Forall_forall. intros d Hd.
  unfold outputDirs in Hd. fold (add_dir host config) in Hd.
  apply In in Hd as [Hd|(entry & _ & ->)]; [by apply elem_of_nil in Hd|].
  unfold output_dir, resolve. apply resolve_shape.
Qed.



(** ** Writing every entrypoint, the path that writes *)

Lemma written_lookup_node (fs : gmap string node) (out html p : string) :
  out <> "/" ->
  lookup_node (written fs out html) p
  = if bool_decide (p = out) then Some (File html)
    else if bool_decide (p ∈ ancestors (path_dirname out)) then Some Dir
    else lookup_node fs p.
Proof.
  intros Hout. unfold lookup_node. rewrite written_lookup.
  destruct (String.eqb_spec p "/") as [->|]; [|done].
  rewrite bool_decide_eq_false_2 by done. by case_bool_decide.
Qed.

(** One write, as a change of the file system. *)
Lemma writeEntrypoint_step host config (entry : Entrypoint) (port : N) (w : World)
    (text : string) (href : option string) :
  let out := resolve host [root config; output entry] in
  global_window host = Some href ->
  lookup_node (files w) (resolve host [root config; input entry]) = Some (File text) ->
  (forall a, a ∈ ancestors (path_dirname out) -> is_file (files w) a = false) ->
  lookup_node (files w) out <> Some Dir ->
  exists w',
    writeEntrypoint host config entry port w = (Normal tt, w')
    /\ files w' = written (files w) out (transform_of host config (files w) port text)
    /\ out <> "/".
Proof.
  intros out Hw Hsrc Hclear Hout.
  destruct (writeEntrypoint_result host config entry port w text href Hw Hsrc Hclear Hout)
    as (html & w0 & R & _ & E).
  destruct (injectDevClient_value host config text port w href Hw) as (w0' & R' & _).
  rewrite R in R'. injection R' as -> _.
  eexists. split; [exact E|]. split; [done|].
  intros Er. apply Hout. fold out. by rewrite Er.
Qed.

(** The manifest's value survives a write that is not a write of the
    manifest. *)
Lemma manifest_value_written host (fs : gmap string node) (out html m : string) :
  out <> "/" -> m <> out ->
  (forall a, a ∈ ancestors (path_dirname out) -> is_file fs a = false) ->
  manifest_value host (lookup_node (written fs out html) m)
  = manifest_value host (lookup_node fs m).
Proof.
  intros Hr Hm Hclear. rewrite written_lookup_node by done.
  rewrite bool_decide_eq_false_2 by done.
  case_bool_decide as Hin; [|done].
  specialize (Hclear _ Hin). unfold is_file in Hclear.
  by destruct (lookup_node fs m) as [[|]|].
Qed.

Lemma writeAll_loop host config (entries : list Entrypoint)
    (texts : Entrypoint -> string) (port : N) (href : option string)
    (rest : list Entrypoint) (w : World) :
  global_window host = Some href ->
  apart host config entries ->
  (forall e, e ∈ rest -> e ∈ entries) ->
  NoDup (map (fun e => resolve host [root config; output e]) rest) ->
  writable host config entries texts (files w) ->
  exists w',
    for_each (fun entry => writeEntrypoint host config entry port) rest w = (Normal tt, w')
    /\ writable host config entries texts (files w')
    /\ manifest_value host
         (lookup_node (files w') (resolve host [root config; "manifest.json"]))
       = manifest_value host
           (lookup_node (files w) (resolve host [root config; "manifest.json"]))
    /\ (forall e, e ∈ rest ->
          files w' !! resolve host [root config; output e]
          = Some (File (transform_of host config (files w) port (texts e))))
    /\ (forall p,
          (forall e, e ∈ rest ->
             p <> resolve host [root config; output e]
             /\ p ∉ ancestors (path_dirname (resolve host [root config; output e]))) ->
          files w' !! p = files w !! p).
Proof.
  intros Hw Hap. revert w.
  induction rest as [|e rest IH]; intros w Hsub ND Hready.
  - exists w. split; [done|]. split; [done|]. split; [done|].
    split; [by intros e ?%elem_of_nil|done].
  - assert (He : e ∈ entries) by (apply Hsub; left).
    inversion ND as [|? ? Hnot ND']; subst.
    destruct (Hready e He) as (Hsrc & Hclear & Hout).
    destruct (writeEntrypoint_step host config e port w (texts e) href
                Hw Hsrc Hclear Hout) as (w1 & E1 & F1 & Hroot).
    set (out := resolve host [root config; output e]) in *.
    set (m := resolve host [root config; "manifest.json"]) in *.
    assert (Hm1 : manifest_value host (lookup_node (files w1) m)
                  = manifest_value host (lookup_node (files w) m)).
    { rewrite F1. apply manifest_value_written; try done.
      intros Em. by destruct (Hap e e He He) as (_ & H & _). }
    assert (Hready1 : writable host config entries texts (files w1)).
    { intros e' He'. destruct (Hready e' He') as (Hsrc' & Hclear' & Hout').
      destruct (Hap e e' He He') as (A1 & _ & A3).
      destruct (Hap e' e He' He) as (_ & _ & B3).
      rewrite F1. split; [|split].
      - rewrite written_lookup_node by done.
        rewrite bool_decide_eq_false_2 by (intros Es; by apply A1).
        case_bool_decide as Hin; [|done].
        specialize (Hclear _ Hin). unfold is_file in Hclear.
        by rewrite Hsrc' in Hclear.
      - intros a Ha. unfold is_file. rewrite written_lookup_node by done.
        case_bool_decide as Ea; [by subst|].
        case_bool_decide; [done|]. by apply Hclear'.
      - rewrite written_lookup_node by done.
        case_bool_decide; [done|].
        by rewrite bool_decide_eq_false_2. }
    destruct (IH w1 ltac:(by intros e' He'; apply Hsub; right) ND' Hready1)
      as (w' & E & Hready' & Hm' & Hdone & Hframe).
    exists w'. split; [|split; [done|split; [by rewrite Hm', Hm1|split]]].
    + simpl. unfold bind. by rewrite E1.
    + intros e' [->|Hin]%elem_of_cons.
      * rewrite Hframe.
        -- rewrite F1, written_lookup. by rewrite bool_decide_eq_true_2.
        -- intros e'' He''. split.
           ++ intros Eo. apply Hnot. apply list_elem_of_fmap. by exists e''.
           ++ by destruct (Hap e e'' He ltac:(by apply Hsub; right)) as (_ & _ & ?).
      * rewrite (Hdone e' Hin). unfold transform_of. fold m. by rewrite Hm1.
    + intros p Hp. rewrite Hframe by (intros e' He'; apply Hp; by right).
      destruct (Hp e ltac:(left)) as [P1 P2].
      rewrite F1, written_lookup. by rewrite !bool_decide_eq_false_2.
Qed.

(** X18. On a host with a window, writeAll writes every entrypoint when
    the entrypoints can be written one after the other (each source a
    regular file, no regular file where a directory of a destination has
    to be, no destination a directory) and stay out of each other's way
    (the destinations are pairwise distinct and none of them is a source,
    the manifest, or a directory on the way to a destination).  It
    returns, and every destination holds the transform of its source's
    text, for the port writeAll computes and the identity of the manifest
    as it was at the start; a path that is no destination and no directory
    of one is as it was. *)
Theorem writeAll_writes (host : Host) (config : ResolvedConfig) (options : Options)
    (server : ViteDevServer) (st : PluginState) (w : World)
    (texts : Entrypoint -> string) (href : option string) :
  global_window host = Some href ->
  writable host config (entrypoints options) texts (files w) ->
  apart host config (entrypoints options) ->
  NoDup (map (fun e => resolve host [root config; output e]) (entrypoints options)) ->
  exists w',
    writeAll host config options server st w = (Normal tt, w')
    /\ (forall e, e ∈ entrypoints options ->
          files w' !! resolve host [root config; output e]
          = Some (File (transform_of host config (files w)
                          (devPort_of (portFromServer st) (server_port (srv_config server)))
                          (texts e))))
    /\ (forall p,
          (forall e, e ∈ entrypoints options ->
             p <> resolve host [root config; output e]
             /\ p ∉ ancestors (path_dirname (resolve host [root config; output e]))) ->
          files w' !! p = files w !! p).
Proof.
  intros Hw Hready Hap ND. unfold writeAll.
  destruct (writeAll_loop host config (entrypoints options) texts
              (devPort_of (portFromServer st) (server_port (srv_config server)))
              href (entrypoints options) w Hw Hap ltac:(done) ND Hready)
    as (w' & E & _ & _ & Hdone & Hframe).
  exists w'. done.
Qed.

Lemma writeAll_writes_witness :
  let options :=
    mkOptions [mkEntrypoint "index.html" "dist/index.html";
               mkEntrypoint "index.html" "preview/index.html"] in
  exists w',
    writeAll Demo.browser_host Demo.config options Demo.server initial_state Demo.world
    = (Normal tt, w')
    /\ files w' !! "/proj/dist/index.html"
       = Some (File (transform_of Demo.browser_host Demo.config (files Demo.world) 5173
                       Demo.index_html))
    /\ files w' !! "/proj/preview/index.html"
       = Some (File (transform_of Demo.browser_host Demo.config (files Demo.world) 5173
                       Demo.index_html))
    /\ files w' !! "/proj/index.html" = Some (File Demo.index_html).
Proof.
  intros options.
  destruct (writeAll_writes Demo.browser_host Demo.config options Demo.server
              initial_state Demo.world (fun _ => Demo.index_html)
              (Some "http://localhost:5173/"))
    as (w' & E & Hdone & Hframe).
  - reflexivity.
  - intros e He. vm_compute in He.
    repeat (apply elem_of_cons in He as [->|He]);
      [| |by apply elem_of_nil in He].
    all: split; [vm_compute; reflexivity|split; [|vm_compute; discriminate]].
    all: intros a Ha; vm_compute in Ha.
    all: repeat (apply elem_of_cons in Ha as [->|Ha]; [vm_compute; reflexivity|]).
    all: by apply elem_of_nil in Ha.
  - intros e e' He He'. vm_compute in He, He'.
    repeat (apply elem_of_cons in He as [->|He]);
      [| |by apply elem_of_nil in He].
    all: repeat (apply elem_of_cons in He' as [->|He']);
      [| |by apply elem_of_nil in He'].
    all: split; [vm_compute; discriminate|split; [vm_compute; discriminate|]].
    all: vm_compute; intros Ha.
    all: repeat (apply elem_of_cons in Ha as [Ha|Ha]; [discriminate Ha|]).
    all: by apply elem_of_nil in Ha.
  - apply (bool_decide_unpack _). vm_compute. reflexivity.
  - exists w'. split; [exact E|]. split; [|split].
    + apply (Hdone (mkEntrypoint "index.html" "dist/index.html")). left.
    + apply (Hdone (mkEntrypoint "index.html" "preview/index.html")). right. left.
    + rewrite Hframe; [vm_compute; reflexivity|].
      intros e He. vm_compute in He.
      repeat (apply elem_of_cons in He as [->|He]);
        [| |by apply elem_of_nil in He].
      all: split; [vm_compute; discriminate|].
      all: vm_compute; intros Ha.
      all: repeat (apply elem_of_cons in Ha as [Ha|Ha]; [discriminate Ha|]).
      all: by apply elem_of_nil in Ha.
Defined.

(** ** Provisioning, the whole of it *)

(** C8, as the code has it.  The output directories are each
    entrypoint's resolved output directory, without repeats, and they are
    provisioned in that order.  copyDevFiles never throws.  A directory
    whose provisioning returns has been made, with the directories on the
    way to it, where it was missing, and has received the event forwarder
    and the error page, a file whose source is missing being skipped with
    no change and no error.  A directory whose provisioning throws has
    failed at the mkdir, a regular file standing on the way, or at one of
    the copies, the source being a directory, the destination being one,
    or the destination's directory being none; what was done before the
    failure stays.  When every directory is provisioned the success line
    is logged, and every directory is a directory that holds each of the
    two files whose source was a regular file at the start.  When a
    directory fails, the exception is caught and logged as a warning, and
    the world is the one the failing step left: the directories after it
    are not provisioned. *)
Theorem copyDevFiles_contract (host : Host) (config : ResolvedConfig)
    (options : Options) (w : World) :
  let dirs := outputDirs host config options in
  let provision := provision_dir host config in
  NoDup dirs
  /\ (forall d, d ∈ dirs <->
        exists entry, entry ∈ entrypoints options
                      /\ d = resolve host [root config; path_dirname (output entry)])
  /\ (exists w', copyDevFiles host config options w = (Normal tt, w'))
  /\ (forall d w0 w1,
        provision d w0 = (Normal tt, w1) ->
        console w1 = console w0 /\ provisioned host config d (files w0) (files w1))
  /\ (forall d w0 w1 e,
        provision d w0 = (Throw e, w1) ->
        console w1 = console w0
        /\ provision_failed host config d (files w0) (files w1) e)
  /\ (forall w',
        for_each provision dirs w = (Normal tt, w') ->
        copyDevFiles host config options w = (Normal tt, copied_logged w')
        /\ forall d, d ∈ dirs ->
             (forall c,
                lookup_node (files w) (eventForwarderSrc host config) = Some (File c) ->
                lookup_node (files w') d = Some Dir
                /\ lookup_node (files w') (resolve host [d; "eventForwarder.js"])
                   = Some (File c))
             /\ (forall c,
                   lookup_node (files w) (errorPageSrc host) = Some (File c) ->
                   lookup_node (files w') d = Some Dir
                   /\ lookup_node (files w') (resolve host [d; "error.html"])
                      = Some (File c)))
  /\ (forall before d after w1 w2 e,
        dirs = (before ++ d :: after)%list ->
        for_each provision before w = (Normal tt, w1) ->
        provision d w1 = (Throw e, w2) ->
        copyDevFiles host config options w = (Normal tt, copy_warned w2 e)).
Proof.
  intros dirs provision.
  destruct (add_dirs_spec host config (entrypoints options) [] (NoDup_nil_2)) as [ND In].
  split; [exact ND|].
  assert (Hdirs : forall d, d ∈ dirs <->
            exists entry, entry ∈ entrypoints options
                          /\ d = resolve host [root config; path_dirname (output entry)]).
  { intros d. unfold dirs, outputDirs. fold (add_dir host config).
    rewrite In. split; [intros [H|H]; [by apply elem_of_nil in H|done]|auto]. }
  split; [exact Hdirs|]. split; [apply copyDevFiles_returns|].
  split.
  { intros d w0 w1 E. pose proof (provision_cases host config d w0) as H.
    unfold provision in E. by rewrite E in H. }
  split.
  { intros d w0 w1 e E. pose proof (provision_cases host config d w0) as H.
    unfold provision in E. by rewrite E in H. }
  split.
  - intros w' H. split.
    + unfold copyDevFiles, try_catch, copyDevFiles_try, bind, console_log.
      fold dirs provision. by rewrite H.
    + destruct (outputDirs_normalised host config options) as [_ Hn].
      intros d Hd. split; intros c Hc.
      * destruct (provisioning_tracks host config (eventForwarderSrc host config)
                    "eventForwarder.js" c _ w w' ltac:(by left) ND Hn H Hc)
          as (_ & F & _ & _).
        by destruct (F d Hd).
      * destruct (provisioning_tracks host config (errorPageSrc host) "error.html" c
                    _ w w' ltac:(by right) ND Hn H Hc) as (_ & F & _ & _).
        by destruct (F d Hd).
  - intros before d after w1 w2 e Hd H1 H2.
    unfold copyDevFiles, try_catch, copyDevFiles_try, bind, console_warn_error.
    fold dirs provision. rewrite Hd. by rewrite (for_each_stops _ _ _ _ _ _ _ _ H1 H2).
Qed.

(** C8, refuted as stated: the copy into out1 fails, the failure is caught
    and logged, and out2 is neither created nor given error.html, although
    provisioning out2 on its own succeeds. *)
Lemma provisioning_stops_at_first_failure :
  let r := copyDevFiles Demo.node_host Demo.config two_outputs blocked_world in
  let alone := provision_dir Demo.node_host Demo.config "/proj/out2" blocked_world in
  outputDirs Demo.node_host Demo.config two_outputs = ["/proj/out1"; "/proj/out2"]
  /\ r.1 = Normal tt
  /\ console r.2
     = [WarnError "[bks] Could not copy dev files:"
          (CopyError "ENOTDIR"
             "/proj/node_modules/@beekeeperstudio/vite-plugin/error.html"
             "/proj/out1/error.html")]
  /\ files r.2 !! "/proj/out2" = None
  /\ files r.2 !! "/proj/out2/error.html" = None
  /\ alone.1 = Normal tt
  /\ files alone.2 !! "/proj/out2/error.html" = Some (File "<h1>error</h1>").
Proof. repeat apply conj; vm_compute; reflexivity. Qed.

Lemma copyDevFiles_contract_witness :
  copyDevFiles Demo.node_host Demo.config two_outputs blocked_world
  = (Normal tt,
     copy_warned blocked_world
       (CopyError "ENOTDIR"
          "/proj/node_modules/@beekeeperstudio/vite-plugin/error.html"
          "/proj/out1/error.html")).
Proof.
  pose proof (copyDevFiles_contract Demo.node_host Demo.config two_outputs blocked_world)
    as (_ & _ & _ & _ & _ & _ & H).
  apply (H [] "/proj/out1" ["/proj/out2"] blocked_world); vm_compute; reflexivity.
Defined.
